(** * Resume-to-job matching engine: a model of [ats/utils/ai_processor.py]

    The file embeds the [ResumeAnalyzer] class in Rocq and checks the
    properties listed in the specification against it.  Part I holds the
    model: the slice of the Python runtime the class relies on (strings,
    exceptions, binary64 floats, the [re] module), the external capabilities
    (spaCy pipeline, rapidfuzz scorer, pandas table) as interfaces, and the
    methods of the class, one definition per method, under the source names.
    Part II holds the lemmas and the theorems. *)

From Stdlib Require Import ZArith QArith Qround Qabs Qpower Lia Lqa Bool List Ascii String.
From Stdlib Require Import Sorting.Sorted Sorting.Permutation.
From stdpp Require Import base option list gmap strings.

(** ** Part I. The model *)

(** *** Python strings

    A Python [str] is a sequence of Unicode code points. *)

Abbreviation str := (list N).

(** An ASCII literal of the source as a [str]. *)
Definition py (s : string) : str := map N_of_ascii (list_ascii_of_string s).

Definition chr (a : ascii) : N := N_of_ascii a.

(** [str.isspace] on one character, which is also the class [\s] of [re] for
    [str] patterns (both are [Py_UNICODE_ISSPACE]). *)
Definition isspace (c : N) : bool :=
  ((9 <=? c) && (c <=? 13) || (28 <=? c) && (c <=? 32) || (c =? 133) || (c =? 160)
   || (c =? 5760) || (8192 <=? c) && (c <=? 8202) || (c =? 8232) || (c =? 8233)
   || (c =? 8239) || (c =? 8287) || (c =? 12288))%N.

(** What depends on the version of the interpreter: the tables of the
    Unicode database that the code reaches through [str] methods and through
    [re], and the limit on the conversions between [int] and [str].  The
    model takes them as an interface. *)
Class Interpreter := {
  (** [unicodedata.decimal]: the value of a decimal digit (category Nd);
      [\d] matches exactly the characters that have one. *)
  decimal : N -> option Z;
  (** [str.isalnum] on one character; [\w] is [isalnum] or the underscore. *)
  isalnum : N -> bool;
  (** [str.lower]. *)
  lower : list N -> list N;
  (** [str.isnumeric]. *)
  isnumeric : list N -> bool;
  (** Comparison of a cased literal of a pattern compiled with
      [re.IGNORECASE] with a character of the text. *)
  ieq : N -> N -> bool;
  (** [sys.get_int_max_str_digits()]: [None] before Python 3.11. *)
  int_max_str_digits : option nat
}.

(** The tables restricted to the code points 0-127, U+017F (long s) and
    U+212A (Kelvin sign), on which they agree with CPython, and the limit of
    CPython 3.11. *)
Definition ascii_lower (c : N) : N :=
  if ((65 <=? c) && (c <=? 90))%N then (c + 32)%N else c.

Definition basic_decimal (c : N) : option Z :=
  if ((48 <=? c) && (c <=? 57))%N then Some (Z.of_N c - 48)%Z else None.

Definition basic_isalnum (c : N) : bool :=
  ((48 <=? c) && (c <=? 57) || (65 <=? c) && (c <=? 90) || (97 <=? c) && (c <=? 122)
   || (c =? 383) || (c =? 8490))%N.

Definition basic_lower (s : list N) : list N :=
  map (fun c => if (c =? 8490)%N then 107%N else ascii_lower c) s.

Definition basic_ieq (p x : N) : bool :=
  ((ascii_lower x =? ascii_lower p) || (x =? 383) && (ascii_lower p =? 115)
   || (x =? 8490) && (ascii_lower p =? 107))%N.

Definition basic_isnumeric (s : list N) : bool :=
  match s with
  | [] => false
  | _ => forallb (fun c => match basic_decimal c with Some _ => true | None => false end) s
  end.

Definition basic_interpreter : Interpreter :=
  {| decimal := basic_decimal; isalnum := basic_isalnum; lower := basic_lower;
     isnumeric := basic_isnumeric; ieq := basic_ieq; int_max_str_digits := Some 4300%nat |}.

Definition isdigit `{Interpreter} (c : N) : bool :=
  match decimal c with Some _ => true | None => false end.

Definition isword `{Interpreter} (c : N) : bool := isalnum c || (c =? 95)%N.

Fixpoint lstrip (s : list N) : list N :=
  match s with
  | c :: t => if isspace c then lstrip t else s
  | [] => []
  end.

(** [str.strip()] *)
Definition strip (s : list N) : list N := rev (lstrip (rev (lstrip s))).

(** [str.split(sep)] for a separator of one character. *)
Fixpoint split (sep : N) (s : list N) : list (list N) :=
  match s with
  | [] => [[]]
  | c :: t =>
      if (c =? sep)%N then [] :: split sep t
      else match split sep t with
           | h :: r => (c :: h) :: r
           | [] => [[c]]
           end
  end.

(** [sep.join(parts)] *)
Fixpoint join (sep : list N) (parts : list (list N)) : list N :=
  match parts with
  | [] => []
  | [p] => p
  | p :: rest => p ++ sep ++ join sep rest
  end.

Definition str_eqb (a b : list N) : bool := bool_decide (a = b).

Fixpoint startswith (prefix s : list N) : bool :=
  match prefix, s with
  | [], _ => true
  | p :: prefix', c :: s' => (p =? c)%N && startswith prefix' s'
  | _ :: _, [] => false
  end.

(** [needle in haystack] for two strings *)
Fixpoint contains (needle haystack : list N) : bool :=
  startswith needle haystack ||
  match haystack with
  | [] => false
  | _ :: t => contains needle t
  end.

(** [x in xs] for a list of strings *)
Definition str_in (x : list N) (xs : list (list N)) : bool := existsb (str_eqb x) xs.

(** Order of [str] values: lexicographic on code points. *)
Fixpoint str_ltb (a b : list N) : bool :=
  match a, b with
  | [], [] => false
  | [], _ :: _ => true
  | _ :: _, [] => false
  | x :: a', y :: b' => (x <? y)%N || (x =? y)%N && str_ltb a' b'
  end.

Definition str_leb (a b : list N) : bool := negb (str_ltb b a).

(** [sorted]: Python's sort is stable, and so is this insertion sort, hence
    both return the same list for every comparison [leb] that is a total
    preorder. *)
Fixpoint insert_sorted {A} (leb : A -> A -> bool) (x : A) (l : list A) : list A :=
  match l with
  | [] => [x]
  | y :: l' => if leb x y then x :: l else y :: insert_sorted leb x l'
  end.

Definition sorted {A} (leb : A -> A -> bool) (l : list A) : list A :=
  foldr (insert_sorted leb) [] l.

(** *** Exceptions *)

Inductive exn :=
| OSError
| ValueError
| OverflowError
| ZeroDivisionError
| AttributeError
| RuntimeError.

Inductive result (A : Type) :=
| Ok (a : A)
| Raise (e : exn).
Arguments Ok {A} a.
Arguments Raise {A} e.

#[global] Instance result_ret : MRet result := fun _ a => Ok a.
#[global] Instance result_bind : MBind result :=
  fun _ _ f m => match m with Ok a => f a | Raise e => Raise e end.

(** [for x in xs: ...] over a body that may raise *)
Fixpoint mapM {A B} (f : A -> result B) (xs : list A) : result (list B) :=
  match xs with
  | [] => Ok []
  | x :: xs' => y ← f x; ys ← mapM f xs'; Ok (y :: ys)
  end.

(** *** Integers and their decimal form *)

Definition over_digit_limit `{Interpreter} (digits : nat) : bool :=
  match int_max_str_digits with
  | Some limit => (limit <? digits)%nat
  | None => false
  end.

(** Digits with single underscores between them, as [int] accepts them. *)
Fixpoint digits_value `{Interpreter} (acc : Z) (after_digit : bool) (s : list N) : option Z :=
  match s with
  | [] => if after_digit then Some acc else None
  | c :: t =>
      match decimal c with
      | Some d => digits_value (10 * acc + d)%Z true t
      | None =>
          if (c =? 95)%N && after_digit
          then match t with [] => None | _ => digits_value acc false t end
          else None
      end
  end.

(** [int(s)] for a string [s] *)
Definition int `{Interpreter} (s : list N) : result Z :=
  let t := strip s in
  let '(negative, body) :=
    match t with
    | 45%N :: r => (true, r)
    | 43%N :: r => (false, r)
    | _ => (false, t)
    end in
  match digits_value 0 false body with
  | Some n =>
      if over_digit_limit (length (filter (fun c => isdigit c = true) body))
      then Raise ValueError
      else Ok (if negative then (- n)%Z else n)
  | None => Raise ValueError
  end.

Fixpoint decimal_digits (fuel : nat) (n : N) (acc : list N) : list N :=
  match fuel with
  | O => acc
  | S fuel' =>
      let acc' := (48 + n mod 10)%N :: acc in
      if (n <? 10)%N then acc' else decimal_digits fuel' (n / 10)%N acc'
  end.

(** [str(n)] for an integer [n], which is what an f-string writes for it *)
Definition str_of_int `{Interpreter} (n : Z) : result (list N) :=
  let digits := decimal_digits (S (N.to_nat (N.log2 (Z.abs_N n)))) (Z.abs_N n) [] in
  if over_digit_limit (length digits) then Raise ValueError
  else Ok (if (n <? 0)%Z then 45%N :: digits else digits).

(** *** Floats

    A Python [float] is an IEEE 754 binary64 number.  A finite one is held as
    the rational it denotes (the sign of zero is not kept); every operation
    returns the exact result rounded to the nearest binary64 number, ties to
    even, as IEEE 754 defines it. *)

Inductive float :=
| Fin (q : Q)
| Inf (negative : bool)
| NaN.

Section Rounding.
Local Open Scope Q_scope.

(** Nearest integer, ties to even *)
Definition rneZ (x : Q) : Z :=
  let f := Qfloor x in
  match Qcompare (x - inject_Z f) (1 # 2) with
  | Lt => f
  | Gt => (f + 1)%Z
  | Eq => if Z.even f then f else (f + 1)%Z
  end.

Definition pow2 (e : Z) : Q := 2 ^ e.

(** [floor (log2 x)] for [0 < x] *)
Definition ilog2 (x : Q) : Z :=
  let l := (Z.log2 (Qnum x) - Z.log2 (Zpos (Qden x)))%Z in
  if Qle_bool (pow2 l) x then l else (l - 1)%Z.

(** Exponent of the last place of [x]: 53 significant bits, and the
    subnormal numbers are the multiples of [2 ^ -1074]. *)
Definition cexp (x : Q) : Z := Z.max (ilog2 (Qabs x) - 52) (-1074).

(** Rounding to binary64 with the exponent unbounded above *)
Definition rne64 (x : Q) : Q :=
  if Qeq_bool x 0 then 0
  else Qred (inject_Z (rneZ (x / pow2 (cexp x))) * pow2 (cexp x)).

(** [sys.float_info.max] *)
Definition max_float : Q := inject_Z ((2 ^ 53 - 1) * 2 ^ 971).

Definition Qneg (x : Q) : bool := negb (Qle_bool 0 x).

Definition round64 (x : Q) : float :=
  let r := rne64 x in
  if Qle_bool (Qabs r) max_float then Fin r else Inf (Qneg r).

(** A float literal of the source *)
Definition lit (q : Q) : float := round64 q.

Definition fmul (a b : float) : float :=
  match a, b with
  | Fin x, Fin y => round64 (x * y)
  | Fin x, Inf s | Inf s, Fin x => if Qeq_bool x 0 then NaN else Inf (xorb s (Qneg x))
  | Inf s, Inf t => Inf (xorb s t)
  | _, _ => NaN
  end.

Definition fadd (a b : float) : float :=
  match a, b with
  | Fin x, Fin y => round64 (x + y)
  | Fin _, Inf s | Inf s, Fin _ => Inf s
  | Inf s, Inf t => if eqb s t then Inf s else NaN
  | _, _ => NaN
  end.

(** [numpy.true_divide] on two floats (no exception on a zero divisor) *)
Definition fdiv (a b : float) : float :=
  match a, b with
  | Fin x, Fin y =>
      if Qeq_bool y 0 then (if Qeq_bool x 0 then NaN else Inf (Qneg x))
      else round64 (x / y)
  | Fin _, Inf _ => Fin 0
  | Inf s, Fin y => Inf (xorb s (Qneg y))
  | _, _ => NaN
  end.

(** [numpy.rint] *)
Definition rint (a : float) : float :=
  match a with
  | Fin x => Fin (inject_Z (rneZ x))
  | _ => a
  end.

(** [a < b] *)
Definition flt (a b : float) : bool :=
  match a, b with
  | Fin x, Fin y => negb (Qle_bool y x)
  | Fin _, Inf s => negb s
  | Inf s, Fin _ => s
  | Inf s, Inf t => s && negb t
  | _, _ => false
  end.

(** [a >= b] *)
Definition fge (a b : float) : bool :=
  match a, b with
  | NaN, _ | _, NaN => false
  | _, _ => negb (flt a b)
  end.

(** [min(a, b)] of the builtins: the first argument unless the second is
    smaller. *)
Definition fmin (a b : float) : float := if flt b a then b else a.

(** [numpy.clip(x, lo, hi)] is [minimum(maximum(x, lo), hi)], and a NaN goes
    through. *)
Definition np_clip (x lo hi : float) : float :=
  match x with
  | NaN => NaN
  | _ => let y := if flt x lo then lo else x in if flt hi y then hi else y
  end.

(** [numpy.round(x, decimals)] for [0 <= decimals]: scale, [rint], scale
    back. *)
Definition np_round (x : float) (decimals : nat) : float :=
  match decimals with
  | O => rint x
  | _ => let f := lit (inject_Z (10 ^ Z.of_nat decimals)) in fdiv (rint (fmul x f)) f
  end.

(** [a / b] for two [int]s: the quotient correctly rounded, or
    [OverflowError] when it is beyond the floats. *)
Definition truediv (a b : Z) : result float :=
  if (b =? 0)%Z then Raise ZeroDivisionError
  else
    let r := rne64 (inject_Z a / inject_Z b) in
    if Qle_bool (Qabs r) max_float then Ok (Fin r) else Raise OverflowError.

End Rounding.

(** *** The [re] module

    Patterns are held as syntax trees and matched by backtracking with the
    priorities of [re]: the alternatives of [|] from left to right, a greedy
    repetition as long as it can, a lazy one as short as it can. *)

Inductive regex :=
| Chr (p : N -> bool)                          (* one character in a class *)
| Eps
| Cat (r1 r2 : regex)
| Alt (r1 r2 : regex)
| Star (greedy : bool) (r : regex)
| Group (i : nat) (r : regex)
| At (a : option N -> list N -> bool)          (* zero-width assertion *)
| Ahead (r : regex).                           (* (?=r) *)

(** A position in the text: the character before it and the text from it. *)
Record cursor := { prev : option N; rest : list N }.

Definition captures := list (nat * list N).

(** The text between two positions of one string *)
Definition between (c c' : cursor) : list N :=
  take (length (rest c) - length (rest c')) (rest c).

Definition continuation := cursor -> captures -> option (cursor * captures).

(** The end of a pattern: the match is found. *)
Definition accept : continuation := fun c g => Some (c, g).

(** The loop of a repetition; [body] matches one more round.  A round has to
    consume something, so the length of the text bounds the rounds. *)
Fixpoint star_loop (body : continuation -> continuation) (greedy : bool) (k : continuation)
    (fuel : nat) (c : cursor) (g : captures) : option (cursor * captures) :=
  match fuel with
  | O => k c g
  | S fuel' =>
      let again c' g' :=
        if (length (rest c') <? length (rest c))%nat
        then star_loop body greedy k fuel' c' g' else None in
      if greedy then
        match body again c g with
        | Some m => Some m
        | None => k c g
        end
      else
        match k c g with
        | Some m => Some m
        | None => body again c g
        end
  end.

Fixpoint run (r : regex) (k : continuation) (c : cursor) (g : captures) {struct r}
    : option (cursor * captures) :=
  match r with
  | Chr p =>
      match rest c with
      | x :: t => if p x then k {| prev := Some x; rest := t |} g else None
      | [] => None
      end
  | Eps => k c g
  | Cat r1 r2 => run r1 (run r2 k) c g
  | Alt r1 r2 =>
      match run r1 k c g with
      | Some m => Some m
      | None => run r2 k c g
      end
  | Star greedy r1 => star_loop (run r1) greedy k (length (rest c)) c g
  | Group i r1 => run r1 (fun c' g' => k c' ((i, between c c') :: g')) c g
  | At a => if a (prev c) (rest c) then k c g else None
  | Ahead r1 =>
      match run r1 accept c g with
      | Some (_, g') => k c g'
      | None => None
      end
  end.

(** [r+], [r?], [r{n}], [r{n,}] and a literal string *)
Definition Plus (r : regex) : regex := Cat r (Star true r).
Definition Opt (r : regex) : regex := Alt r Eps.
Fixpoint Times (n : nat) (r : regex) : regex :=
  match n with
  | O => Eps
  | S n' => Cat r (Times n' r)
  end.
Definition AtLeast (n : nat) (r : regex) : regex := Cat (Times n r) (Star true r).
Fixpoint Lit (eq : N -> N -> bool) (s : list N) : regex :=
  match s with
  | [] => Eps
  | c :: t => Cat (Chr (eq c)) (Lit eq t)
  end.
Fixpoint Alts (rs : list regex) : regex :=
  match rs with
  | [] => At (fun _ _ => false)
  | [r] => r
  | r :: rs' => Alt r (Alts rs')
  end.
Fixpoint Cats (rs : list regex) : regex :=
  match rs with
  | [] => Eps
  | r :: rs' => Cat r (Cats rs')
  end.

(** [^], [$], [\b] and [\Z] *)
Definition Bol (multiline : bool) : regex :=
  At (fun p _ => match p with None => true | Some c => multiline && (c =? 10)%N end).
Definition Eol (multiline : bool) : regex :=
  At (fun _ r => match r with
                 | [] => true
                 | [c] => (c =? 10)%N
                 | c :: _ => multiline && (c =? 10)%N
                 end).
Definition WordB `{Interpreter} : regex :=
  At (fun p r => xorb (from_option isword false p) (from_option isword false (head r))).
Definition EndZ : regex := At (fun _ r => match r with [] => true | _ => false end).

(** A match object: [group(0)] and the numbered groups. *)
Record rmatch := { group0 : list N; groups : captures }.

(** [m.group(i)] for [1 <= i]; every group the source asks for takes part in
    every match of its pattern. *)
Definition group (m : rmatch) (i : nat) : list N :=
  from_option snd [] (find (fun e => (fst e =? i)%nat) (groups m)).

Definition match_at (r : regex) (c : cursor) : option (cursor * rmatch) :=
  match run r accept c [] with
  | Some (c', g) => Some (c', {| group0 := between c c'; groups := g |})
  | None => None
  end.

(** The text cut into the successive leftmost matches and the characters
    between them.  No pattern that the source scans a text with matches the
    empty string; after an empty match the scan moves on by one character. *)
Inductive piece :=
| Text (c : N)
| Hit (m : rmatch).

Fixpoint scan (fuel : nat) (r : regex) (c : cursor) : list piece :=
  match fuel with
  | O => []
  | S fuel' =>
      match match_at r c with
      | Some (c', {| group0 := x :: t; groups := g |}) =>
          Hit {| group0 := x :: t; groups := g |} :: scan fuel' r c'
      | found =>
          from_option (fun cm => [Hit (snd cm)]) [] found
          ++ match rest c with
             | x :: t => Text x :: scan fuel' r {| prev := Some x; rest := t |}
             | [] => []
             end
      end
  end.

Definition pieces (r : regex) (s : list N) : list piece :=
  scan (S (length s)) r {| prev := None; rest := s |}.

(** [re.finditer(r, s)] *)
Definition finditer (r : regex) (s : list N) : list rmatch :=
  omap (fun p => match p with Hit m => Some m | Text _ => None end) (pieces r s).

(** [re.search(r, s)] *)
Definition search (r : regex) (s : list N) : option rmatch := head (finditer r s).

(** [re.match(r, s)] *)
Definition rematch (r : regex) (s : list N) : option rmatch :=
  snd <$> match_at r {| prev := None; rest := s |}.

(** [re.findall(r, s)] for a pattern without groups *)
Definition findall (r : regex) (s : list N) : list (list N) := group0 <$> finditer r s.

(** [re.sub(r, repl, s)] for a replacement without group references *)
Definition sub (r : regex) (repl s : list N) : list N :=
  mjoin ((fun p => match p with Text c => [c] | Hit _ => repl end) <$> pieces r s).

Fixpoint split_at_hits (ps : list piece) (current : list N) : list (list N) :=
  match ps with
  | [] => [current]
  | Text c :: ps' => split_at_hits ps' (current ++ [c])
  | Hit _ :: ps' => current :: split_at_hits ps' []
  end.

(** [re.split(r, s)] for a pattern without groups *)
Definition resplit (r : regex) (s : list N) : list (list N) := split_at_hits (pieces r s) [].

(** Character classes *)
Definition one (c : ascii) : regex := Chr (N.eqb (chr c)).
Definition space : regex := Chr isspace.
Definition nonspace : regex := Chr (fun c => negb (isspace c)).
Definition digit `{Interpreter} : regex := Chr isdigit.
Definition word `{Interpreter} : regex := Chr isword.
Definition oneof (cs : list N) : regex := Chr (fun c => existsb (N.eqb c) cs).
Definition range (lo hi : ascii) : regex := Chr (fun c => (chr lo <=? c)%N && (c <=? chr hi)%N).
(** [.] without [re.DOTALL] *)
Definition dot : regex := Chr (fun c => negb (c =? 10)%N).
(** A literal under [re.IGNORECASE] *)
Definition ILit `{Interpreter} (s : string) : regex := Lit ieq (py s).
Definition ELit (s : string) : regex := Lit N.eqb (py s).

(** *** External capabilities

    The spaCy pipeline, the rapidfuzz scorer, pandas and pdfplumber are not
    part of the repository; the model takes what the code uses of them as
    interfaces. *)

(** A noun chunk: [chunk.text] and [token.is_stop] for each of its tokens. *)
Record chunk := { chunk_text : list N; token_is_stop : list bool }.

(** [spacy.load("en_core_web_lg")] *)
Class LanguageModel := {
  Doc : Type;
  (** [self.nlp(text)]; spaCy raises on a text longer than [nlp.max_length] *)
  nlp : list N -> result Doc;
  (** [(ent.text, ent.label_)] for [ent] in [doc.ents] *)
  ents : Doc -> list (list N * string);
  noun_chunks : Doc -> list chunk;
  vector_norm : Doc -> float;
  (** [cosine_similarity(doc1.vector.reshape(1, -1), doc2.vector.reshape(1, -1))[0][0]] *)
  cosine_similarity : Doc -> Doc -> float
}.

(** [rapidfuzz.fuzz.token_sort_ratio], a score from 0 to 100 *)
Class FuzzyMatcher := { token_sort_ratio : list N -> list N -> Q }.

(** [rapidfuzz.process.extractOne(query, choices, scorer, score_cutoff)[0]]:
    the first of the choices with the best score, when that score reaches the
    cutoff. *)
Definition extractOne `{FuzzyMatcher} (query : list N) (choices : list (list N))
    (score_cutoff : Q) : option (list N) :=
  fst <$> fold_left
    (fun best choice =>
       let score := token_sort_ratio query choice in
       if Qle_bool score_cutoff score
          && match best with
             | Some (_, top) => negb (Qle_bool score top)
             | None => true
             end
       then Some (choice, score) else best)
    choices None.

(** The frame that [pandas.read_csv] returns: rows of cells, a cell being
    missing (NaN) or a value, held by the string [astype(str)] gives for it. *)
Abbreviation DataFrame := (list (list (option (list N)))).

(** A value of the job data: a string, or any other object, held by its
    [str()] form. *)
Inductive pyobj :=
| PyStr (s : list N)
| PyOther (repr : list N).

(** [f"{x}"] *)
Definition format (x : pyobj) : list N :=
  match x with
  | PyStr s => s
  | PyOther repr => repr
  end.

(** [Series.unique()]: the values in order of first appearance *)
Definition unique (l : list (list N)) : list (list N) :=
  fold_left (fun seen x => if str_in x seen then seen else seen ++ [x]) l [].

(** [set(l)] and the list of it, in the order the set happens to have *)
Definition set_of (l : list (list N)) : gset (list N) := list_to_set l.

(** *** The class [ResumeAnalyzer] *)

Record ResumeAnalyzer := {
  known_skills : list (list N);
  current_year : Z;
  skill_blacklist : list (list N)
}.

Inductive experience :=
| duration (value : Z)              (* {'type': 'duration', 'value': value} *)
| range_years (years : Z).          (* {'type': 'range', 'years': years} *)

Record PersonalInfo := {
  name : list N;
  email : list N;
  phone : list N;
  links : list (list N)
}.

Record CvData := {
  personal_info : PersonalInfo;
  cv_skills : list (list N);
  cv_experience : list (list N);
  cv_education : list (list N);
  cv_links : list (list N)
}.

Record ScoreBreakdown := {
  semantic_similarity : float;
  skill_coverage : float;
  breakdown_experience_match : float;
  breakdown_education_match : float
}.

Record AnalysisResult := {
  compatibility_score : float;
  missing_skills : list (list N);
  experience_match : bool;
  education_match : bool;
  cv_data : PersonalInfo;
  score_breakdown : ScoreBreakdown
}.

(** The key [(-len(x), x)] of the two sorts, as a comparison *)
Definition by_length_then_text (x y : list N) : bool :=
  (length y <? length x)%nat || (length x =? length y)%nat && str_leb x y.

Section Methods.
Context `{Interpreter} `{LanguageModel} `{FuzzyMatcher}.

(** [_load_skills]; [frame] is what [pd.read_csv(csv_path)] does. *)
Definition _load_skills (frame : result DataFrame) : result (list (list N)) :=
  match frame with
  | Ok df =>
      let skills := unique (lower <$> omap id (mjoin df)) in
      Ok (sorted by_length_then_text skills)
  | Raise _ => Raise RuntimeError
  end.

(** [__init__]; [spacy_load] is what [spacy.load] does, [skills_csv] is
    [None] for a missing or empty path, [year] is
    [datetime.datetime.now().year]. *)
Definition __init__ (spacy_load : result unit) (skills_csv : option (result DataFrame))
    (year : Z) : result ResumeAnalyzer :=
  match spacy_load with
  | Raise OSError => Raise RuntimeError
  | Raise e => Raise e
  | Ok _ =>
      skills ← match skills_csv with
               | Some frame => _load_skills frame
               | None => Ok []
               end;
      Ok {| known_skills := skills;
            current_year := year;
            skill_blacklist := py <$> ["http"; "github"; "contribution"; "january";
                                       "february"; "company"; "owner"]%string |}
  end.

Variable self : ResumeAnalyzer.

Definition newline : N := 10.

(** The glyphs of the class that [_clean_text] replaces; the last one is the
    character U+F0D8 of the private use area. *)
Definition bullet : N := 8226.
Definition black_circle : N := 9679.
Definition en_dash : N := 8211.
Definition em_dash : N := 8212.
Definition private_use_glyph : N := 61656.

Definition _clean_text (text : list N) : list N :=
  let text := sub (Plus space) (py " ") text in
  let text := sub (oneof [bullet; black_circle; en_dash; em_dash; private_use_glyph])
                  (py "-") text in
  strip text.

(** [extract_text]; [pdf] is what [pdfplumber.open] and [page.extract_text()]
    give, page by page. *)
Definition extract_text (pdf : result (list (option (list N)))) : result (list N) :=
  match pdf with
  | Ok pages => Ok (_clean_text (join [newline] (default [] <$> pages)))
  | Raise _ => Raise RuntimeError
  end.

Definition _extract_links (text : list N) : list (list N) :=
  (* https?://[^\s/$.?#].[^\s]* *)
  elements (set_of (findall
    (Cats [ELit "http"; Opt (one "s"); ELit "://";
           Chr (fun c => negb (isspace c || existsb (N.eqb c) (py "/$.?#")));
           dot; Star true nonspace]) text)).

Definition _extract_personal_info (text : list N) : result PersonalInfo :=
  doc ← nlp text;
  let name := default [] (head (omap (fun e => if String.eqb (snd e) "PERSON"
                                               then Some (fst e) else None) (ents doc))) in
  (* \b[\w\.-]+@[\w\.-]+\.\w{2,}\b *)
  let local := Chr (fun c => isword c || (c =? chr ".")%N || (c =? chr "-")%N) in
  let email := search (Cats [WordB; Plus local; one "@"; Plus local; one ".";
                             AtLeast 2 word; WordB]) text in
  (* \b\+?[\d\s()-]{10,}\d\b *)
  let phone := search (Cats [WordB; Opt (one "+");
                             AtLeast 10 (Chr (fun c => isdigit c || isspace c
                                                       || existsb (N.eqb c) (py "()-")));
                             digit; WordB]) text in
  Ok {| name := name;
        email := from_option group0 [] email;
        phone := from_option (fun m => sub (Chr (fun c => negb (isdigit c))) [] (group0 m))
                   [] phone;
        links := _extract_links text |}.

Definition _match_known_skill (skill : list N) : option (list N) :=
  match known_skills self with
  | [] => Some skill
  | _ => extractOne skill (known_skills self) 85
  end.

Definition _process_skill_line (line : list N) : list (list N) :=
  (* \s{2,}|- |/|• *)
  omap (fun skill =>
          let skill := strip skill in
          if (3 <=? length skill)%nat && (length skill <=? 40)%nat then
            match _match_known_skill skill with
            | Some (c :: m) => Some (c :: m)
            | _ => None
            end
          else None)
       (resplit (Alts [AtLeast 2 space; ELit "- "; one "/"; Chr (N.eqb bullet)]) line).

Definition _is_valid_skill (skill : list N) : bool :=
  bool_decide (is_Some (search (range "a" "z") skill))
  && negb (existsb (fun blacklisted => contains blacklisted (lower skill)) (skill_blacklist self))
  (* @|\.com|\d|year|month|http *)
  && negb (bool_decide (is_Some (search
       (Alts [one "@"; ELit ".com"; digit; ELit "year"; ELit "month"; ELit "http"]) skill))).

(** The loop of [_extract_section] over the lines of the text *)
Fixpoint section_loop (section_pattern : regex) (lines_in : list (list N)) (capture : bool)
    (lines : list (list N)) : list (list N) :=
  match lines_in with
  | [] => lines
  | line :: lines_in' =>
      if bool_decide (is_Some (rematch section_pattern (strip line))) then
        section_loop section_pattern lines_in' true lines
      else if capture then
        (* ^\s*$  and  ^\s*[A-Z][A-Z ]+: *)
        if bool_decide (is_Some (rematch (Cats [Bol false; Star true space; Eol false]) line))
           || bool_decide (is_Some (rematch
                (Cats [Bol false; Star true space; range "A" "Z";
                       Plus (Chr (fun c => (chr "A" <=? c)%N && (c <=? chr "Z")%N
                                           || (c =? chr " ")%N));
                       one ":"]) line))
        then lines
        else section_loop section_pattern lines_in' capture (lines ++ [strip line])
      else section_loop section_pattern lines_in' capture lines
  end.

(** [section_name] is the pattern that the f-string puts inside the group of
    [^\s*({section_name})\s*:*\s*$], compiled with [re.IGNORECASE] and
    [re.MULTILINE]. *)
Definition _extract_section (text : list N) (section_name : regex) : list N :=
  let section_pattern :=
    Cats [Bol true; Star true space; Group 1 section_name; Star true space;
          Star true (one ":"); Star true space; Eol true] in
  let lines := section_loop section_pattern (split newline text) false [] in
  join (py " ") lines.

Definition _extract_noun_phrases (text : list N) : result (list (list N)) :=
  doc ← nlp text;
  Ok (omap (fun chunk =>
              if (3 <? length (chunk_text chunk))%nat && (length (chunk_text chunk) <? 50)%nat
                 && negb (existsb id (token_is_stop chunk))
                 && negb (isnumeric (chunk_text chunk))
              then Some (strip (lower (chunk_text chunk))) else None)
           (noun_chunks doc)).

Definition _extract_skills (text : list N) : result (list (list N)) :=
  (* skills|technical skills|competencies *)
  let section_text :=
    _extract_section text
      (Alts [ILit "skills"; ILit "technical skills"; ILit "competencies"]) in
  let skills :=
    mjoin ((fun line =>
              (* [\d\.%]|years?|http[s]?://\S+ *)
              let line := strip (sub
                (Alts [Chr (fun c => isdigit c || (c =? chr ".")%N || (c =? chr "%")%N);
                       Cat (ILit "year") (Opt (ILit "s"));
                       Cats [ILit "http"; Opt (ILit "s"); ELit "://"; Plus nonspace]])
                [] line) in
              if (3 <=? length line)%nat && (length line <=? 40)%nat
              then _process_skill_line line else [])
           <$> resplit (Alts [Chr (N.eqb newline); one ","; one ";"]) section_text) in
  match skills with
  | [] => _extract_noun_phrases text
  | _ =>
      Ok (sorted by_length_then_text
            (elements (set_of ((fun skill => strip (lower skill))
                               <$> filter (fun skill => _is_valid_skill skill = true) skills))))
  end.

(** [(\d+)\+?\s*years?] under [re.I] *)
Definition duration_mention : regex :=
  Cats [Group 1 (Plus digit); Opt (one "+"); Star true space; ILit "year"; Opt (ILit "s")].

(** [(\d{4})\s*[-—]\s*(\d{4}|present)] under [re.I] *)
Definition range_mention : regex :=
  Cats [Group 1 (Times 4 digit); Star true space;
        Chr (fun c => (c =? chr "-")%N || (c =? em_dash)%N); Star true space;
        Group 2 (Alt (Times 4 digit) (ILit "present"))].

Definition _extract_experience (text : list N) : result (list experience) :=
  durations ← mapM (fun m => value ← int (group m 1); Ok (duration value))
                   (finditer duration_mention text);
  ranges ← mapM (fun m =>
                   start ← int (group m 1);
                   end_ ← (if str_eqb (lower (group m 2)) (py "present")
                           then Ok (current_year self) else int (group m 2));
                   Ok (range_years (end_ - start)%Z))
                (finditer range_mention text);
  Ok (durations ++ ranges).

Definition _format_experience (experiences : list experience) : result (list (list N)) :=
  formatted ← mapM (fun exp =>
                      match exp with
                      | duration value =>
                          v ← str_of_int value; Ok (v ++ py "+ years experience")
                      | range_years years =>
                          y ← str_of_int years; Ok (y ++ py " years experience")
                      end) experiences;
  let total_years :=
    foldr Z.add 0%Z ((fun exp => match exp with
                                 | duration value => value
                                 | range_years years => years
                                 end) <$> experiences) in
  if (0 <? total_years)%Z then
    t ← str_of_int total_years; Ok ((py "Total: " ++ t ++ py " years") :: formatted)
  else Ok formatted.

Definition _calculate_compatibility_score (similarity skills exp edu : float) : float :=
  let weighted := fadd (fadd (fadd (fmul (lit 0.4) similarity) (fmul (lit 0.4) skills))
                         (fmul (lit 0.15) exp)) (fmul (lit 0.05) edu) in
  np_round (fmul weighted (lit 100)) 2.

Definition _format_score_breakdown (similarity skills exp edu : float) : ScoreBreakdown :=
  {| semantic_similarity := np_round (fmul similarity (lit 100)) 2;
     skill_coverage := np_round (fmul skills (lit 100)) 2;
     breakdown_experience_match := np_round (fmul exp (lit 100)) 2;
     breakdown_education_match := np_round (fmul edu (lit 100)) 2 |}.

(** [not x] for a float *)
Definition is_zero (x : float) : bool :=
  match x with
  | Fin q => Qeq_bool q 0
  | _ => false
  end.

Definition _calculate_semantic_similarity (text1 text2 : list N) : result float :=
  doc1 ← nlp text1;
  doc2 ← nlp text2;
  if is_zero (vector_norm doc1) || is_zero (vector_norm doc2) then Ok (lit 0)
  else Ok (np_clip (cosine_similarity doc1 doc2) (lit 0) (lit 1)).

Definition _calculate_skill_score (cv_skills required_skills : list (list N)) : result float :=
  match required_skills with
  | [] => Ok (lit 1)
  | _ =>
      let matched :=
        foldr Z.add 0%Z ((fun _ => 1%Z)
          <$> filter (fun skill => str_in (lower skill) cv_skills = true) required_skills) in
      truediv matched (Z.of_nat (length required_skills))
  end.

Definition _calculate_experience_score (text : list N) (position : pyobj) : result float :=
  experiences ← _extract_experience text;
  let total :=
    foldr Z.add 0%Z ((fun exp => match exp with
                                 | duration value => value
                                 | range_years years => years
                                 end) <$> experiences) in
  position ← match position with
             | PyStr s => Ok (lower s)
             | PyOther _ => Raise AttributeError
             end;
  let required :=
    if contains (py "senior") position then 5%Z
    else if contains (py "junior") position then 2%Z else 3%Z in
  if (0 <? required)%Z then q ← truediv total required; Ok (fmin q (lit 1))
  else Ok (lit 0).

Definition _extract_education (text : list N) : list (list N) :=
  (* \b(B\.?S\.?|B\.?A\.?|M\.?S\.?|M\.?A\.?|PhD)\b *)
  let abbreviation a b :=
    Cats [ILit a; Opt (one "."); ILit b; Opt (one ".")] in
  let degree_pattern :=
    Cats [WordB;
          Group 2 (Alts [abbreviation "B" "S"; abbreviation "B" "A"; abbreviation "M" "S";
                         abbreviation "M" "A"; ILit "PhD"]);
          WordB] in
  (* ({degree_pattern}.*?)(?=\n\w+|\Z) *)
  omap (fun m =>
          let edu := strip (group0 m) in
          if (5 <? length edu)%nat
             && negb (bool_decide (is_Some (search (Alt (ELit "http") (one "@")) edu)))
          then Some edu else None)
       (finditer (Cat (Group 1 (Cat degree_pattern (Star false dot)))
                      (Ahead (Alt (Cat (Chr (N.eqb newline)) (Plus word)) EndZ))) text).

(** The three detectors of [_calculate_education_score] *)
Definition mentions_bachelor (resume_text : list N) : bool :=
  (* \b(b\.?s|bachelor)\b *)
  bool_decide (is_Some (search
    (Cats [WordB; Group 1 (Alt (Cats [ILit "b"; Opt (one "."); ILit "s"]) (ILit "bachelor"));
           WordB]) resume_text)).

Definition mentions_master (resume_text : list N) : bool :=
  (* \b(m\.?s|master)\b *)
  bool_decide (is_Some (search
    (Cats [WordB; Group 1 (Alt (Cats [ILit "m"; Opt (one "."); ILit "s"]) (ILit "master"));
           WordB]) resume_text)).

Definition mentions_phd (resume_text : list N) : bool :=
  (* \b(phd|doctorate)\b *)
  bool_decide (is_Some (search
    (Cats [WordB; Group 1 (Alt (ILit "phd") (ILit "doctorate")); WordB]) resume_text)).

Definition _calculate_education_score (resume_text job_desc : list N) : result float :=
  let required_degrees : gset (option string) :=
    {[ Some "bachelor"; Some "master"; Some "phd" ]}%string in
  let candidate_degrees : gset (option string) :=
    {[ if mentions_bachelor resume_text then Some "bachelor" else None;
       if mentions_master resume_text then Some "master" else None;
       if mentions_phd resume_text then Some "phd" else None ]}%string in
  let candidate_degrees := candidate_degrees ∖ {[ None ]} in
  if bool_decide (required_degrees = ∅) then Ok (lit 1)
  else truediv (Z.of_nat (size (candidate_degrees ∩ required_degrees)))
               (Z.of_nat (size required_degrees)).

Definition _find_missing_skills (cv_skills required_skills : list (list N)) : list (list N) :=
  sorted str_leb
    (elements (set_of (lower <$> filter (fun skill => negb (str_in (lower skill) cv_skills)
                                                      && (3 <? length skill)%nat = true)
                                        required_skills))).

Definition analyze (resume_text : list N) (job_data : gmap string pyobj)
    : result AnalysisResult :=
  let resume_text := _clean_text resume_text in
  info ← _extract_personal_info resume_text;
  skills ← _extract_skills resume_text;
  experiences ← _extract_experience resume_text;
  experience_lines ← _format_experience experiences;
  let cv := {| personal_info := info;
               cv_skills := skills;
               cv_experience := experience_lines;
               cv_education := _extract_education resume_text;
               cv_links := _extract_links resume_text |} in
  let job_desc :=
    _clean_text (format (default (PyStr []) (job_data !! "description"%string)) ++ py " "
                 ++ format (default (PyStr []) (job_data !! "requirements"%string))) in
  required_skills ← _extract_skills job_desc;
  similarity_score ← _calculate_semantic_similarity resume_text job_desc;
  skill_score ← _calculate_skill_score (cv_skills cv) required_skills;
  experience_score ← _calculate_experience_score resume_text
                       (default (PyStr []) (job_data !! "position"%string));
  education_score ← _calculate_education_score resume_text job_desc;
  let compatibility := _calculate_compatibility_score similarity_score skill_score
                         experience_score education_score in
  Ok {| compatibility_score := compatibility;
        missing_skills := _find_missing_skills (cv_skills cv) required_skills;
        experience_match := fge experience_score (lit 0.8);
        education_match := fge education_score (lit 0.8);
        cv_data := personal_info cv;
        score_breakdown := _format_score_breakdown similarity_score skill_score
                             experience_score education_score |}.

End Methods.

(** *** Calls on an analyzer

    After [__init__] no method of the class assigns to an attribute of
    [self], and none changes the list [known_skills] in place: a call gives
    back the object it was given, with what the method returns. *)
Inductive call :=
| call_analyze (resume_text : list N) (job_data : gmap string pyobj)
| call_extract_text (pdf : result (list (option (list N))))
| call_extract_personal_info (text : list N)
| call_extract_skills (text : list N)
| call_process_skill_line (line : list N)
| call_is_valid_skill (skill : list N)
| call_match_known_skill (skill : list N)
| call_extract_section (text : list N) (section_name : regex)
| call_extract_noun_phrases (text : list N)
| call_extract_experience (text : list N)
| call_format_experience (experiences : list experience)
| call_extract_education (text : list N)
| call_extract_links (text : list N).

Definition returned (c : call) : Type :=
  match c with
  | call_analyze _ _ => result AnalysisResult
  | call_extract_text _ => result (list N)
  | call_extract_personal_info _ => result PersonalInfo
  | call_extract_skills _ => result (list (list N))
  | call_process_skill_line _ => list (list N)
  | call_is_valid_skill _ => bool
  | call_match_known_skill _ => option (list N)
  | call_extract_section _ _ => list N
  | call_extract_noun_phrases _ => result (list (list N))
  | call_extract_experience _ => result (list experience)
  | call_format_experience _ => result (list (list N))
  | call_extract_education _ => list (list N)
  | call_extract_links _ => list (list N)
  end.

Section Calls.
Context `{Interpreter} `{LanguageModel} `{FuzzyMatcher}.

Definition perform (self : ResumeAnalyzer) (c : call) : ResumeAnalyzer * returned c :=
  (self,
   match c return returned c with
   | call_analyze resume_text job_data => analyze self resume_text job_data
   | call_extract_text pdf => extract_text pdf
   | call_extract_personal_info text => _extract_personal_info text
   | call_extract_skills text => _extract_skills self text
   | call_process_skill_line line => _process_skill_line self line
   | call_is_valid_skill skill => _is_valid_skill self skill
   | call_match_known_skill skill => _match_known_skill self skill
   | call_extract_section text section_name => _extract_section text section_name
   | call_extract_noun_phrases text => _extract_noun_phrases text
   | call_extract_experience text => _extract_experience self text
   | call_format_experience experiences => _format_experience experiences
   | call_extract_education text => _extract_education text
   | call_extract_links text => _extract_links text
   end).

Fixpoint perform_all (self : ResumeAnalyzer) (calls : list call) : ResumeAnalyzer :=
  match calls with
  | [] => self
  | c :: calls' => perform_all (fst (perform self c)) calls'
  end.

End Calls.

(** The order of the vocabulary: longer first, and among strings of one
    length the lexicographic order. *)
Definition vocabulary_order (x y : list N) : Prop :=
  (length y < length x)%nat \/ (length x = length y /\ str_leb x y = true).

Definition sample_frame : DataFrame :=
  [[Some (py "Python"); Some (py "SQL")]; [Some (py "Machine Learning"); None];
   [Some (py "python"); Some (py "Go")]].

(** A pipeline that finds nothing, a scorer that matches nothing and an
    analyzer without vocabulary, to run the model on concrete texts. *)
Definition blank_model : LanguageModel :=
  {| Doc := unit; nlp := fun _ => Ok tt; ents := fun _ => []; noun_chunks := fun _ => [];
     vector_norm := fun _ => Fin 0; cosine_similarity := fun _ _ => Fin 0 |}.

Definition blank_matcher : FuzzyMatcher := {| token_sort_ratio := fun _ _ => 0%Q |}.

Definition analyzer_of_year (year : Z) : ResumeAnalyzer :=
  {| known_skills := []; current_year := year;
     skill_blacklist := py <$> ["http"; "github"; "contribution"; "january";
                                "february"; "company"; "owner"]%string |}.

(** Inputs of the examples *)
Definition long_duration : list N := py "1" ++ repeat 48%N 400 ++ py " years".
Definition long_s_range : list N := py "2018-pre" ++ [383%N] ++ py "ent".
Definition job_desc_of (job_data : gmap string pyobj) : list N :=
  _clean_text (format (default (PyStr []) (job_data !! "description"%string)) ++ py " "
               ++ format (default (PyStr []) (job_data !! "requirements"%string))).
Definition sample_resume : list N := py "John Doe john@example.com 2018-2022 Python Django".
Definition sample_job : gmap string pyobj :=
  <[ "position"%string := PyStr (py "Senior Engineer") ]>
    (<[ "description"%string := PyStr (py "Python Django required") ]> ∅).
Definition degrees_resume : list N := py "Jane Roe, B.S. 2010, MS 2012, PhD 2016".
Definition skills_resume : list N :=
  py "Summary" ++ [newline] ++ py "Skills:" ++ [newline]
  ++ py "Python, Django / REST; 5 years SQL" ++ [newline]
  ++ py "GitHub Actions, machine learning" ++ [newline] ++ [newline] ++ py "EDUCATION: B.S.".
Definition untidy_text : list N :=
  py "  a" ++ [9%N; 9%N] ++ py "b " ++ [newline; bullet] ++ py " c " ++ [em_dash] ++ py " d  ".

(** *** Definitions for Part II

    What the statements of Part II compare the methods with: the text
    operations on the characters, the formulas in the words of the
    specification. *)

(** The result of [re.sub(r'\s+', ' ', s)], computed on the characters. *)
Fixpoint collapse (fuel : nat) (s : list N) : list N :=
  match fuel with
  | O => []
  | S fuel' =>
      match s with
      | [] => []
      | x :: t => if isspace x then 32%N :: collapse fuel' (lstrip t) else x :: collapse fuel' t
      end
  end.

(** Every blank of [s] is the space character and no two blanks are
    adjacent. *)
Fixpoint spaced (s : list N) : bool :=
  match s with
  | [] => true
  | x :: t =>
      (negb (isspace x) || (x =? 32)%N && negb (from_option isspace false (head t)))
      && spaced t
  end.

(** The five glyphs that [_clean_text] turns into a hyphen *)
Definition glyph (c : N) : bool :=
  existsb (N.eqb c) [bullet; black_circle; en_dash; em_dash; private_use_glyph].

Definition dash (c : N) : N := if glyph c then 45%N else c.

Definition trimmed (s : list N) : Prop :=
  from_option isspace false (head s) = false /\ from_option isspace false (last s) = false.

Definition replaced (repl : list N) (ps : list piece) : list N :=
  mjoin ((fun p => match p with Text c => [c] | Hit _ => repl end) <$> ps).

(** The formula of the specification: round(100 x (0.4 similarity + 0.4
    skill_coverage + 0.15 experience + 0.05 education), 2 decimal places). *)
Definition weighting_formula (similarity skill_coverage experience education : float) : float :=
  np_round (fmul (lit 100)
              (fadd (fadd (fadd (fmul (lit 0.4) similarity) (fmul (lit 0.4) skill_coverage))
                      (fmul (lit 0.15) experience)) (fmul (lit 0.05) education))) 2.

Section Readings.
Context `{Interpreter}.

(** The required skills whose lower-cased form is among the candidate's. *)
Definition covered (cv_skills required_skills : list (list N)) : list (list N) :=
  filter (fun skill => lower skill ∈ cv_skills) required_skills.

Variable self : ResumeAnalyzer.

(** The specification's reading of the experience score: the years of all
    duration mentions plus the spans of all range mentions, over the years
    the title asks for, capped at 1. *)
Definition duration_value (m : rmatch) : result Z := int (group m 1).

Definition range_span (m : rmatch) : result Z :=
  start ← int (group m 1);
  end_ ← (if str_eqb (lower (group m 2)) (py "present")
          then Ok (current_year self) else int (group m 2));
  Ok (end_ - start)%Z.

Definition total_years (text : list N) : result Z :=
  values ← mapM duration_value (finditer duration_mention text);
  spans ← mapM range_span (finditer range_mention text);
  Ok (foldr Z.add 0 values + foldr Z.add 0 spans)%Z.

Definition required_years (title : list N) : Z :=
  if contains (py "senior") (lower title) then 5
  else if contains (py "junior") (lower title) then 2 else 3.

Definition experience_score_formula (text title : list N) : result float :=
  total ← total_years text;
  quotient ← truediv total (required_years title);
  Ok (fmin quotient (lit 1)).

Definition years_of (e : experience) : Z :=
  match e with
  | duration value => value
  | range_years years => years
  end.

End Readings.

(** *** What a pattern can match

    [derives r c c']: from the position [c] the pattern [r] can be matched up
    to the position [c'], by some choice among its alternatives and some
    number of rounds of its repetitions.  [run] looks for such a match in the
    order of the priorities of [re]. *)
Inductive derives : regex -> cursor -> cursor -> Prop :=
| derives_Chr (p : N -> bool) (q : option N) (x : N) (t : list N) :
    p x = true -> derives (Chr p) {| prev := q; rest := x :: t |} {| prev := Some x; rest := t |}
| derives_Eps (c : cursor) : derives Eps c c
| derives_Cat (r1 r2 : regex) (c c1 c2 : cursor) :
    derives r1 c c1 -> derives r2 c1 c2 -> derives (Cat r1 r2) c c2
| derives_Alt_l (r1 r2 : regex) (c c' : cursor) : derives r1 c c' -> derives (Alt r1 r2) c c'
| derives_Alt_r (r1 r2 : regex) (c c' : cursor) : derives r2 c c' -> derives (Alt r1 r2) c c'
| derives_Star_stop (greedy : bool) (r : regex) (c : cursor) : derives (Star greedy r) c c
| derives_Star_round (greedy : bool) (r : regex) (c c1 c2 : cursor) :
    derives r c c1 -> derives (Star greedy r) c1 c2 -> derives (Star greedy r) c c2
| derives_Group (i : nat) (r : regex) (c c' : cursor) : derives r c c' -> derives (Group i r) c c'
| derives_At (a : option N -> list N -> bool) (c : cursor) :
    a (prev c) (rest c) = true -> derives (At a) c c
| derives_Ahead (r : regex) (c c1 : cursor) : derives r c c1 -> derives (Ahead r) c c.

(** The position of a text between [pre] and [post]. *)
Definition position (pre post : list N) : cursor := {| prev := last pre; rest := post |}.

(** The matches among the pieces of a scan *)
Definition hits (ps : list piece) : list rmatch :=
  omap (fun p => match p with Hit m => Some m | Text _ => None end) ps.

(** [w] is a part of [s]: [w in s] for two strings. *)
Definition substring (w s : list N) : Prop := exists pre post, s = pre ++ w ++ post.

Definition nonblank (c : N) : bool := negb (isspace c).

(** The years that make the experience match, by the title of the position *)
Definition years_to_match `{Interpreter} (title : list N) : Z :=
  if contains (py "senior") (lower title) then 4
  else if contains (py "junior") (lower title) then 2 else 3.

(** The texts a pattern matches, the assertions left aside: a match of the
    pattern covers one of them. *)
Fixpoint lang (r : regex) (w : list N) : Prop :=
  match r with
  | Chr p => exists x, w = [x] /\ p x = true
  | Eps => w = []
  | Cat r1 r2 => exists w1 w2, w = w1 ++ w2 /\ lang r1 w1 /\ lang r2 w2
  | Alt r1 r2 => lang r1 w \/ lang r2 w
  | Star _ r1 => exists ws, w = mjoin ws /\ Forall (lang r1) ws
  | Group _ r1 => lang r1 w
  | At _ => w = []
  | Ahead _ => w = []
  end.

(** The text that a piece of a scan covers *)
Definition text_of (p : piece) : list N :=
  match p with
  | Text c => [c]
  | Hit m => group0 m
  end.

(** A line that [_extract_section] takes for the heading of the section *)
Definition is_heading (section_name : regex) (line : list N) : bool :=
  bool_decide (is_Some (rematch
    (Cats [Bol true; Star true space; Group 1 section_name; Star true space;
           Star true (one ":"); Star true space; Eol true]) (strip line))).

(** [derives] with the groups: from the position [c] and the groups [g] the
    pattern can be matched up to [c'], the groups then being [g']. *)
Inductive captures_of : regex -> cursor -> captures -> cursor -> captures -> Prop :=
| captures_Chr (p : N -> bool) (q : option N) (x : N) (t : list N) (g : captures) :
    p x = true ->
    captures_of (Chr p) {| prev := q; rest := x :: t |} g {| prev := Some x; rest := t |} g
| captures_Eps (c : cursor) (g : captures) : captures_of Eps c g c g
| captures_Cat (r1 r2 : regex) (c c1 c2 : cursor) (g g1 g2 : captures) :
    captures_of r1 c g c1 g1 -> captures_of r2 c1 g1 c2 g2 -> captures_of (Cat r1 r2) c g c2 g2
| captures_Alt_l (r1 r2 : regex) (c c' : cursor) (g g' : captures) :
    captures_of r1 c g c' g' -> captures_of (Alt r1 r2) c g c' g'
| captures_Alt_r (r1 r2 : regex) (c c' : cursor) (g g' : captures) :
    captures_of r2 c g c' g' -> captures_of (Alt r1 r2) c g c' g'
| captures_Star_stop (greedy : bool) (r : regex) (c : cursor) (g : captures) :
    captures_of (Star greedy r) c g c g
| captures_Star_round (greedy : bool) (r : regex) (c c1 c2 : cursor) (g g1 g2 : captures) :
    captures_of r c g c1 g1 -> captures_of (Star greedy r) c1 g1 c2 g2 ->
    captures_of (Star greedy r) c g c2 g2
| captures_Group (i : nat) (r : regex) (c c' : cursor) (g g' : captures) :
    captures_of r c g c' g' -> captures_of (Group i r) c g c' ((i, between c c') :: g')
| captures_At (a : option N -> list N -> bool) (c : cursor) (g : captures) :
    a (prev c) (rest c) = true -> captures_of (At a) c g c g
| captures_Ahead (r : regex) (c c1 : cursor) (g g1 : captures) :
    captures_of r c g c1 g1 -> captures_of (Ahead r) c g c g1.

(** A pattern without groups *)
Fixpoint groupless (r : regex) : bool :=
  match r with
  | Chr _ | Eps | At _ => true
  | Cat r1 r2 | Alt r1 r2 => groupless r1 && groupless r2
  | Star _ r1 | Ahead r1 => groupless r1
  | Group _ _ => false
  end.

(** The years that an entry of the experience stands for when its numbers
    are read from runs of at most 300 digits and the current year has at
    most four. *)
Definition within (e : experience) : Prop :=
  match e with
  | duration value => (0 <= value < 10 ^ 300)%Z
  | range_years years => (-9999 <= years <= 9999)%Z
  end.

(** *** The job API client: [ats/services/job_api_client.py]

    A parsed JSON document, as [response.json()] returns it. *)
#[warnings="-register-all"]
Inductive json :=
| JNull
| JBool (b : bool)
| JNumber (q : Q)
| JString (s : list N)
| JArray (items : list json)
| JObject (members : gmap string json).

(** [bool(x)] *)
Definition truthy (x : json) : bool :=
  match x with
  | JNull => false
  | JBool b => b
  | JNumber q => negb (Qeq_bool q 0)
  | JString s => negb (bool_decide (s = []))
  | JArray items => negb (bool_decide (items = []))
  | JObject members => negb (bool_decide (members = ∅))
  end.

(** [x.get(key, fallback)]: a method of [dict] only. *)
Definition get (x : json) (key : string) (fallback : json) : result json :=
  match x with
  | JObject members => Ok (default fallback (members !! key))
  | _ => Raise AttributeError
  end.

(** What one HTTP request comes to: [requests.get], [raise_for_status] or
    [response.json()] raised a [RequestException], or the body was parsed. *)
Inductive http_outcome :=
| RequestFailed
| Parsed (json_data : json).

Definition required_fields : list string :=
  ["title"; "job_type"; "salary"; "location"; "job_status"; "description"; "requirement";
   "benefits"; "position"]%string.

(** The body of [get_job_details] after [response.json()], inside the
    [try]. *)
Definition checked_job (json_data : json) : result (gmap string json) :=
  status ← get json_data "status" JNull;
  if negb (match status with JString s => bool_decide (s = py "200") | _ => false end)
  then Raise ValueError
  else
    data ← get json_data "data" (JObject ∅);
    job_data ← get data "job" (JObject ∅);
    if negb (truthy job_data) then Raise ValueError
    else
      match job_data with
      | JObject fields =>
          let missing := filter (fun field => fields !! field = None) required_fields in
          match missing with
          | [] => Ok fields
          | _ => Raise ValueError
          end
      | _ => Raise AttributeError
      end.

(** One call of the body of [get_job_details]: every exception leaves it as
    a plain [Exception] ([None] here). *)
Definition attempt (outcome : http_outcome) : option (gmap string json) :=
  match outcome with
  | RequestFailed => None
  | Parsed json_data =>
      match checked_job json_data with
      | Ok job_data => Some job_data
      | Raise _ => None
      end
  end.

(** [@retry(stop=stop_after_attempt(3), ...)]: the body is called again
    after an exception, three times at most; [outcomes n] is what the n-th
    request comes to.  The result is the job data and the number of requests
    sent, [None] standing for tenacity's [RetryError]. *)
Fixpoint retry (attempts_left : nat) (outcomes : nat -> http_outcome) (sent : nat)
    : option (gmap string json) * nat :=
  match attempts_left with
  | O => (None, sent)
  | S attempts_left' =>
      match attempt (outcomes sent) with
      | Some job_data => (Some job_data, S sent)
      | None => retry attempts_left' outcomes (S sent)
      end
  end.

Definition get_job_details (outcomes : nat -> http_outcome) : option (gmap string json) * nat :=
  retry 3 outcomes 0.

(** *** The view: [ats/views.py]

    What the view reaches outside the repository, as an interface: the
    settings of the deployment, the libraries that hash and parse the
    upload, and the database's comparison of two JSON values. *)
Class Deployment := {
  (** what [spacy.load("en_core_web_lg")] does *)
  spacy_load : result unit;
  (** what [pd.read_csv(settings.SKILLS_CSV_PATH)] does *)
  read_skills_csv : result DataFrame;
  (** [datetime.datetime.now().year] *)
  now_year : Z;
  (** [hashlib.md5(content).hexdigest()] *)
  md5_hexdigest : list Byte.byte -> list N;
  (** [pdfplumber.open] and [page.extract_text()] on a file of this content *)
  open_pdf : list Byte.byte -> result (list (option (list N)));
  (** the lookup [job_data=...] of the ORM on the JSON column *)
  same_json : gmap string json -> gmap string json -> bool;
  (** the name [tempfile.NamedTemporaryFile] picks, given the files there *)
  temp_name : gset (list N) -> list N;
  (** the name [FileSystemStorage.save] stores a file under *)
  available_name : gset (list N) -> list N -> list N;
  (** [str(x)] for a JSON value that is not a string *)
  str_of_json : json -> list N
}.

(** The uploaded file: [file.name], [file.size], [file.read()] *)
Record UploadedFile := {
  file_name : list N;
  file_size : Z;
  file_content : list Byte.byte
}.

(** [request.data] as the serializer sees it: refused, or a file and an
    integer. *)
Inductive request :=
| Invalid
| Valid (resume : UploadedFile) (job_id : Z).

(** A row of the model [ResumeAnalysis] *)
Record ResumeAnalysis := {
  row_id : Z;
  row_resume : list N;
  row_job_data : gmap string json;
  row_analysis_result : AnalysisResult;
  row_applicant_name : list N;
  row_applicant_email : list N;
  row_file_hash : list N
}.

(** The table (the latest row first, the order of [Meta.ordering]), the
    stored media and the temporary files. *)
Record World := {
  rows : list ResumeAnalysis;
  next_id : Z;
  media : gmap (list N) (list Byte.byte);
  temp_files : gmap (list N) (list Byte.byte)
}.

Inductive response_data :=
| SerializerErrors
| ErrorOf (e : exn)                    (* {"error": str(e)} *)
| InternalServerError                  (* {"error": "Internal server error"} *)
| CachedAnalysis (analysis_id : Z) (job_data : gmap string json) (result : AnalysisResult)
| NewAnalysis (analysis_id : Z) (job_data : gmap string json) (result : AnalysisResult).

Record Response := {
  data : response_data;
  status : Z
}.

(** [s.endswith(suffix)] *)
Definition endswith (suffix s : list N) : bool := startswith (rev suffix) (rev s).

(** A value of a dict of [analyze]'s result *)
Inductive field :=
| FieldStr (s : list N)
| FieldList (l : list (list N)).

(** The dict that [_extract_personal_info] returns *)
Definition personal_info_dict (info : PersonalInfo) : gmap string field :=
  list_to_map [("name", FieldStr (name info)); ("email", FieldStr (email info));
               ("phone", FieldStr (phone info)); ("links", FieldList (links info))]%string.

Section View.
Context `{Interpreter} `{LanguageModel} `{FuzzyMatcher} `{Deployment}.

Definition _validate_file (file : UploadedFile) : result unit :=
  if negb (endswith (py ".pdf") (lower (file_name file))) then Raise ValueError
  else if (5 * 1024 * 1024 <? file_size file)%Z then Raise ValueError
  else Ok tt.

(** [_get_job_data]: whatever the client raises becomes [RuntimeError]. *)
Definition _get_job_data (outcomes : nat -> http_outcome) : result (gmap string json) :=
  match fst (get_job_details outcomes) with
  | Some job_data => Ok job_data
  | None => Raise RuntimeError
  end.

(** [ResumeAnalysis.objects.filter(file_hash=..., job_data=...).first()] *)
Definition first_analysis (file_hash : list N) (job_data : gmap string json)
    (table : list ResumeAnalysis) : option ResumeAnalysis :=
  head (filter (fun row => str_eqb (row_file_hash row) file_hash
                           && same_json (row_job_data row) job_data = true) table).

(** The job data as [analyze] reads it: a string value, or another object
    by its [str()]. *)
Definition to_pyobj (x : json) : pyobj :=
  match x with
  | JString s => PyStr s
  | _ => PyOther (str_of_json x)
  end.

(** [analysis.get('cv_data', {}).get('personal_info', {})], then the name
    and the email of it; [analysis['cv_data']] is the dict of
    [_extract_personal_info]. *)
Definition applicant (analysis : AnalysisResult) : result (list N * list N) :=
  let cv_data := personal_info_dict (cv_data analysis) in
  personal_info ← match cv_data !! "personal_info"%string with
                  | None => Ok (∅ : gmap string field)
                  | Some _ => Raise AttributeError
                  end;
  Ok (match personal_info !! "name"%string with Some (FieldStr s) => s | _ => [] end,
      match personal_info !! "email"%string with Some (FieldStr s) => s | _ => [] end).

Definition _process_resume (file_path : list N) (job_data : gmap string json)
    (file_hash : list N) (w : World) : World * result ResumeAnalysis :=
  match __init__ spacy_load (Some read_skills_csv) now_year with
  | Raise e => (w, Raise e)
  | Ok analyzer =>
      let opened := match temp_files w !! file_path with
                    | Some content => open_pdf content
                    | None => Raise OSError
                    end in
      match (raw_text ← extract_text opened;
             analysis ← analyze analyzer raw_text (to_pyobj <$> job_data);
             names ← applicant analysis;
             Ok (analysis, names)) with
      | Raise e => (w, Raise e)
      | Ok (analysis, (applicant_name, applicant_email)) =>
          match first_analysis file_hash job_data (rows w) with
          | Some existing => (w, Ok existing)
          | None =>
              match temp_files w !! file_path with
              | None => (w, Raise OSError)
              | Some content =>
                  let filename :=
                    available_name (dom (media w)) (py "resumes/" ++ file_hash ++ py ".pdf") in
                  let row := {| row_id := next_id w;
                                row_resume := filename;
                                row_job_data := job_data;
                                row_analysis_result := analysis;
                                row_applicant_name := applicant_name;
                                row_applicant_email := applicant_email;
                                row_file_hash := file_hash |} in
                  ({| rows := row :: rows w;
                      next_id := (next_id w + 1)%Z;
                      media := <[filename := content]> (media w);
                      temp_files := temp_files w |}, Ok row)
              end
          end
      end
  end.

(** The [try] block of [post] *)
Definition post_body (resume_file : UploadedFile) (outcomes : nat -> http_outcome) (w : World)
    : World * result Response :=
  match (_ ← _validate_file resume_file; _get_job_data outcomes) with
  | Raise e => (w, Raise e)
  | Ok job_data =>
      let file_content := file_content resume_file in
      let file_hash := md5_hexdigest file_content in
      match first_analysis file_hash job_data (rows w) with
      | Some existing =>
          (w, Ok {| data := CachedAnalysis (row_id existing) (row_job_data existing)
                              (row_analysis_result existing);
                    status := 200 |})
      | None =>
          let tmp_path := temp_name (dom (temp_files w)) in
          let w := {| rows := rows w; next_id := next_id w; media := media w;
                      temp_files := <[tmp_path := file_content]> (temp_files w) |} in
          let '(w, outcome) := _process_resume tmp_path job_data file_hash w in
          (* finally: os.remove(tmp_path) *)
          let w := {| rows := rows w; next_id := next_id w; media := media w;
                      temp_files := delete tmp_path (temp_files w) |} in
          match outcome with
          | Ok record =>
              (w, Ok {| data := NewAnalysis (row_id record) (row_job_data record)
                                  (row_analysis_result record);
                        status := 201 |})
          | Raise e => (w, Raise e)
          end
      end
  end.

(** The [except] clauses of [post] *)
Definition error_response (e : exn) : Response :=
  match e with
  | ValueError => {| data := ErrorOf ValueError; status := 400 |}
  | RuntimeError => {| data := ErrorOf RuntimeError; status := 502 |}
  | _ => {| data := InternalServerError; status := 500 |}
  end.

(** [post]; [outcomes] is what the requests to the job API come to during
    the call. *)
Definition post (r : request) (outcomes : nat -> http_outcome) (w : World) : World * Response :=
  match r with
  | Invalid => (w, {| data := SerializerErrors; status := 400 |})
  | Valid resume_file job_id =>
      match post_body resume_file outcomes w with
      | (w, Ok response) => (w, response)
      | (w, Raise e) => (w, error_response e)
      end
  end.

End View.

(** The deployment with another skills file at [settings.SKILLS_CSV_PATH] *)
Definition with_skills_csv (deployment : Deployment) (frame : result DataFrame) : Deployment :=
  {| spacy_load := @spacy_load deployment;
     read_skills_csv := frame;
     now_year := @now_year deployment;
     md5_hexdigest := @md5_hexdigest deployment;
     open_pdf := @open_pdf deployment;
     same_json := @same_json deployment;
     temp_name := @temp_name deployment;
     available_name := @available_name deployment;
     str_of_json := @str_of_json deployment |}.

(** A deployment, a job API and an upload to run the view on *)
Definition sample_deployment (text : list N) : Deployment :=
  {| spacy_load := Ok tt;
     read_skills_csv := Ok sample_frame;
     now_year := 2026;
     md5_hexdigest := fun _ => py "d41d8cd98f00b204e9800998ecf8427e";
     open_pdf := fun _ => Ok [Some text];
     same_json := fun a b => bool_decide (dom a = dom b);
     temp_name := fun _ => py "/tmp/tmpk3v9.pdf";
     available_name := fun _ name => name;
     str_of_json := fun _ => py "None" |}.

Definition sample_job_data : gmap string json :=
  list_to_map [("title", JString (py "Senior Engineer")); ("job_type", JString (py "full"));
               ("salary", JNumber 100); ("location", JString (py "Cairo"));
               ("job_status", JString (py "open"));
               ("description", JString (py "Python Django required"));
               ("requirement", JString (py "Rust")); ("benefits", JNull);
               ("position", JString (py "Senior Engineer"))]%string.

Definition sample_outcomes : nat -> http_outcome :=
  fun _ => Parsed (JObject (list_to_map
    [("status", JString (py "200"));
     ("data", JObject (list_to_map [("job", JObject sample_job_data)]))]%string)).

Definition sample_upload : UploadedFile :=
  {| file_name := py "Resume.PDF"; file_size := 1024; file_content := [] |}.

Definition empty_world : World :=
  {| rows := []; next_id := 1; media := ∅; temp_files := ∅ |}.

(** A deployment that takes two job data for the same when they are equal
    (the values compared by [str_of_json]), and an upload whose text makes
    [analyze] raise. *)
Definition strict_deployment (text : list N) : Deployment :=
  {| spacy_load := Ok tt;
     read_skills_csv := Ok sample_frame;
     now_year := 2026;
     md5_hexdigest := fun _ => py "d41d8cd98f00b204e9800998ecf8427e";
     open_pdf := fun _ => Ok [Some text];
     same_json := fun _ _ => true;
     temp_name := fun _ => py "/tmp/tmpk3v9.pdf";
     available_name := fun _ name => name;
     str_of_json := fun _ => py "None" |}.

(** ** Part II. Lemmas and theorems *)

(** *** The model on concrete inputs *)

Section Examples.
#[local] Existing Instance basic_interpreter.
#[local] Existing Instance blank_model.
#[local] Existing Instance blank_matcher.

Example clean_untidy_text : _clean_text untidy_text = py "a b - c - d".
Proof. vm_compute. reflexivity. Qed.

Example clean_private_use_glyph :
  _clean_text (py "2018" ++ [private_use_glyph] ++ py "2022 ") = py "2018-2022".
Proof. vm_compute. reflexivity. Qed.

Example section_of_skills_resume :
  _extract_section skills_resume
    (Alts [ILit "skills"; ILit "technical skills"; ILit "competencies"])
  = py "Python, Django / REST; 5 years SQL GitHub Actions, machine learning".
Proof. vm_compute. reflexivity. Qed.

(** On a text that still has its lines the section is found: "REST" and
    "SQL" have no lower-case letter, "GitHub Actions" is blacklisted. *)
Example skills_of_skills_resume :
  _extract_skills (analyzer_of_year 2026) skills_resume
  = Ok [py "machine learning"; py "django"; py "python"].
Proof. vm_compute. reflexivity. Qed.

Example experience_of_two_mentions :
  _extract_experience (analyzer_of_year 2026) (py "5+ years and 2015-present")
  = Ok [duration 5; range_years 11]
  /\ _format_experience [duration 5; range_years 11]
     = Ok [py "Total: 16 years"; py "5+ years experience"; py "11 years experience"]
  /\ _calculate_experience_score (analyzer_of_year 2026) (py "5+ years and 2015-present")
       (PyStr (py "Data Engineer")) = Ok (lit 1).
Proof. vm_compute. repeat split; reflexivity. Qed.

Example education_of_degrees_resume :
  _extract_education degrees_resume = [py "B.S. 2010, MS 2012, PhD 2016"].
Proof. vm_compute. reflexivity. Qed.

Example analysis_of_sample_resume :
  analyze (analyzer_of_year 2026) sample_resume sample_job
  = Ok {| compatibility_score := lit 52;
          missing_skills := [];
          experience_match := true;
          education_match := false;
          cv_data := {| name := []; email := py "john@example.com"; phone := [];
                        links := [] |};
          score_breakdown := {| semantic_similarity := lit 0;
                                skill_coverage := lit 100;
                                breakdown_experience_match := lit 80;
                                breakdown_education_match := lit 0 |} |}.
Proof. vm_compute. reflexivity. Qed.

(** Ties go to the even neighbour: 0.125 is reported as 12.5 and 0.00125
    (which is not a binary fraction) as 0.12. *)
Example rounding_of_ties :
  np_round (lit 12.5) 0 = lit 12 /\ np_round (lit 13.5) 0 = lit 14
  /\ np_round (fmul (lit 0.125) (lit 100)) 2 = lit 12.5
  /\ lit 0.4 = Fin (3602879701896397 # 9007199254740992)
  /\ fadd (lit 0.1) (lit 0.2) = Fin (1351079888211149 # 4503599627370496)
  /\ truediv 4 5 = Ok (lit 0.8) /\ truediv 1 0 = Raise ZeroDivisionError.
Proof. vm_compute. repeat split; reflexivity. Qed.

End Examples.

(** *** Rounding to binary64 *)

Ltac qle_compute := apply Qle_bool_iff; vm_compute; reflexivity.

Section RoundingFacts.
Local Open Scope Q_scope.

Lemma rneZ_near (x : Q) :
  x - (1 # 2) <= inject_Z (rneZ x) <= x + (1 # 2).
Proof.
  unfold rneZ. pose proof (Qfloor_le x) as Hlo. pose proof (Qlt_floor x) as Hhi.
  rewrite inject_Z_plus in Hhi. change (inject_Z 1) with 1 in Hhi.
  destruct (Qcompare_spec (x - inject_Z (Qfloor x)) (1 # 2)) as [He|Hl|Hg].
  - destruct (Z.even (Qfloor x)); rewrite ?inject_Z_plus; change (inject_Z 1) with 1; lra.
  - lra.
  - rewrite inject_Z_plus. change (inject_Z 1) with 1. lra.
Qed.

Lemma rneZ_Z (n : Z) : rneZ (inject_Z n) = n.
Proof.
  unfold rneZ. rewrite Qfloor_Z.
  destruct (Qcompare_spec (inject_Z n - inject_Z n) (1 # 2)) as [He|Hl|Hg]; try lra.
  reflexivity.
Qed.

Lemma rneZ_mono (x y : Q) : x <= y -> (rneZ x <= rneZ y)%Z.
Proof.
  intros Hxy.
  pose proof (Qfloor_resp_le _ _ Hxy) as Hf.
  destruct (Z.eq_dec (Qfloor x) (Qfloor y)) as [E|NE].
  - unfold rneZ. rewrite <- E.
    destruct (Qcompare_spec (x - inject_Z (Qfloor x)) (1 # 2)) as [He|Hl|Hg];
      destruct (Qcompare_spec (y - inject_Z (Qfloor x)) (1 # 2)) as [He'|Hl'|Hg'];
      try lra; destruct (Z.even (Qfloor x)); lia.
  - assert (Hlt : (Qfloor x + 1 <= Qfloor y)%Z) by lia.
    apply Z.le_trans with (Qfloor x + 1)%Z.
    + unfold rneZ. destruct (Qcompare _ _); [destruct (Z.even _)| |]; lia.
    + apply Z.le_trans with (Qfloor y); [exact Hlt|].
      unfold rneZ. destruct (Qcompare _ _); [destruct (Z.even _)| |]; lia.
Qed.

Lemma rneZ_le_Z (x : Q) (n : Z) : x <= inject_Z n -> (rneZ x <= n)%Z.
Proof. intros H. rewrite <- (rneZ_Z n). now apply rneZ_mono. Qed.

Lemma rneZ_ge_Z (x : Q) (n : Z) : inject_Z n <= x -> (n <= rneZ x)%Z.
Proof. intros H. rewrite <- (rneZ_Z n). now apply rneZ_mono. Qed.

Lemma pow2_pos (e : Z) : 0 < pow2 e.
Proof. apply Qpower_0_lt. reflexivity. Qed.

Lemma pow2_add (a b : Z) : pow2 (a + b) == pow2 a * pow2 b.
Proof. apply Qpower_plus. discriminate. Qed.

Lemma pow2_le (a b : Z) : (a <= b)%Z -> pow2 a <= pow2 b.
Proof. intros H. apply Qpower_le_compat_l; [exact H|discriminate]. Qed.

Lemma pow2_Z (n : Z) : (0 <= n)%Z -> pow2 n == inject_Z (2 ^ n).
Proof. intros H. unfold pow2. now rewrite Zpower_Qpower. Qed.

Lemma pow2_split (a b : Z) : pow2 a == pow2 (a - b) * pow2 b.
Proof. rewrite <- pow2_add. now replace (a - b + b)%Z with a by lia. Qed.

Lemma ilog2_spec (x : Q) : 0 < x -> pow2 (ilog2 x) <= x < pow2 (ilog2 x + 1).
Proof.
  intros Hx. destruct x as [n d]. unfold ilog2. cbn [Qnum Qden].
  assert (Hn : (0 < n)%Z) by (unfold Qlt in Hx; cbn in Hx; lia).
  set (a := Z.log2 n). set (b := Z.log2 (Z.pos d)).
  pose proof (Z.log2_spec n Hn) as [Ha1 Ha2]. fold a in Ha1, Ha2.
  pose proof (Z.log2_spec (Z.pos d) (Pos2Z.is_pos d)) as [Hb1 Hb2]. fold b in Hb1, Hb2.
  pose proof (Z.log2_nonneg n) as Ha0. fold a in Ha0.
  pose proof (Z.log2_nonneg (Z.pos d)) as Hb0. fold b in Hb0.
  assert (Qa1 : pow2 a <= inject_Z n) by (rewrite pow2_Z by lia; now rewrite <- Zle_Qle).
  assert (Qa2 : inject_Z n < pow2 (a + 1))
    by (rewrite pow2_Z by lia; rewrite <- Zlt_Qlt; now rewrite <- Z.add_1_r in Ha2).
  assert (Qb1 : pow2 b <= inject_Z (Z.pos d)) by (rewrite pow2_Z by lia; now rewrite <- Zle_Qle).
  assert (Qb2 : inject_Z (Z.pos d) < pow2 (b + 1))
    by (rewrite pow2_Z by lia; rewrite <- Zlt_Qlt; now rewrite <- Z.add_1_r in Hb2).
  assert (Hxd : n # d == inject_Z n / inject_Z (Z.pos d)) by apply Qmake_Qdiv.
  assert (Hd0 : 0 < inject_Z (Z.pos d)) by (rewrite <- (Zlt_Qlt 0); lia).
  assert (Hmul : (n # d) * inject_Z (Z.pos d) == inject_Z n)
    by (rewrite Hxd; field; lra).
  pose proof (pow2_pos b) as Pb. pose proof (pow2_pos (b + 1)) as Pb1.
  assert (Up : n # d < pow2 (a - b + 1)).
  { apply (Qmult_lt_r _ _ (pow2 b) Pb). rewrite <- pow2_add.
    replace (a - b + 1 + b)%Z with (a + 1)%Z by lia.
    apply Qle_lt_trans with (inject_Z n); [|exact Qa2].
    rewrite <- Hmul. apply Qmult_le_l; [exact Hx|exact Qb1]. }
  assert (Lo : pow2 (a - b - 1) < n # d).
  { apply (Qmult_lt_r _ _ (pow2 (b + 1)) Pb1). rewrite <- pow2_add.
    replace (a - b - 1 + (b + 1))%Z with a by lia.
    apply Qle_lt_trans with (inject_Z n); [exact Qa1|].
    rewrite <- Hmul. apply Qmult_lt_l; [exact Hx|exact Qb2]. }
  destruct (Qle_bool (pow2 (a - b)) (n # d)) eqn:E.
  - apply Qle_bool_iff in E. split; assumption.
  - assert (~ pow2 (a - b) <= n # d) by (rewrite <- Qle_bool_iff; congruence).
    replace (a - b - 1 + 1)%Z with (a - b)%Z by lia. split; [lra|lra].
Qed.

Lemma ilog2_mono (x y : Q) : 0 < x -> x <= y -> (ilog2 x <= ilog2 y)%Z.
Proof.
  intros Hx Hxy.
  destruct (ilog2_spec x Hx) as [Lx _].
  destruct (ilog2_spec y) as [_ Uy]; [lra|].
  destruct (Z_le_gt_dec (ilog2 x) (ilog2 y)) as [?|G]; [assumption|exfalso].
  pose proof (pow2_le (ilog2 y + 1) (ilog2 x) ltac:(lia)). lra.
Qed.

Lemma cexp_pos (x : Q) : 0 < x -> cexp x = Z.max (ilog2 x - 52) (-1074).
Proof.
  intros Hx. unfold cexp. destruct x as [[|p|p] d]; [discriminate Hx|reflexivity|discriminate Hx].
Qed.

Lemma rne64_0 : rne64 0 = 0.
Proof. reflexivity. Qed.

Lemma rne64_unfold (x : Q) :
  ~ x == 0 -> rne64 x == inject_Z (rneZ (x / pow2 (cexp x))) * pow2 (cexp x).
Proof.
  intros Hx. unfold rne64. destruct (Qeq_bool x 0) eqn:E.
  - apply Qeq_bool_iff in E. contradiction.
  - apply Qred_correct.
Qed.

Lemma rne64_le_grid (x : Q) (m e : Z) :
  0 < x -> (cexp x <= e)%Z -> x <= inject_Z m * pow2 e -> rne64 x <= inject_Z m * pow2 e.
Proof.
  intros Hx He Hle. rewrite rne64_unfold by lra.
  pose proof (pow2_pos (cexp x)) as Pc.
  rewrite (pow2_split e (cexp x)), Qmult_assoc.
  apply Qmult_le_compat_r; [|lra].
  rewrite (pow2_Z (e - cexp x)) by lia. rewrite <- inject_Z_mult. rewrite <- Zle_Qle.
  apply rneZ_le_Z. rewrite inject_Z_mult, <- (pow2_Z (e - cexp x)) by lia.
  apply Qle_shift_div_r; [exact Pc|].
  rewrite <- Qmult_assoc, <- pow2_split. exact Hle.
Qed.

Lemma rne64_ge_grid (x : Q) (m e : Z) :
  0 < x -> (cexp x <= e)%Z -> inject_Z m * pow2 e <= x -> inject_Z m * pow2 e <= rne64 x.
Proof.
  intros Hx He Hle. rewrite rne64_unfold by lra.
  pose proof (pow2_pos (cexp x)) as Pc.
  rewrite (pow2_split e (cexp x)), Qmult_assoc.
  apply Qmult_le_compat_r; [|lra].
  rewrite (pow2_Z (e - cexp x)) by lia. rewrite <- inject_Z_mult. rewrite <- Zle_Qle.
  apply rneZ_ge_Z. rewrite inject_Z_mult, <- (pow2_Z (e - cexp x)) by lia.
  apply Qle_shift_div_l; [exact Pc|].
  rewrite <- Qmult_assoc, <- pow2_split. exact Hle.
Qed.

Lemma rne64_nonneg (x : Q) : 0 <= x -> 0 <= rne64 x.
Proof.
  intros Hx. destruct (Qeq_dec x 0) as [E|NE].
  - unfold rne64. apply Qeq_bool_iff in E. rewrite E. lra.
  - pose proof (rne64_ge_grid x 0 (cexp x) ltac:(lra) ltac:(lia)) as H.
    rewrite Qmult_0_l in H. apply H. exact Hx.
Qed.

Lemma rne64_mono (x y : Q) : 0 <= x -> x <= y -> rne64 x <= rne64 y.
Proof.
  intros Hx Hxy. destruct (Qeq_dec x 0) as [E|NE].
  - unfold rne64 at 1. apply Qeq_bool_iff in E. rewrite E. apply rne64_nonneg. lra.
  - assert (Px : 0 < x) by lra. assert (Py : 0 < y) by lra.
    pose proof (ilog2_mono x y Px Hxy) as Hl.
    pose proof (cexp_pos x Px) as Cx. pose proof (cexp_pos y Py) as Cy.
    destruct (Z.eq_dec (cexp x) (cexp y)) as [Ec|Nc].
    + rewrite (rne64_unfold x), (rne64_unfold y) by lra. rewrite <- Ec.
      pose proof (pow2_pos (cexp x)) as Pc.
      apply Qmult_le_compat_r; [|lra]. rewrite <- Zle_Qle. apply rneZ_mono.
      apply Qmult_le_compat_r; [exact Hxy|]. apply Qlt_le_weak, Qinv_lt_0_compat, Pc.
    + assert (Hc : cexp y = (ilog2 y - 52)%Z /\ (ilog2 x + 1 <= ilog2 y)%Z) by lia.
      destruct Hc as [Hcy Hlt].
      destruct (ilog2_spec x Px) as [_ Ux]. destruct (ilog2_spec y Py) as [Ly _].
      pose proof (pow2_le _ _ Hlt) as Hp.
      apply Qle_trans with (inject_Z 1 * pow2 (ilog2 y)).
      * apply rne64_le_grid; [exact Px|lia|]. change (inject_Z 1) with 1. lra.
      * apply rne64_ge_grid; [exact Py|lia|]. change (inject_Z 1) with 1. lra.
Qed.

Lemma rne64_error (x : Q) : 0 < x -> Qabs (rne64 x - x) <= pow2 (cexp x) * (1 # 2).
Proof.
  intros Hx. rewrite rne64_unfold by lra.
  pose proof (pow2_pos (cexp x)) as Pc.
  pose proof (rneZ_near (x / pow2 (cexp x))) as [Lo Hi].
  set (c := pow2 (cexp x)) in *.
  assert (Hq : x == (x / c) * c) by (field; lra).
  set (q := x / c) in *. set (r := inject_Z (rneZ q)) in *.
  assert (H1 : (- (1 # 2)) * c <= (r - q) * c) by (apply Qmult_le_compat_r; lra).
  assert (H2 : (r - q) * c <= (1 # 2) * c) by (apply Qmult_le_compat_r; lra).
  apply Qabs_Qle_condition. split; lra.
Qed.

Lemma ilog2_lt (x : Q) (k : Z) : 0 < x -> x < pow2 k -> (ilog2 x < k)%Z.
Proof.
  intros Hx Hk. destruct (ilog2_spec x Hx) as [L _].
  destruct (Z_lt_ge_dec (ilog2 x) k) as [?|G]; [assumption|exfalso].
  pose proof (pow2_le k (ilog2 x) ltac:(lia)). lra.
Qed.

Lemma rne64_err (x : Q) (k : Z) :
  0 <= x -> x < pow2 k -> (-1021 <= k)%Z -> Qabs (rne64 x - x) <= pow2 (k - 54).
Proof.
  intros H0 Hk Hmin. destruct (Qeq_dec x 0) as [E|NE].
  - unfold rne64. pose proof E as E'. apply Qeq_bool_iff in E'. rewrite E'.
    pose proof (pow2_pos (k - 54)). apply Qabs_Qle_condition. lra.
  - assert (Px : 0 < x) by lra.
    eapply Qle_trans; [apply rne64_error, Px|].
    pose proof (ilog2_lt x k Px Hk) as Hl.
    rewrite (cexp_pos x Px).
    pose proof (pow2_le (Z.max (ilog2 x - 52) (-1074)) (k - 53) ltac:(lia)) as Hp.
    pose proof (pow2_add (k - 54) 1) as Hs. replace (k - 54 + 1)%Z with (k - 53)%Z in Hs by lia.
    change (pow2 1) with 2 in Hs. lra.
Qed.

Lemma max_float_pow2 : pow2 1023 <= max_float.
Proof. apply Qle_bool_iff. vm_compute. reflexivity. Qed.

Lemma round64_ok (x b eps : Q) (k : Z) :
  0 <= x -> x < b -> b <= pow2 k -> (-1021 <= k <= 1023)%Z -> pow2 (k - 54) <= eps ->
  round64 x = Fin (rne64 x) /\ 0 <= rne64 x /\ x - eps <= rne64 x <= x + eps.
Proof.
  intros H0 Hb Hk Hr He.
  pose proof (rne64_nonneg x H0) as Hn.
  pose proof (rne64_err x k H0 ltac:(lra) ltac:(lia)) as Herr.
  apply Qabs_Qle_condition in Herr.
  split; [|split; [exact Hn|lra]].
  unfold round64. 
  assert (Hfin : Qabs (rne64 x) <= max_float).
  { rewrite Qabs_pos by exact Hn.
    apply Qle_trans with (pow2 1023); [|apply max_float_pow2].
    apply Qle_trans with (pow2 k); [|apply pow2_le; lia].
    destruct (Qeq_dec x 0) as [E|NE].
    - unfold rne64. apply Qeq_bool_iff in E. rewrite E. apply Qlt_le_weak, pow2_pos.
    - assert (Px : 0 < x) by lra.
      pose proof (rne64_le_grid x 1 k Px) as G. change (inject_Z 1) with 1 in G.
      rewrite Qmult_1_l in G. apply G; [|lra].
      rewrite (cexp_pos x Px). pose proof (ilog2_lt x k Px ltac:(lra)). lia. }
  apply Qle_bool_iff in Hfin. rewrite Hfin. reflexivity.
Qed.

Lemma Qmult_comm_eq (x y : Q) : (x * y)%Q = (y * x)%Q.
Proof. unfold Qmult. now rewrite Z.mul_comm, Pos.mul_comm. Qed.

Lemma fmul_comm (a b : float) : fmul a b = fmul b a.
Proof.
  destruct a as [x|s|], b as [y|t|]; cbn; try reflexivity.
  - now rewrite Qmult_comm_eq.
  - now rewrite xorb_comm.
Qed.

Lemma Qmult_unit_bounds (c s : Q) : 0 <= c -> 0 <= s <= 1 -> 0 <= c * s <= c.
Proof.
  intros Hc [H0 H1]. split.
  - now apply Qmult_le_0_compat.
  - rewrite <- (Qmult_1_r c) at 2. rewrite (Qmult_comm c s), (Qmult_comm c 1).
    apply Qmult_le_compat_r; assumption.
Qed.

Lemma Qmult_unit_err (c c0 s eps : Q) :
  c0 - eps <= c <= c0 + eps -> 0 <= s <= 1 -> c0 * s - eps <= c * s <= c0 * s + eps.
Proof.
  intros [Hl Hu] [H0 H1].
  assert (A : 0 <= (c - c0 + eps) * s) by (apply Qmult_le_0_compat; lra).
  assert (B : 0 <= (c0 + eps - c) * s) by (apply Qmult_le_0_compat; lra).
  assert (E : 0 <= eps) by lra.
  assert (C : 0 <= eps * (1 - s)) by (apply Qmult_le_0_compat; lra).
  split; lra.
Qed.

Lemma lit_04 : lit 0.4 = Fin (rne64 0.4). Proof. reflexivity. Qed.
Lemma lit_015 : lit 0.15 = Fin (rne64 0.15). Proof. reflexivity. Qed.
Lemma lit_005 : lit 0.05 = Fin (rne64 0.05). Proof. reflexivity. Qed.
Lemma lit_100 : lit 100 = Fin 100. Proof. reflexivity. Qed.


End RoundingFacts.


Ltac fl_step X b eps k t E :=
  let H0 := fresh "N" t in
  let Hb := fresh "B" t in
  destruct (round64_ok X b eps k) as (E & H0 & Hb);
  [lra | lra | qle_compute | lia | qle_compute | rewrite E; clear E; set (t := rne64 X) in *].


(** *** Text cleaning *)

Arguments isspace : simpl never.
Arguments glyph : simpl never.

Lemma lstrip_length (s : list N) : (length (lstrip s) <= length s)%nat.
Proof. induction s as [|x t IH]; cbn; [lia|]. destruct (isspace x); cbn; lia. Qed.

Lemma lstrip_head (s : list N) : from_option isspace false (head (lstrip s)) = false.
Proof.
  induction s as [|x t IH]; cbn; [reflexivity|].
  destruct (isspace x) eqn:E; [exact IH|]. cbn. exact E.
Qed.

Lemma lstrip_id (s : list N) : from_option isspace false (head s) = false -> lstrip s = s.
Proof. destruct s as [|x t]; cbn; [reflexivity|]. now intros ->. Qed.

Lemma lstrip_suffix (s : list N) : exists l, s = l ++ lstrip s.
Proof.
  induction s as [|x t [l IH]]; [now exists []|]. cbn.
  destruct (isspace x).
  - exists (x :: l). cbn. now rewrite <- IH.
  - now exists [].
Qed.

Lemma star_space (fuel : nat) (c : cursor) (g : captures) :
  (length (rest c) <= fuel)%nat ->
  exists p, star_loop (run space) true accept fuel c g
            = Some ({| prev := p; rest := lstrip (rest c) |}, g).
Proof.
  revert c. induction fuel as [|fuel IH]; intros [p s] Hlen; cbn in *.
  - destruct s; [|cbn in Hlen; lia]. now exists p.
  - destruct s as [|x t]; [now exists p|]. cbn.
    destruct (isspace x) eqn:E; [|now exists p].
    cbn in Hlen. rewrite Nat.leb_refl.
    destruct (IH {| prev := Some x; rest := t |} ltac:(cbn; lia)) as [p' Hp].
    cbn in Hp. rewrite Hp. now exists p'.
Qed.

Lemma match_at_spaces (c : cursor) :
  match rest c with
  | x :: t =>
      if isspace x
      then exists p n, match_at (Plus space) c
                       = Some ({| prev := p; rest := lstrip t |},
                               {| group0 := x :: take n t; groups := [] |})
      else match_at (Plus space) c = None
  | [] => match_at (Plus space) c = None
  end.
Proof.
  destruct c as [p [|x t]]; cbn; [reflexivity|].
  unfold match_at. cbn. destruct (isspace x) eqn:E; [|reflexivity].
  destruct (star_space (length t) {| prev := Some x; rest := t |} [] ltac:(cbn; lia)) as [p' Hs].
  cbn in Hs. fold accept. rewrite Hs. exists p', (length t - length (lstrip t))%nat.
  unfold between. cbn [rest]. pose proof (lstrip_length t).
  replace (S (length t) - length (lstrip t))%nat
    with (S (length t - length (lstrip t))) by lia.
  reflexivity.
Qed.

Lemma scan_spaces (fuel : nat) (p : option N) (s : list N) :
  replaced [32%N] (scan fuel (Plus space) {| prev := p; rest := s |}) = collapse fuel s.
Proof.
  revert p s. induction fuel as [|fuel IH]; intros p s; [reflexivity|].
  cbn [scan collapse]. pose proof (match_at_spaces {| prev := p; rest := s |}) as M.
  cbn [rest] in M. destruct s as [|x t].
  - rewrite M. reflexivity.
  - destruct (isspace x).
    + destruct M as (p' & n & ->). unfold replaced. cbn. f_equal. apply IH.
    + rewrite M. unfold replaced. cbn. f_equal. apply IH.
Qed.

Lemma sub_spaces (s : list N) : sub (Plus space) [32%N] s = collapse (S (length s)) s.
Proof. apply scan_spaces. Qed.

Lemma scan_class (q : N -> bool) (repl : N) (fuel : nat) (p : option N) (s : list N) :
  (length s < fuel)%nat ->
  replaced [repl] (scan fuel (Chr q) {| prev := p; rest := s |})
  = (fun c => if q c then repl else c) <$> s.
Proof.
  revert p s. induction fuel as [|fuel IH]; intros p s Hlen; [lia|].
  destruct s as [|x t]; [reflexivity|].
  cbn [scan]. unfold match_at. cbn [run rest]. unfold accept. cbn [fmap list_fmap].
  cbn in Hlen.
  destruct (q x) eqn:E.
  - unfold between. cbn [rest]. replace (length (x :: t) - length t)%nat with 1%nat by (cbn; lia).
    cbn. unfold replaced. cbn. f_equal.
    rewrite <- (IH (Some x) t) by lia. reflexivity.
  - unfold replaced. cbn. f_equal. apply IH. lia.
Qed.

Lemma sub_glyphs (s : list N) :
  sub (oneof [bullet; black_circle; en_dash; em_dash; private_use_glyph]) [45%N] s
  = dash <$> s.
Proof. apply (scan_class glyph). lia. Qed.

Lemma collapse_head (fuel : nat) (s : list N) :
  from_option isspace false (head s) = false ->
  from_option isspace false (head (collapse fuel s)) = false.
Proof.
  destruct fuel as [|fuel]; [reflexivity|]. destruct s as [|x t]; [reflexivity|].
  cbn. intros E. rewrite E. exact E.
Qed.

Lemma collapse_spaced (fuel : nat) (s : list N) : spaced (collapse fuel s) = true.
Proof.
  revert s. induction fuel as [|fuel IH]; intros s; [reflexivity|].
  destruct s as [|x t]; [reflexivity|]. cbn [collapse].
  destruct (isspace x) eqn:E; cbn [spaced].
  - rewrite IH, (collapse_head fuel (lstrip t) (lstrip_head t)). reflexivity.
  - rewrite E, IH. reflexivity.
Qed.

Lemma spaced_tail (x : N) (t : list N) : spaced (x :: t) = true -> spaced t = true.
Proof. cbn. intros H. now apply andb_prop in H. Qed.

Lemma collapse_id (fuel : nat) (s : list N) :
  (length s <= fuel)%nat -> spaced s = true -> collapse fuel s = s.
Proof.
  revert s. induction fuel as [|fuel IH]; intros s Hlen Hs.
  - destruct s; [reflexivity|cbn in Hlen; lia].
  - destruct s as [|x t]; [reflexivity|]. cbn in Hlen. pose proof (spaced_tail _ _ Hs) as Ht.
    cbn [collapse]. cbn [spaced] in Hs. apply andb_prop in Hs as [Hx _].
    destruct (isspace x) eqn:E.
    + cbn in Hx. apply andb_prop in Hx as [H32 Hh].
      apply N.eqb_eq in H32. apply negb_true_iff in Hh.
      rewrite (lstrip_id t Hh), IH by (assumption || lia). now subst.
    + rewrite IH by (assumption || lia). reflexivity.
Qed.

Lemma spaced_blank (s : list N) (c : N) :
  spaced s = true -> In c s -> isspace c = true -> c = 32%N.
Proof.
  induction s as [|x t IH]; intros Hs Hin Hc; [destruct Hin|].
  destruct Hin as [->|Hin]; [|now apply IH; [apply (spaced_tail x)| |]].
  cbn in Hs. rewrite Hc in Hs. cbn in Hs.
  apply andb_prop in Hs as [Hs _]. apply andb_prop in Hs as [Hs _]. now apply N.eqb_eq.
Qed.

Lemma spaced_prefix (l1 l2 : list N) : spaced (l1 ++ l2) = true -> spaced l1 = true.
Proof.
  induction l1 as [|x t IH]; [reflexivity|]. cbn [app spaced]. intros H.
  apply andb_prop in H as [Hx Ht]. rewrite (IH Ht), andb_true_r.
  destruct t as [|y t']; [|exact Hx].
  cbn in *. destruct (isspace x) eqn:E; [|reflexivity]. cbn in *.
  apply andb_prop in Hx as [-> _]. reflexivity.
Qed.

Lemma spaced_suffix (l1 l2 : list N) : spaced (l1 ++ l2) = true -> spaced l2 = true.
Proof. induction l1 as [|x t IH]; [easy|]. intros H. apply IH, (spaced_tail x), H. Qed.

Lemma glyph_cases (c : N) :
  glyph c = true ->
  c = bullet \/ c = black_circle \/ c = en_dash \/ c = em_dash \/ c = private_use_glyph.
Proof.
  unfold glyph. cbn [existsb]. rewrite orb_false_r, !orb_true_iff, !N.eqb_eq. tauto.
Qed.

Lemma glyph_not_blank (c : N) : glyph c = true -> isspace c = false.
Proof. intros H. destruct (glyph_cases c H) as [->|[->|[->|[->| ->]]]]; reflexivity. Qed.

Lemma dash_isspace (c : N) : isspace (dash c) = isspace c.
Proof.
  unfold dash. destruct (glyph c) eqn:E; [|reflexivity].
  now rewrite (glyph_not_blank c E).
Qed.

Lemma dash_space (c : N) : (dash c =? 32)%N = (c =? 32)%N.
Proof.
  unfold dash. destruct (glyph c) eqn:E; [|reflexivity].
  destruct (glyph_cases c E) as [->|[->|[->|[->| ->]]]]; reflexivity.
Qed.

Lemma dash_glyph (c : N) : glyph (dash c) = false.
Proof. unfold dash. destruct (glyph c) eqn:E; [reflexivity|exact E]. Qed.

Lemma dash_spaced (s : list N) : spaced s = true -> spaced (dash <$> s) = true.
Proof.
  induction s as [|x t IH]; [reflexivity|]. cbn [spaced fmap list_fmap]. intros H.
  apply andb_prop in H as [Hx Ht]. rewrite (IH Ht), andb_true_r.
  rewrite dash_isspace, dash_space.
  destruct t as [|y t']; [exact Hx|]. cbn in *. now rewrite dash_isspace.
Qed.

Lemma dash_id (s : list N) : Forall (fun c => glyph c = false) s -> dash <$> s = s.
Proof.
  induction 1 as [|x t Hx _ IH]; [reflexivity|]. cbn. rewrite IH. unfold dash. now rewrite Hx.
Qed.

Lemma dash_no_glyph (s : list N) : Forall (fun c => glyph c = false) (dash <$> s).
Proof. induction s; constructor; [apply dash_glyph|assumption]. Qed.

(** [strip s] is a piece of [s]: some blanks come off both ends. *)
Lemma strip_infix (s : list N) : exists l1 l2, s = l1 ++ strip s ++ l2.
Proof.
  unfold strip. destruct (lstrip_suffix s) as [l1 H1].
  destruct (lstrip_suffix (rev (lstrip s))) as [l2 H2].
  exists l1, (rev l2). rewrite <- rev_app_distr, <- H2, rev_involutive. exact H1.
Qed.

Lemma head_rev (s : list N) : head (rev s) = last s.
Proof.
  induction s as [|x t IH] using rev_ind; [reflexivity|].
  rewrite rev_app_distr, last_snoc. reflexivity.
Qed.

Lemma last_rev (s : list N) : last (rev s) = head s.
Proof. rewrite <- (rev_involutive s) at 2. now rewrite head_rev. Qed.

Lemma last_suffix (l s : list N) : s <> [] -> last (l ++ s) = last s.
Proof.
  intros Hs. destruct s as [|x t] using rev_ind; [congruence|].
  now rewrite app_assoc, !last_snoc.
Qed.

Lemma strip_trimmed (s : list N) : trimmed (strip s).
Proof.
  unfold trimmed, strip. rewrite head_rev, last_rev. split; [|apply lstrip_head].
  destruct (lstrip_suffix (rev (lstrip s))) as [l Hl].
  destruct (lstrip (rev (lstrip s))) as [|x t] eqn:E; [reflexivity|].
  rewrite <- (last_suffix l (x :: t)) by discriminate.
  rewrite <- Hl, last_rev. apply lstrip_head.
Qed.

Lemma strip_id (s : list N) : trimmed s -> strip s = s.
Proof.
  intros [Hh Hl]. unfold strip. rewrite (lstrip_id s Hh).
  rewrite lstrip_id by now rewrite head_rev. apply rev_involutive.
Qed.

(** What [_clean_text] computes, on the characters. *)
Lemma clean_text_eq (t : list N) :
  _clean_text t = strip (dash <$> collapse (S (length t)) t).
Proof. unfold _clean_text. change (py " ") with [32%N]. now rewrite sub_spaces, sub_glyphs. Qed.

Lemma clean_text_spaced (t : list N) : spaced (_clean_text t) = true.
Proof.
  rewrite clean_text_eq.
  destruct (strip_infix (dash <$> collapse (S (length t)) t)) as (l1 & l2 & E).
  pose proof (dash_spaced _ (collapse_spaced (S (length t)) t)) as Hs.
  rewrite E in Hs. apply spaced_suffix in Hs. now apply spaced_prefix in Hs.
Qed.

Lemma clean_text_no_glyph (t : list N) : Forall (fun c => glyph c = false) (_clean_text t).
Proof.
  rewrite clean_text_eq.
  destruct (strip_infix (dash <$> collapse (S (length t)) t)) as (l1 & l2 & E).
  pose proof (dash_no_glyph (collapse (S (length t)) t)) as Hg.
  rewrite E in Hg. apply Forall_app in Hg as [_ Hg]. now apply Forall_app in Hg as [Hg _].
Qed.

Lemma clean_text_trimmed (t : list N) : trimmed (_clean_text t).
Proof. rewrite clean_text_eq. apply strip_trimmed. Qed.

Lemma clean_text_no_newline (t : list N) : ~ In newline (_clean_text t).
Proof.
  intros Hin. pose proof (spaced_blank _ _ (clean_text_spaced t) Hin eq_refl). discriminate.
Qed.

Lemma split_absent (sep : N) (s : list N) : ~ In sep s -> split sep s = [s].
Proof.
  induction s as [|x t IH]; [reflexivity|]. intros Hn. cbn [split].
  destruct (N.eqb_spec x sep) as [->|_]; [destruct Hn; now left|].
  rewrite IH; [reflexivity|]. intros Hin. apply Hn. now right.
Qed.

(** C8: [_clean_text] is idempotent. *)
Theorem clean_text_idempotent (t : list N) :
  _clean_text (_clean_text t) = _clean_text t.
Proof.
  rewrite (clean_text_eq (_clean_text t)).
  rewrite collapse_id by (apply clean_text_spaced || lia).
  rewrite dash_id by apply clean_text_no_glyph.
  apply strip_id, clean_text_trimmed.
Qed.

Section SectionFacts.
Context `{Interpreter} `{LanguageModel} `{FuzzyMatcher}.

Lemma extract_section_one_line (line : list N) (section_name : regex) :
  ~ In newline line -> _extract_section line section_name = [].
Proof.
  intros Hn. unfold _extract_section. rewrite (split_absent newline line Hn).
  cbn [section_loop]. now destruct (bool_decide _).
Qed.

Lemma extract_section_clean (t : list N) (section_name : regex) :
  _extract_section (_clean_text t) section_name = [].
Proof. apply extract_section_one_line, clean_text_no_newline. Qed.

Lemma extract_skills_clean (self : ResumeAnalyzer) (t : list N) :
  _extract_skills self (_clean_text t) = _extract_noun_phrases (_clean_text t).
Proof. unfold _extract_skills. rewrite extract_section_clean. reflexivity. Qed.

End SectionFacts.

(** *** The weighted score *)

Section ScoreFacts.
Local Open Scope Q_scope.

Lemma compatibility_score_is_formula (s k e d : float) :
  _calculate_compatibility_score s k e d = weighting_formula s k e d.
Proof. unfold _calculate_compatibility_score, weighting_formula. now rewrite fmul_comm. Qed.

(** [numpy.round(w, 2)] on a percentage. *)
Lemma np_round_percent (w : Q) :
  0 <= w <= 100 + (1 # 1000000) ->
  exists (q : Q) (n : Z),
    np_round (Fin w) 2 = Fin q /\ 0 <= q <= 100 /\ (0 <= n <= 10000)%Z /\
    q = rne64 (inject_Z n / 100) /\
    Qabs (q - w) <= 0.005 + (2 # 100000000000000).
Proof.
  intros Hw. unfold np_round.
  change (lit (inject_Z (10 ^ Z.of_nat 2))) with (Fin 100).
  cbn [fmul fadd rint fdiv].
  fl_step (w * 100) 16384 (1 # 1000000000000) 14%Z v E9. cbn [fmul fadd rint fdiv].
  change (Qeq_bool 100 0) with false. cbv iota.
  pose proof (rneZ_near v) as Hn.
  pose proof (rneZ_ge_Z v 0 Nv) as Hn0.
  set (n := rneZ v) in *.
  assert (Hn1 : (n < 10001)%Z) by (rewrite Zlt_Qlt; change (inject_Z 10001) with 10001; lra).
  assert (Hq : 0 <= inject_Z n <= 10000).
  { change 0 with (inject_Z 0). change 10000 with (inject_Z 10000).
    rewrite <- !Zle_Qle. lia. }
  assert (Hd100 : inject_Z n / 100 == inject_Z n * (1 # 100)) by (field; lra).
  assert (Hq' : 0 <= inject_Z n / 100 <= 100) by (rewrite Hd100; lra).
  fl_step (inject_Z n / 100) 128 (1 # 100000000000000) 7%Z q E10.
  exists q, n. split; [reflexivity|]. split; [|split; [lia|split; [reflexivity|]]].
  - split; [exact Nq|].
    apply Qle_trans with (rne64 100); [|qle_compute].
    apply rne64_mono; lra.
  - apply Qabs_Qle_condition. split; lra.
Qed.

(** One value of the breakdown: the sub-score as a percentage. *)
Lemma percent_of_score (s : Q) :
  0 <= s <= 1 ->
  exists p : Q,
    np_round (fmul (Fin s) (lit 100)) 2 = Fin p /\ 0 <= p <= 100 /\
    Qabs (p - 100 * s) <= 0.005 + (4 # 100000000000000).
Proof.
  intros Hs. rewrite lit_100. cbn [fmul].
  fl_step (s * 100) 128 (1 # 100000000000000) 7%Z w E.
  destruct (np_round_percent w ltac:(lra)) as (p & n & -> & Hp & _ & _ & Herr).
  exists p. split; [reflexivity|]. split; [exact Hp|].
  apply Qabs_Qle_condition in Herr. apply Qabs_Qle_condition. split; lra.
Qed.

Lemma compatibility_score_bounds (s k e d : Q) :
  0 <= s <= 1 -> 0 <= k <= 1 -> 0 <= e <= 1 -> 0 <= d <= 1 ->
  exists (q : Q) (n : Z),
    _calculate_compatibility_score (Fin s) (Fin k) (Fin e) (Fin d) = Fin q /\
    0 <= q <= 100 /\
    (0 <= n <= 10000)%Z /\ q = rne64 (inject_Z n / 100) /\
    Qabs (q - 100 * (0.4 * s + 0.4 * k + 0.15 * e + 0.05 * d)) <= 0.005 + (1 # 1000000000000).
Proof.
  intros Hs Hk He Hd.
  unfold _calculate_compatibility_score.
  rewrite lit_04, lit_015, lit_005, lit_100.
  assert (C1 : 0.4 - (1 # 10000000000000000) <= rne64 0.4 <= 0.4 + (1 # 10000000000000000))
    by (split; qle_compute).
  assert (C2 : 0.15 - (1 # 10000000000000000) <= rne64 0.15 <= 0.15 + (1 # 10000000000000000))
    by (split; qle_compute).
  assert (C3 : 0.05 - (1 # 10000000000000000) <= rne64 0.05 <= 0.05 + (1 # 10000000000000000))
    by (split; qle_compute).
  set (c1 := rne64 0.4) in *. set (c2 := rne64 0.15) in *. set (c3 := rne64 0.05) in *.
  cbn [fmul fadd].
  assert (P1 : 0 <= c1 * s <= c1) by (apply Qmult_unit_bounds; [lra|assumption]).
  assert (P2 : 0 <= c1 * k <= c1) by (apply Qmult_unit_bounds; [lra|assumption]).
  assert (P3 : 0 <= c2 * e <= c2) by (apply Qmult_unit_bounds; [lra|assumption]).
  assert (P4 : 0 <= c3 * d <= c3) by (apply Qmult_unit_bounds; [lra|assumption]).
  pose proof (Qmult_unit_err _ _ _ _ C1 Hs) as M1.
  pose proof (Qmult_unit_err _ _ _ _ C1 Hk) as M2.
  pose proof (Qmult_unit_err _ _ _ _ C2 He) as M3.
  pose proof (Qmult_unit_err _ _ _ _ C3 Hd) as M4.
  fl_step (c1 * s) 1 (1 # 10000000000000000) 0%Z t1 E1.
  fl_step (c1 * k) 1 (1 # 10000000000000000) 0%Z t2 E2.
  fl_step (c2 * e) 1 (1 # 10000000000000000) 0%Z t3 E3.
  fl_step (c3 * d) 1 (1 # 10000000000000000) 0%Z t4 E4.
  cbn [fmul fadd].
  fl_step (t1 + t2) 2 (2 # 10000000000000000) 1%Z u1 E5. cbn [fmul fadd].
  fl_step (u1 + t3) 2 (2 # 10000000000000000) 1%Z u2 E6. cbn [fmul fadd].
  fl_step (u2 + t4) 2 (2 # 10000000000000000) 1%Z u3 E7. cbn [fmul fadd].
  fl_step (u3 * 100) 128 (1 # 100000000000000) 7%Z w E8.
  destruct (np_round_percent w ltac:(lra)) as (q & n & -> & Hq & Hn & Hqn & Herr).
  exists q, n. repeat split; try tauto; try lia.
  apply Qabs_Qle_condition in Herr. apply Qabs_Qle_condition. split; lra.
Qed.

End ScoreFacts.

(** C1: for sub-scores in [0,1] the compatibility score is the weighting
    formula of the specification, evaluated in binary64 arithmetic; it is a
    float [q] with [0 <= q <= 100], the nearest float to [n / 100] for an
    integer [n], and within half a unit of the second decimal (and the
    rounding of the arithmetic, below [10 ^ -12]) of the exact value of
    100 (0.4 s + 0.4 k + 0.15 e + 0.05 d). *)
Theorem compatibility_score_formula_and_range (s k e d : Q) :
  (0 <= s <= 1)%Q -> (0 <= k <= 1)%Q -> (0 <= e <= 1)%Q -> (0 <= d <= 1)%Q ->
  _calculate_compatibility_score (Fin s) (Fin k) (Fin e) (Fin d)
  = weighting_formula (Fin s) (Fin k) (Fin e) (Fin d)
  /\ exists (q : Q) (n : Z),
       _calculate_compatibility_score (Fin s) (Fin k) (Fin e) (Fin d) = Fin q
       /\ (0 <= q <= 100)%Q
       /\ (0 <= n <= 10000)%Z /\ q = rne64 (inject_Z n / 100)
       /\ (Qabs (q - 100 * (0.4 * s + 0.4 * k + 0.15 * e + 0.05 * d))
           <= 0.005 + (1 # 1000000000000))%Q.
Proof.
  intros Hs Hk He Hd. split; [apply compatibility_score_is_formula|].
  now apply compatibility_score_bounds.
Qed.

Lemma compatibility_score_formula_and_range_witness :
  _calculate_compatibility_score (Fin (1 # 2)) (Fin 1) (Fin (4 # 5)) (Fin (1 # 3))
  = weighting_formula (Fin (1 # 2)) (Fin 1) (Fin (4 # 5)) (Fin (1 # 3))
  /\ exists (q : Q) (n : Z),
       _calculate_compatibility_score (Fin (1 # 2)) (Fin 1) (Fin (4 # 5)) (Fin (1 # 3)) = Fin q
       /\ (0 <= q <= 100)%Q
       /\ (0 <= n <= 10000)%Z /\ q = rne64 (inject_Z n / 100)
       /\ (Qabs (q - 100 * (0.4 * (1 # 2) + 0.4 * 1 + 0.15 * (4 # 5) + 0.05 * (1 # 3)))
           <= 0.005 + (1 # 1000000000000))%Q.
Proof.
  apply (compatibility_score_formula_and_range (1 # 2) 1 (4 # 5) (1 # 3));
    split; vm_compute; discriminate.
Defined.




(** *** Skill coverage and education *)

Section CoverageFacts.
Context `{Interpreter}.

Lemma str_in_elem (x : list N) (l : list (list N)) : str_in x l = true <-> x ∈ l.
Proof.
  unfold str_in, str_eqb. rewrite existsb_exists. split.
  - intros (y & Hy & E). apply bool_decide_eq_true in E. subst. now apply list_elem_of_In.
  - intros Hx. exists x. split; [now apply list_elem_of_In|]. now apply bool_decide_eq_true.
Qed.

Lemma sum_of_ones {A} (l : list A) : foldr Z.add 0%Z ((fun _ => 1%Z) <$> l) = Z.of_nat (length l).
Proof. induction l as [|x l IH]; [reflexivity|]. cbn [fmap list_fmap foldr length]. lia. Qed.

(** A quotient of two counts, the first at most the second, is a float
    between 0 and 1. *)
Lemma truediv_fraction (a b : Z) :
  (0 <= a <= b)%Z -> (0 < b)%Z ->
  truediv a b = Ok (Fin (rne64 (inject_Z a / inject_Z b)))
  /\ (0 <= rne64 (inject_Z a / inject_Z b) <= 1)%Q.
Proof.
  intros Ha Hb.
  assert (Hb' : (0 < inject_Z b)%Q) by (rewrite <- (Zlt_Qlt 0); exact Hb).
  assert (Hq : (0 <= inject_Z a / inject_Z b <= 1)%Q).
  { split.
    - apply Qle_shift_div_l; [exact Hb'|]. rewrite Qmult_0_l, <- (Zle_Qle 0). lia.
    - apply Qle_shift_div_r; [exact Hb'|]. rewrite Qmult_1_l, <- Zle_Qle. lia. }
  assert (Hr : (0 <= rne64 (inject_Z a / inject_Z b) <= 1)%Q).
  { split; [apply rne64_nonneg; tauto|].
    apply Qle_trans with (rne64 1); [apply rne64_mono; tauto|]. qle_compute. }
  split; [|exact Hr]. unfold truediv.
  destruct (Z.eqb_spec b 0) as [->|_]; [lia|].
  assert (Hm : (Qabs (rne64 (inject_Z a / inject_Z b)) <= max_float)%Q).
  { rewrite Qabs_pos by tauto. apply Qle_trans with 1%Q; [tauto|]. qle_compute. }
  apply Qle_bool_iff in Hm. now rewrite Hm.
Qed.

Lemma covered_filter (cv_skills required_skills : list (list N)) :
  filter (fun skill => str_in (lower skill) cv_skills = true) required_skills
  = covered cv_skills required_skills.
Proof.
  unfold covered. induction required_skills as [|x l IH]; [reflexivity|].
  rewrite !filter_cons, IH.
  destruct (decide (str_in (lower x) cv_skills = true)) as [E|E];
    destruct (decide (lower x ∈ cv_skills)) as [E'|E']; try reflexivity;
    rewrite str_in_elem in E; contradiction.
Qed.

End CoverageFacts.

(** C4: with no required skill the skill score is 1.0 and no skill is
    missing; with at least one, the score is the number of required skills
    whose lower-cased form is among the candidate's skills divided by the
    number of required skills (as floats divide), a value in [0, 1]. *)
Theorem skill_score_is_covered_fraction `{Interpreter} (cv_skills : list (list N)) :
  (_calculate_skill_score cv_skills [] = Ok (lit 1)
   /\ _find_missing_skills cv_skills [] = [])
  /\ forall (skill : list N) (others : list (list N)),
       let required_skills := skill :: others in
       let fraction := (inject_Z (Z.of_nat (length (covered cv_skills required_skills)))
                        / inject_Z (Z.of_nat (length required_skills)))%Q in
       _calculate_skill_score cv_skills required_skills = Ok (Fin (rne64 fraction))
       /\ (0 <= rne64 fraction <= 1)%Q.
Proof.
  split; [split; reflexivity|].
  intros skill others required_skills fraction.
  unfold _calculate_skill_score, required_skills at 1.
  fold required_skills. rewrite covered_filter, sum_of_ones.
  apply truediv_fraction.
  - split; [lia|]. apply inj_le, length_filter.
  - unfold required_skills. cbn [length]. lia.
Qed.

Lemma education_score_eq `{Interpreter} (resume_text job_desc : list N) :
  _calculate_education_score resume_text job_desc
  = Ok (Fin (rne64 (inject_Z (Z.b2z (mentions_bachelor resume_text)
                              + Z.b2z (mentions_master resume_text)
                              + Z.b2z (mentions_phd resume_text)) / 3))).
Proof.
  unfold _calculate_education_score.
  destruct (mentions_bachelor resume_text), (mentions_master resume_text),
    (mentions_phd resume_text); vm_compute; reflexivity.
Qed.

(** C6: the education score is the number of the three detectors that fire
    on the resume text, divided by 3 (as floats divide): one of the four
    floats 0, 1/3, 2/3, 1. *)
Theorem education_score_is_detectors_over_three `{Interpreter} (resume_text job_desc : list N) :
  let detected := (Z.b2z (mentions_bachelor resume_text) + Z.b2z (mentions_master resume_text)
                   + Z.b2z (mentions_phd resume_text))%Z in
  _calculate_education_score resume_text job_desc = Ok (Fin (rne64 (inject_Z detected / 3)))
  /\ (_calculate_education_score resume_text job_desc = Ok (lit 0)
      \/ _calculate_education_score resume_text job_desc = Ok (lit (1 # 3))
      \/ _calculate_education_score resume_text job_desc = Ok (lit (2 # 3))
      \/ _calculate_education_score resume_text job_desc = Ok (lit 1)).
Proof.
  intros detected. split; [apply education_score_eq|].
  rewrite education_score_eq. unfold detected.
  destruct (mentions_bachelor resume_text), (mentions_master resume_text),
    (mentions_phd resume_text); vm_compute; tauto.
Qed.

(** *** Experience *)

Lemma bind_Ok {A B} (a : A) (f : A -> result B) : (Ok a ≫= f) = f a.
Proof. reflexivity. Qed.

Lemma bind_Raise {A B} (e : exn) (f : A -> result B) : (Raise e ≫= f) = Raise e.
Proof. reflexivity. Qed.

Section ExperienceFacts.
Context `{Interpreter}.
Variable self : ResumeAnalyzer.

Lemma mapM_fmap {A B C} (f : A -> result B) (g : B -> C) (l : list A) :
  mapM (fun x => y ← f x; (Ok (g y) : result C)) l
  = (bs ← mapM f l; (Ok (g <$> bs) : result (list C))).
Proof.
  induction l as [|x l IH]; [reflexivity|]. cbn [mapM].
  destruct (f x) as [y|e]; [|reflexivity]. cbn. rewrite IH.
  now destruct (mapM f l).
Qed.

Lemma mapM_ext {A B} (f g : A -> result B) (l : list A) :
  (forall x, f x = g x) -> mapM f l = mapM g l.
Proof. intros E. induction l as [|x l IH]; [reflexivity|]. cbn [mapM]. now rewrite E, IH. Qed.

Lemma sum_app (l1 l2 : list Z) :
  foldr Z.add 0%Z (l1 ++ l2) = (foldr Z.add 0 l1 + foldr Z.add 0 l2)%Z.
Proof. induction l1 as [|x l1 IH]; cbn; [reflexivity|]. rewrite IH. lia. Qed.

Lemma extract_experience_total (text : list N) :
  (experiences ← _extract_experience self text;
   Ok (foldr Z.add 0%Z (years_of <$> experiences))) = total_years self text.
Proof.
  unfold _extract_experience, total_years, duration_value.
  rewrite (mapM_fmap (fun m => int (group m 1)) duration).
  destruct (mapM _ (finditer duration_mention text)) as [values|e];
    rewrite ?bind_Ok, ?bind_Raise; [|reflexivity].
  rewrite (mapM_ext _ (fun m => y ← range_span self m; (Ok (range_years y) : result experience))).
  2: { intros m. unfold range_span. destruct (int (group m 1)); [|reflexivity].
       rewrite !bind_Ok. now destruct (if str_eqb _ _ then _ else _). }
  rewrite (mapM_fmap (range_span self) range_years).
  destruct (mapM (range_span self) (finditer range_mention text)) as [spans|e];
    rewrite ?bind_Ok, ?bind_Raise; [|reflexivity].
  rewrite fmap_app, sum_app, <- !list_fmap_compose. f_equal. f_equal; f_equal.
  - now rewrite list_fmap_id.
  - now rewrite list_fmap_id.
Qed.

Lemma required_years_positive (title : list N) : (0 <? required_years title)%Z = true.
Proof. unfold required_years. now repeat destruct (contains _ _). Qed.

Lemma experience_score_equals_formula (text title : list N) :
  _calculate_experience_score self text (PyStr title) = experience_score_formula self text title.
Proof.
  unfold experience_score_formula. rewrite <- extract_experience_total.
  unfold _calculate_experience_score.
  destruct (_extract_experience self text) as [experiences|e];
    rewrite ?bind_Ok, ?bind_Raise; [|reflexivity].
  fold (required_years title). rewrite required_years_positive. reflexivity.
Qed.

End ExperienceFacts.

(** *** The analysis *)

Lemma bind_inv {A B} (m : result A) (f : A -> result B) (b : B) :
  (m ≫= f) = Ok b -> exists a, m = Ok a /\ f a = Ok b.
Proof. destruct m as [a|e]; [|discriminate]. intros E. now exists a. Qed.

Ltac bind_inv H x E :=
  apply bind_inv in H; destruct H as (x & E & H).

Section AnalysisFacts.
Context `{Interpreter} `{LanguageModel} `{FuzzyMatcher}.
Variable self : ResumeAnalyzer.

(** What [analyze] returns, step by step. *)
Lemma analyze_inv (resume_text : list N) (job_data : gmap string pyobj) (r : AnalysisResult) :
  analyze self resume_text job_data = Ok r ->
  exists info skills required similarity skill_score experience_score education_score,
    _extract_personal_info (_clean_text resume_text) = Ok info
    /\ _extract_noun_phrases (_clean_text resume_text) = Ok skills
    /\ _extract_noun_phrases (job_desc_of job_data) = Ok required
    /\ _calculate_semantic_similarity (_clean_text resume_text) (job_desc_of job_data)
       = Ok similarity
    /\ _calculate_skill_score skills required = Ok skill_score
    /\ _calculate_experience_score self (_clean_text resume_text)
         (default (PyStr []) (job_data !! "position"%string)) = Ok experience_score
    /\ _calculate_education_score (_clean_text resume_text) (job_desc_of job_data)
       = Ok education_score
    /\ r = {| compatibility_score :=
                _calculate_compatibility_score similarity skill_score experience_score
                  education_score;
              missing_skills := _find_missing_skills skills required;
              experience_match := fge experience_score (lit 0.8);
              education_match := fge education_score (lit 0.8);
              cv_data := info;
              score_breakdown :=
                _format_score_breakdown similarity skill_score experience_score
                  education_score |}.
Proof.
  unfold analyze. fold (job_desc_of job_data). intros E.
  bind_inv E info E1. bind_inv E skills E2. bind_inv E experiences E3.
  bind_inv E experience_lines E4. bind_inv E required E5. bind_inv E similarity E6.
  bind_inv E skill_score E7. bind_inv E experience_score E8. bind_inv E education_score E9.
  rewrite extract_skills_clean in E2. unfold job_desc_of in E5.
  rewrite extract_skills_clean in E5. fold (job_desc_of job_data) in E5.
  exists info, skills, required, similarity, skill_score, experience_score, education_score.
  cbn [cv_skills personal_info] in *. repeat split; try assumption. now injection E as <-.
Qed.

End AnalysisFacts.

(** C3: on a cleaned text [_extract_section] returns the empty string for
    every section pattern, [_extract_skills] returns what
    [_extract_noun_phrases] returns, and so the skills that [analyze]
    compares are the noun phrases of the cleaned resume and of the cleaned
    job description. *)
Theorem skills_come_from_noun_phrases `{Interpreter} `{LanguageModel} `{FuzzyMatcher}
    (self : ResumeAnalyzer) (resume_text : list N) (job_data : gmap string pyobj) :
  (forall (t : list N) (section_name : regex),
     _extract_section (_clean_text t) section_name = [])
  /\ (forall t : list N,
        _extract_skills self (_clean_text t) = _extract_noun_phrases (_clean_text t))
  /\ match analyze self resume_text job_data with
     | Ok r =>
         exists skills required,
           _extract_noun_phrases (_clean_text resume_text) = Ok skills
           /\ _extract_noun_phrases (job_desc_of job_data) = Ok required
           /\ missing_skills r = _find_missing_skills skills required
     | Raise _ => True
     end.
Proof.
  split; [apply extract_section_clean|]. split; [apply extract_skills_clean|].
  destruct (analyze self resume_text job_data) as [r|e] eqn:E; [|exact I].
  apply analyze_inv in E as (info & skills & required & si & sk & ex & ed
                             & _ & E2 & E3 & _ & _ & _ & _ & ->).
  now exists skills, required.
Qed.

(** C10: in an analysis result [education_match] is true exactly when the
    three detectors fire on the resume text (the cleaned text, which is what
    [analyze] calls [resume_text]). *)
Theorem education_match_iff_all_detectors `{Interpreter} `{LanguageModel} `{FuzzyMatcher}
    (self : ResumeAnalyzer) (resume_text : list N) (job_data : gmap string pyobj)
    (r : AnalysisResult) :
  analyze self resume_text job_data = Ok r ->
  education_match r = true
  <-> mentions_bachelor (_clean_text resume_text) = true
      /\ mentions_master (_clean_text resume_text) = true
      /\ mentions_phd (_clean_text resume_text) = true.
Proof.
  intros E.
  apply analyze_inv in E as (info & skills & required & si & sk & ex & ed
                             & _ & _ & _ & _ & _ & _ & E9 & ->).
  cbn [education_match]. rewrite education_score_eq in E9. injection E9 as <-.
  destruct (mentions_bachelor _), (mentions_master _), (mentions_phd _);
    vm_compute; intuition discriminate.
Qed.

Lemma education_match_iff_all_detectors_witness :
  exists r : AnalysisResult,
    @analyze basic_interpreter blank_model blank_matcher (analyzer_of_year 2026)
      degrees_resume sample_job = Ok r
    /\ (education_match r = true
        <-> @mentions_bachelor basic_interpreter (_clean_text degrees_resume) = true
            /\ @mentions_master basic_interpreter (_clean_text degrees_resume) = true
            /\ @mentions_phd basic_interpreter (_clean_text degrees_resume) = true).
Proof.
  eexists. split; [vm_compute; reflexivity|].
  apply (@education_match_iff_all_detectors basic_interpreter blank_model blank_matcher
           (analyzer_of_year 2026) degrees_resume sample_job).
  vm_compute. reflexivity.
Defined.

(** *** Texts on which the experience score has no value *)

Lemma clean_long_duration : _clean_text long_duration = long_duration.
Proof. vm_compute. reflexivity. Qed.

Lemma total_years_long_duration (self : ResumeAnalyzer) :
  @total_years basic_interpreter self long_duration = Ok (10 ^ 400)%Z.
Proof. vm_compute. reflexivity. Qed.

Lemma experience_score_long_duration (self : ResumeAnalyzer) (title : list N) :
  @_calculate_experience_score basic_interpreter self long_duration (PyStr title)
  = Raise OverflowError.
Proof.
  rewrite experience_score_equals_formula. unfold experience_score_formula.
  rewrite total_years_long_duration, bind_Ok. unfold required_years.
  destruct (contains _ _); [|destruct (contains _ _)]; vm_compute; reflexivity.
Qed.

Lemma experience_score_long_s (self : ResumeAnalyzer) (position : pyobj) :
  @_calculate_experience_score basic_interpreter self long_s_range position = Raise ValueError.
Proof. vm_compute. reflexivity. Qed.

Lemma experience_score_not_a_string `{Interpreter} (self : ResumeAnalyzer) (text repr : list N) :
  exists e, _calculate_experience_score self text (PyOther repr) = Raise e.
Proof.
  unfold _calculate_experience_score.
  destruct (_extract_experience self text) as [experiences|e]; [|now exists e].
  now exists AttributeError.
Qed.

Ltac raise_or_step :=
  lazymatch goal with
  | |- exists e, (?m ≫= _) = Raise e =>
      let a := fresh "a" in
      let e := fresh "e" in
      destruct m as [a|e]; [rewrite bind_Ok | exists e; apply bind_Raise]
  end.

(** C2: for a position that is a string the experience score is the value
    of min(total / required, 1.0) wherever that expression has a value, and
    the scenario of the specification gives 0.8 and a true [experience_match];
    but there are resume texts for which the expression has no value and
    the method raises: a duration of 401 digits ([OverflowError], the
    quotient is beyond the floats) and the range 2018-present written with
    the long s U+017F ([ValueError], [re.I] takes it for an s, [lower] does
    not, and [int] is given the word). *)
Theorem experience_score_formula_and_failures :
  (forall (interpreter : Interpreter) (self : ResumeAnalyzer) (text title : list N),
     _calculate_experience_score self text (PyStr title)
     = experience_score_formula self text title)
  /\ (forall self : ResumeAnalyzer,
        @_calculate_experience_score basic_interpreter self (py "2018-2022") (PyStr (py "Senior"))
        = Ok (lit 0.8)
        /\ @_calculate_experience_score basic_interpreter self sample_resume
             (PyStr (py "Senior Engineer")) = Ok (lit 0.8)
        /\ fge (lit 0.8) (lit 0.8) = true)
  /\ (forall (self : ResumeAnalyzer) (title : list N),
        @_calculate_experience_score basic_interpreter self long_duration (PyStr title)
        = Raise OverflowError)
  /\ (forall (self : ResumeAnalyzer) (title : list N),
        @_calculate_experience_score basic_interpreter self long_s_range (PyStr title)
        = Raise ValueError).
Proof.
  split; [intros; apply experience_score_equals_formula|].
  split; [intros self; repeat split; vm_compute; reflexivity|].
  split; [apply experience_score_long_duration|].
  intros self title. apply experience_score_long_s.
Qed.

(** C7: [analyze] does not complete on every resume text.  On the text
    with a duration of 401 digits it raises [OverflowError] (here with a
    pipeline that finds nothing); for every language model, matcher, analyzer
    and job data it raises on that text and on the text with the range
    written with the long s; and for every text it raises when the position
    of the job data is not a string. *)
Theorem analyze_raises `{LanguageModel} `{FuzzyMatcher}
    (self : ResumeAnalyzer) (job_data : gmap string pyobj) :
  @analyze basic_interpreter blank_model blank_matcher (analyzer_of_year 2026)
    long_duration sample_job = Raise OverflowError
  /\ (exists e, @analyze basic_interpreter _ _ self long_duration job_data = Raise e)
  /\ (exists e, @analyze basic_interpreter _ _ self long_s_range job_data = Raise e)
  /\ forall (interpreter : Interpreter) (resume_text repr : list N),
       exists e, analyze self resume_text (<[ "position"%string := PyOther repr ]> job_data)
                 = Raise e.
Proof.
  split; [vm_compute; reflexivity|]. split; [|split].
  - unfold analyze. rewrite clean_long_duration.
    do 7 raise_or_step.
    destruct (default (PyStr []) (job_data !! "position"%string)) as [title|repr].
    + rewrite experience_score_long_duration. now exists OverflowError.
    + destruct (@experience_score_not_a_string basic_interpreter self long_duration repr) as [e ->].
      now exists e.
  - unfold analyze. replace (_clean_text long_s_range) with long_s_range by reflexivity.
    do 7 raise_or_step.
    rewrite experience_score_long_s. now exists ValueError.
  - intros interpreter resume_text repr. unfold analyze. rewrite lookup_insert_eq. cbn [from_option id].
    do 7 raise_or_step.
    destruct (experience_score_not_a_string self (_clean_text resume_text) repr) as [e ->].
    now exists e.
Qed.

(** *** The skill vocabulary *)

Lemma str_ltb_irrefl (a : list N) : str_ltb a a = false.
Proof.
  induction a as [|x a IH]; [reflexivity|]. cbn. now rewrite N.ltb_irrefl, N.eqb_refl, IH.
Qed.

Lemma str_ltb_trans (a b c : list N) :
  str_ltb a b = true -> str_ltb b c = true -> str_ltb a c = true.
Proof.
  revert b c. induction a as [|x a IH]; intros [|y b] [|z c]; cbn; try discriminate; try easy.
  rewrite !orb_true_iff, !andb_true_iff, !N.ltb_lt, !N.eqb_eq.
  intros [Hxy|[-> Hab]] [Hyz|[-> Hbc]].
  - left. lia.
  - now left.
  - now left.
  - right. split; [reflexivity|]. now apply (IH b).
Qed.

Lemma str_ltb_total (a b : list N) : str_ltb a b = true \/ a = b \/ str_ltb b a = true.
Proof.
  revert b. induction a as [|x a IH]; intros [|y b]; cbn; auto.
  rewrite !orb_true_iff, !andb_true_iff, !N.ltb_lt, !N.eqb_eq.
  destruct (N.lt_total x y) as [Hlt|[->|Hgt]]; [now auto| |now auto].
  destruct (IH b) as [Hab|[->|Hba]]; auto.
Qed.

Lemma str_leb_total (a b : list N) : str_leb a b = true \/ str_leb b a = true.
Proof.
  unfold str_leb. destruct (str_ltb b a) eqn:E; [|now left]. right.
  destruct (str_ltb a b) eqn:E'; [|reflexivity].
  pose proof (str_ltb_trans _ _ _ E E') as Hbb. now rewrite str_ltb_irrefl in Hbb.
Qed.

Lemma str_leb_trans (a b c : list N) :
  str_leb a b = true -> str_leb b c = true -> str_leb a c = true.
Proof.
  unfold str_leb. rewrite !negb_true_iff. intros Hba Hcb.
  destruct (str_ltb c a) eqn:Hca; [|reflexivity].
  destruct (str_ltb_total a b) as [Hab|[->|Hba']]; [|congruence|congruence].
  pose proof (str_ltb_trans _ _ _ Hca Hab). congruence.
Qed.

Lemma by_length_then_text_order (x y : list N) :
  by_length_then_text x y = true <-> vocabulary_order x y.
Proof.
  unfold by_length_then_text, vocabulary_order.
  now rewrite orb_true_iff, andb_true_iff, Nat.ltb_lt, Nat.eqb_eq.
Qed.

Lemma vocabulary_order_total (x y : list N) : vocabulary_order x y \/ vocabulary_order y x.
Proof.
  unfold vocabulary_order.
  destruct (Nat.lt_total (length x) (length y)) as [Hlt|[Heq|Hgt]]; [now auto| |now auto].
  destruct (str_leb_total x y); [left|right]; right; auto.
Qed.

Lemma vocabulary_order_trans (x y z : list N) :
  vocabulary_order x y -> vocabulary_order y z -> vocabulary_order x z.
Proof.
  unfold vocabulary_order. intros [Hxy|[Exy Lxy]] [Hyz|[Eyz Lyz]].
  - left. lia.
  - left. lia.
  - left. lia.
  - right. split; [lia|]. now apply (str_leb_trans x y z).
Qed.

Section SortFacts.
Context {A : Type} (leb : A -> A -> bool) (R : A -> A -> Prop).
Hypothesis leb_R : forall x y, leb x y = true <-> R x y.
Hypothesis R_total : forall x y, R x y \/ R y x.
Hypothesis R_trans : forall x y z, R x y -> R y z -> R x z.

Lemma insert_sorted_perm (x : A) (l : list A) : Permutation (insert_sorted leb x l) (x :: l).
Proof.
  induction l as [|y l IH]; cbn; [reflexivity|].
  destruct (leb x y); [reflexivity|]. rewrite IH. apply perm_swap.
Qed.

Lemma sorted_perm (l : list A) : Permutation (sorted leb l) l.
Proof.
  induction l as [|x l IH]; cbn; [reflexivity|].
  unfold sorted in IH. now rewrite insert_sorted_perm, IH.
Qed.

Lemma insert_sorted_sorted (x : A) (l : list A) :
  StronglySorted R l -> StronglySorted R (insert_sorted leb x l).
Proof.
  induction 1 as [|y l Hl IH Hy]; cbn; [repeat constructor|].
  destruct (leb x y) eqn:E.
  - apply leb_R in E. constructor; [now constructor|].
    constructor; [exact E|]. eapply Forall_impl; [exact Hy|]. intros z. now apply R_trans.
  - constructor; [exact IH|].
    assert (Ryx : R y x).
    { destruct (R_total x y) as [Hxy|Hyx]; [|exact Hyx]. apply leb_R in Hxy. congruence. }
    rewrite (insert_sorted_perm x l). now constructor.
Qed.

Lemma sorted_sorted (l : list A) : StronglySorted R (sorted leb l).
Proof.
  induction l as [|x l IH]; cbn; [constructor|]. now apply insert_sorted_sorted.
Qed.

End SortFacts.

Lemma unique_spec (l : list (list N)) :
  NoDup (unique l) /\ forall x, x ∈ unique l <-> x ∈ l.
Proof.
  unfold unique.
  assert (G : forall seen,
             NoDup seen ->
             NoDup (fold_left (fun seen x => if str_in x seen then seen else seen ++ [x]) l seen)
             /\ forall x, x ∈ fold_left (fun seen x => if str_in x seen then seen else seen ++ [x])
                               l seen <-> x ∈ seen \/ x ∈ l).
  { induction l as [|y l IH]; intros seen Hs; cbn [fold_left].
    - split; [exact Hs|]. intros x. rewrite elem_of_nil. tauto.
    - destruct (str_in y seen) eqn:E.
      + apply str_in_elem in E. destruct (IH seen Hs) as [Hn Hx]. split; [exact Hn|].
        intros x. rewrite Hx, elem_of_cons. split; [tauto|]. intros [?|[->|?]]; tauto.
      + assert (Hy : y ∉ seen) by (rewrite <- str_in_elem; congruence).
        destruct (IH (seen ++ [y])) as [Hn Hx].
        { apply NoDup_app. split; [exact Hs|]. split; [|apply NoDup_singleton].
          intros x Hxs Hxy. apply list_elem_of_singleton in Hxy. now subst. }
        split; [exact Hn|]. intros x.
        rewrite Hx, elem_of_app, list_elem_of_singleton, elem_of_cons. tauto. }
  destruct (G [] (NoDup_nil_2)) as [Hn Hx]. split; [exact Hn|].
  intros x. rewrite Hx, elem_of_nil. tauto.
Qed.

Lemma perform_all_known_skills `{Interpreter} `{LanguageModel} `{FuzzyMatcher}
    (self : ResumeAnalyzer) (calls : list call) :
  known_skills (perform_all self calls) = known_skills self.
Proof.
  revert self. induction calls as [|c calls IH]; intros self; [reflexivity|].
  cbn [perform_all]. now rewrite IH.
Qed.

Lemma load_skills_spec `{Interpreter} (df : DataFrame) :
  (forall s : list N, lower (lower s) = lower s) ->
  (forall s : list N, lower s = [] -> s = []) ->
  (forall cell : list N, Some cell ∈ mjoin df -> cell <> []) ->
  exists skills,
    _load_skills (Ok df) = Ok skills
    /\ NoDup skills
    /\ Forall (fun s => lower s = s /\ s <> []) skills
    /\ StronglySorted vocabulary_order skills
    /\ forall s, s ∈ skills <-> exists cell, Some cell ∈ mjoin df /\ s = lower cell.
Proof.
  intros Hidem Hne Hcells. eexists. split; [reflexivity|].
  set (cells := omap id (mjoin df)).
  assert (Hin : forall s, s ∈ sorted by_length_then_text (unique (lower <$> cells))
                          <-> exists cell, Some cell ∈ mjoin df /\ s = lower cell).
  { intros s. rewrite (sorted_perm by_length_then_text (unique (lower <$> cells))).
    rewrite (proj2 (unique_spec _)), list_elem_of_fmap. unfold cells. split.
    - intros (c & -> & Hc). apply list_elem_of_omap in Hc as (o & Ho & Eo).
      cbn in Eo. subst o. now exists c.
    - intros (c & Hc & ->). exists c. split; [reflexivity|].
      apply list_elem_of_omap. now exists (Some c). }
  split; [|split; [|split; [|exact Hin]]].
  - rewrite (sorted_perm by_length_then_text). apply unique_spec.
  - apply Forall_forall. intros s Hs. apply Hin in Hs as (c & Hc & ->).
    split; [apply Hidem|]. intros E. apply Hne in E. now apply (Hcells c).
  - apply (sorted_sorted by_length_then_text vocabulary_order).
    + apply by_length_then_text_order.
    + apply vocabulary_order_total.
    + apply vocabulary_order_trans.
Qed.

Lemma basic_lower_idempotent (s : list N) : basic_lower (basic_lower s) = basic_lower s.
Proof.
  unfold basic_lower. rewrite <- list_fmap_compose. apply list_fmap_ext. intros _ c _. cbn.
  destruct (N.eqb_spec c 8490) as [->|Hc]; [reflexivity|].
  unfold ascii_lower.
  destruct ((65 <=? c)%N && (c <=? 90)%N) eqn:E.
  - apply andb_prop in E as [E1 E2]. apply N.leb_le in E1, E2.
    destruct (N.eqb_spec (c + 32) 8490) as [E|_]; [lia|].
    destruct (N.leb_spec (c + 32) 90); [lia|]. now rewrite andb_false_r.
  - destruct (N.eqb_spec c 8490); [contradiction|]. now rewrite E.
Qed.

Lemma basic_lower_nonempty (s : list N) : basic_lower s = [] -> s = [].
Proof. now destruct s. Qed.

(** C9: the vocabulary that [__init__] builds from a frame is free of
    duplicates, its strings are lower-case and not empty, it is sorted by
    descending length and then lexicographically, it holds exactly the
    lower-cased cells of the frame, and no sequence of calls of [analyze],
    [extract_text] or the helpers changes it.  The hypotheses are two laws of
    [str.lower] and what [read_csv] guarantees: an empty field is NaN. *)
Theorem vocabulary_invariant `{Interpreter} `{LanguageModel} `{FuzzyMatcher}
    (df : DataFrame) (year : Z) (calls : list call) :
  (forall s : list N, lower (lower s) = lower s) ->
  (forall s : list N, lower s = [] -> s = []) ->
  (forall cell : list N, Some cell ∈ mjoin df -> cell <> []) ->
  exists self : ResumeAnalyzer,
    __init__ (Ok tt) (Some (Ok df)) year = Ok self
    /\ known_skills (perform_all self calls) = known_skills self
    /\ NoDup (known_skills self)
    /\ Forall (fun s => lower s = s /\ s <> []) (known_skills self)
    /\ StronglySorted vocabulary_order (known_skills self)
    /\ forall s, s ∈ known_skills self <-> exists cell, Some cell ∈ mjoin df /\ s = lower cell.
Proof.
  intros Hidem Hne Hcells.
  destruct (load_skills_spec df Hidem Hne Hcells) as (skills & E & Hn & Hl & Hs & Hin).
  unfold __init__. rewrite E, bind_Ok. eexists. split; [reflexivity|].
  split; [apply perform_all_known_skills|]. cbn [known_skills]. auto.
Qed.

Lemma vocabulary_invariant_witness :
  exists self : ResumeAnalyzer,
    @__init__ basic_interpreter (Ok tt) (Some (Ok sample_frame)) 2026 = Ok self
    /\ known_skills (@perform_all basic_interpreter blank_model blank_matcher self
                       [call_analyze sample_resume sample_job; call_extract_skills sample_resume])
       = known_skills self
    /\ NoDup (known_skills self)
    /\ Forall (fun s => basic_lower s = s /\ s <> []) (known_skills self)
    /\ StronglySorted vocabulary_order (known_skills self)
    /\ forall s, s ∈ known_skills self
                 <-> exists cell, Some cell ∈ mjoin sample_frame /\ s = basic_lower cell.
Proof.
  apply (@vocabulary_invariant basic_interpreter blank_model blank_matcher sample_frame 2026).
  - apply basic_lower_idempotent.
  - apply basic_lower_nonempty.
  - intros cell Hin ->.
    assert (D : bool_decide (Some [] ∈ mjoin sample_frame) = false) by (vm_compute; reflexivity).
    apply bool_decide_eq_false in D. contradiction.
Defined.

(** *** The matches of a pattern *)

Lemma star_loop_S (body : continuation -> continuation) (greedy : bool) (k : continuation)
    (fuel : nat) (c : cursor) (g : captures) :
  star_loop body greedy k (S fuel) c g
  = let again c' g' :=
      if (length (rest c') <? length (rest c))%nat
      then star_loop body greedy k fuel c' g' else None in
    if greedy then
      match body again c g with
      | Some m => Some m
      | None => k c g
      end
    else
      match k c g with
      | Some m => Some m
      | None => body again c g
      end.
Proof. reflexivity. Qed.

(** What [run] finds is a match of the pattern, followed by the rest of the
    search. *)
Lemma star_loop_sound (r : regex) (greedy : bool) (k : continuation) (fuel : nat) :
  (forall k c g m, run r k c g = Some m ->
     exists c' g', derives r c c' /\ k c' g' = Some m) ->
  forall c g m, star_loop (run r) greedy k fuel c g = Some m ->
    exists c' g', derives (Star greedy r) c c' /\ k c' g' = Some m.
Proof.
  intros IHr. induction fuel as [|fuel IH]; intros c g m Hm.
  - exists c, g. split; [constructor|exact Hm].
  - rewrite star_loop_S in Hm. cbv zeta in Hm.
    set (again := fun c' g' =>
        if (length (rest c') <? length (rest c))%nat
        then star_loop (run r) greedy k fuel c' g' else None) in Hm.
    assert (Round : forall m, run r again c g = Some m ->
              exists c' g', derives (Star greedy r) c c' /\ k c' g' = Some m).
    { intros m' Hr. apply IHr in Hr as (c1 & g1 & D1 & Ha). unfold again in Ha.
      destruct (length (rest c1) <? length (rest c))%nat; [|discriminate].
      apply IH in Ha as (c2 & g2 & D2 & Hk).
      exists c2, g2. split; [|exact Hk]. econstructor 7; eassumption. }
    destruct greedy.
    + destruct (run r again c g) as [m'|] eqn:E.
      * injection Hm as <-. apply Round. reflexivity.
      * exists c, g. split; [constructor|exact Hm].
    + destruct (k c g) as [m'|] eqn:E.
      * injection Hm as <-. exists c, g. split; [constructor|exact E].
      * apply Round, Hm.
Qed.

Lemma run_sound (r : regex) :
  forall k c g m, run r k c g = Some m ->
    exists c' g', derives r c c' /\ k c' g' = Some m.
Proof.
  induction r as [p| |r1 IH1 r2 IH2|r1 IH1 r2 IH2|greedy r IH|i r IH|a|r IH];
    intros k c g m Hm; cbn in Hm.
  - destruct c as [q [|x t]]; cbn in Hm; [discriminate|].
    destruct (p x) eqn:E; [|discriminate].
    eexists _, g. split; [constructor; exact E|exact Hm].
  - exists c, g. split; [constructor|exact Hm].
  - apply IH1 in Hm as (c1 & g1 & D1 & Hm). apply IH2 in Hm as (c2 & g2 & D2 & Hm).
    exists c2, g2. split; [econstructor; eassumption|exact Hm].
  - destruct (run r1 k c g) as [m'|] eqn:E.
    + injection Hm as <-. apply IH1 in E as (c' & g' & D & Hk).
      exists c', g'. split; [apply derives_Alt_l, D|exact Hk].
    + apply IH2 in Hm as (c' & g' & D & Hk).
      exists c', g'. split; [apply derives_Alt_r, D|exact Hk].
  - eapply star_loop_sound; eassumption.
  - apply IH in Hm as (c' & g' & D & Hk).
    exists c', ((i, between c c') :: g'). split; [constructor; exact D|exact Hk].
  - destruct (a (prev c) (rest c)) eqn:E; [|discriminate].
    exists c, g. split; [constructor; exact E|exact Hm].
  - destruct (run r accept c g) as [[c1 g1]|] eqn:E; [|discriminate].
    apply IH in E as (c' & g' & D & _).
    exists c, g1. split; [econstructor; exact D|exact Hm].
Qed.

(** A match goes forward in the text: it ends at a later position of the
    same text. *)
Lemma derives_forward (r : regex) (c c' : cursor) :
  derives r c c' ->
  forall pre, prev c = last pre ->
    exists w, rest c = w ++ rest c' /\ prev c' = last (pre ++ w).
Proof.
  induction 1 as [p q x t Hp|c|r1 r2 c c1 c2 _ IH1 _ IH2|r1 r2 c c' _ IH|r1 r2 c c' _ IH
                 |greedy r c|greedy r c c1 c2 _ IH1 _ IH2|i r c c' _ IH|a c Ha|r c c1 _ _];
    intros pre Hpre; cbn in *.
  - exists [x]. split; [reflexivity|]. now rewrite last_snoc.
  - exists []. now rewrite app_nil_r.
  - destruct (IH1 pre Hpre) as (w1 & E1 & P1).
    destruct (IH2 (pre ++ w1) P1) as (w2 & E2 & P2).
    exists (w1 ++ w2). rewrite E1, E2. split; [now rewrite app_assoc|].
    now rewrite app_assoc.
  - apply IH, Hpre.
  - apply IH, Hpre.
  - exists []. now rewrite app_nil_r.
  - destruct (IH1 pre Hpre) as (w1 & E1 & P1).
    destruct (IH2 (pre ++ w1) P1) as (w2 & E2 & P2).
    exists (w1 ++ w2). rewrite E1, E2. split; [now rewrite app_assoc|].
    now rewrite app_assoc.
  - apply IH, Hpre.
  - exists []. now rewrite app_nil_r.
  - exists []. now rewrite app_nil_r.
Qed.

Lemma derives_position (r : regex) (pre post : list N) (c' : cursor) :
  derives r (position pre post) c' ->
  exists w post', post = w ++ post' /\ c' = position (pre ++ w) post'.
Proof.
  intros D. destruct (derives_forward _ _ _ D pre eq_refl) as (w & E & P).
  exists w, (rest c'). split; [exact E|]. destruct c' as [q t]. cbn in *. now subst q.
Qed.

Lemma between_position (pre w post : list N) :
  between (position pre (w ++ post)) (position (pre ++ w) post) = w.
Proof.
  unfold between. cbn. rewrite length_app.
  replace (length w + length post - length post)%nat with (length w) by lia.
  apply take_app_length.
Qed.

(** A match found at a position: the text it covers and where it ends. *)
Lemma match_at_sound (r : regex) (pre post : list N) (c' : cursor) (m : rmatch) :
  match_at r (position pre post) = Some (c', m) ->
  exists w post', post = w ++ post' /\ c' = position (pre ++ w) post' /\ group0 m = w
    /\ derives r (position pre post) c'.
Proof.
  unfold match_at. intros Hm.
  destruct (run r accept (position pre post) []) as [[c1 g1]|] eqn:E; [|discriminate].
  inversion Hm; subst c' m; clear Hm.
  apply run_sound in E as (c2 & g2 & D & Ha). inversion Ha; subst c2 g2; clear Ha.
  destruct (derives_position _ _ _ _ D) as (w & post' & -> & ->).
  exists w, post'. repeat split; [|exact D]. cbn [group0]. apply between_position.
Qed.

(** *** The matches of a scan *)

Lemma scan_S (fuel : nat) (r : regex) (c : cursor) :
  scan (S fuel) r c
  = match match_at r c with
    | Some (c', {| group0 := x :: t; groups := g |}) =>
        Hit {| group0 := x :: t; groups := g |} :: scan fuel r c'
    | found =>
        from_option (fun cm => [Hit (snd cm)]) [] found
        ++ match rest c with
           | x :: t => Text x :: scan fuel r {| prev := Some x; rest := t |}
           | [] => []
           end
    end.
Proof. reflexivity. Qed.

Lemma position_next (pre : list N) (x : N) (t : list N) :
  {| prev := Some x; rest := t |} = position (pre ++ [x]) t.
Proof. unfold position. now rewrite last_snoc. Qed.

Lemma finditer_hits (r : regex) (s : list N) :
  finditer r s = hits (scan (S (length s)) r (position [] s)).
Proof. reflexivity. Qed.

(** Every match of a scan was found by [match_at] at a position of the
    text. *)
Lemma scan_sound (r : regex) (fuel : nat) :
  forall pre post m, m ∈ hits (scan fuel r (position pre post)) ->
    exists l w post' c', post = l ++ w ++ post' /\ group0 m = w
      /\ match_at r (position (pre ++ l) (w ++ post')) = Some (c', m).
Proof.
  induction fuel as [|fuel IH]; intros pre post m Hm.
  - cbn in Hm. now apply elem_of_nil in Hm.
  - rewrite scan_S in Hm.
    assert (Step : m ∈ hits (match post with
                             | x :: t => Text x :: scan fuel r {| prev := Some x; rest := t |}
                             | [] => []
                             end) ->
              exists l w post' c', post = l ++ w ++ post' /\ group0 m = w
                /\ match_at r (position (pre ++ l) (w ++ post')) = Some (c', m)).
    { destruct post as [|x t]; [intros Hn; now apply elem_of_nil in Hn|].
      cbn [hits omap list_omap]. fold (hits (scan fuel r {| prev := Some x; rest := t |})).
      rewrite (position_next pre). intros Hn.
      apply IH in Hn as (l & w & post' & c' & -> & Hw & Hat).
      exists (x :: l), w, post', c'. repeat split; [exact Hw|].
      now rewrite <- app_assoc in Hat. }
    destruct (match_at r (position pre post)) as [[c' [w0 g0]]|] eqn:E.
    + pose proof (match_at_sound _ _ _ _ _ E) as (w & post' & -> & -> & Hw & _).
      cbn [group0] in Hw. subst w0.
      assert (Here : exists l w1 post1 c1, w ++ post' = l ++ w1 ++ post1
                /\ group0 {| group0 := w; groups := g0 |} = w1
                /\ match_at r (position (pre ++ l) (w1 ++ post1))
                   = Some (c1, {| group0 := w; groups := g0 |})).
      { exists [], w, post', (position (pre ++ w) post'). rewrite app_nil_r.
        repeat split. exact E. }
      destruct w as [|x t].
      * cbn [from_option snd] in Hm. unfold hits in Hm. rewrite omap_app in Hm.
        apply elem_of_app in Hm as [Hm|Hm].
        -- cbn in Hm. apply list_elem_of_singleton in Hm. subst m. exact Here.
        -- apply Step, Hm.
      * cbn [hits omap list_omap] in Hm. apply elem_of_cons in Hm as [->|Hm]; [exact Here|].
        fold (hits (scan fuel r (position (pre ++ x :: t) post'))) in Hm.
        apply IH in Hm as (l & w & post1 & c1 & -> & Hw & Hat).
        exists ((x :: t) ++ l), w, post1, c1. repeat split; [now rewrite <- app_assoc|exact Hw|].
        now rewrite <- app_assoc in Hat.
    + cbn [from_option app] in Hm. apply Step, Hm.
Qed.

Lemma finditer_sound (r : regex) (s : list N) (m : rmatch) :
  m ∈ finditer r s ->
  exists pre w post c', s = pre ++ w ++ post /\ group0 m = w
    /\ match_at r (position pre (w ++ post)) = Some (c', m).
Proof. rewrite finditer_hits. intros Hm. apply (scan_sound r _ [] s m Hm). Qed.

(** A match covers a part of the text, and the pattern derives it there. *)
Lemma finditer_derives (r : regex) (s : list N) (m : rmatch) :
  m ∈ finditer r s ->
  exists pre post, s = pre ++ group0 m ++ post
    /\ derives r (position pre (group0 m ++ post)) (position (pre ++ group0 m) post).
Proof.
  intros Hm. apply finditer_sound in Hm as (pre & w & post & c' & Hs & Hg & Hat).
  exists pre, post. rewrite Hg. split; [exact Hs|].
  pose proof (match_at_sound _ _ _ _ _ Hat) as (w' & post' & E & Hc & Hw & D).
  rewrite Hg in Hw. subst w' c'. apply app_inv_head in E. now subst post'.
Qed.

Lemma search_elem (r : regex) (s : list N) (m : rmatch) :
  search r s = Some m -> m ∈ finditer r s.
Proof.
  unfold search. destruct (finditer r s) as [|m0 l]; [discriminate|].
  cbn. intros [= ->]. apply elem_of_cons. now left.
Qed.

(** A scan finds nothing exactly when the pattern matches at no position. *)
Lemma scan_no_hit (r : regex) (fuel : nat) :
  forall pre post, (length post < fuel)%nat ->
    hits (scan fuel r (position pre post)) = []
    <-> forall l1 l2, post = l1 ++ l2 -> match_at r (position (pre ++ l1) l2) = None.
Proof.
  induction fuel as [|fuel IH]; intros pre post Hf; [lia|].
  rewrite scan_S. split.
  - intros Hn l1 l2 ->.
    destruct (match_at r (position pre (l1 ++ l2))) as [[c' [[|x t] g0]]|] eqn:E;
      try discriminate Hn.
    cbn [from_option app] in Hn. destruct l1 as [|x l1].
    + now rewrite app_nil_r.
    + cbn [rest position app] in Hn. cbn [hits omap list_omap] in Hn.
      fold (hits (scan fuel r {| prev := Some x; rest := l1 ++ l2 |})) in Hn.
      rewrite (position_next pre) in Hn.
      cbn in Hf. rewrite (IH (pre ++ [x]) (l1 ++ l2) ltac:(lia)) in Hn.
      specialize (Hn l1 l2 eq_refl). now rewrite <- app_assoc in Hn.
  - intros Hn. pose proof (Hn [] post eq_refl) as E. rewrite app_nil_r in E. rewrite E.
    cbn [from_option app]. destruct post as [|x t]; [reflexivity|].
    cbn [rest position]. cbn [hits omap list_omap].
    fold (hits (scan fuel r {| prev := Some x; rest := t |})).
    rewrite (position_next pre). cbn in Hf. apply IH; [lia|].
    intros l1 l2 ->. specialize (Hn (x :: l1) l2 eq_refl). now rewrite <- app_assoc.
Qed.

Lemma search_None (r : regex) (s : list N) :
  search r s = None
  <-> forall pre post, s = pre ++ post -> match_at r (position pre post) = None.
Proof.
  unfold search. rewrite finditer_hits.
  rewrite <- (scan_no_hit r (S (length s)) [] s ltac:(lia)).
  destruct (hits _); cbn; split; intros; congruence.
Qed.

Lemma search_Some (r : regex) (s : list N) :
  is_Some (search r s)
  <-> exists pre post, s = pre ++ post /\ is_Some (match_at r (position pre post)).
Proof.
  split.
  - intros [m Hm]. apply search_elem, finditer_sound in Hm as (pre & w & post & c' & -> & _ & Hat).
    exists pre, (w ++ post). split; [reflexivity|]. rewrite Hat. eauto.
  - intros (pre & post & -> & [cm Hat]).
    destruct (search r (pre ++ post)) as [m|] eqn:E; [eauto|].
    rewrite search_None in E. rewrite (E pre post eq_refl) in Hat. discriminate.
Qed.

(** A pattern of one character class and a literal, at a position *)
Lemma match_at_Chr (p : N -> bool) (c : cursor) :
  is_Some (match_at (Chr p) c) <-> from_option p false (head (rest c)) = true.
Proof.
  unfold match_at. cbn. destruct (rest c) as [|x t]; cbn.
  - split; [intros [? ?]; discriminate|discriminate].
  - destruct (p x); cbn; split; intros; eauto; try discriminate.
    destruct H as [? ?]; discriminate.
Qed.

Lemma run_Lit (s : list N) (k : continuation) (c : cursor) (g : captures) :
  run (Lit N.eqb s) k c g
  = if startswith s (rest c)
    then k {| prev := last (from_option (fun x => [x]) [] (prev c) ++ s);
              rest := drop (length s) (rest c) |} g
    else None.
Proof.
  revert c; induction s as [|x s IH]; intros [q t]; cbn [Lit run rest prev startswith].
  - rewrite app_nil_r. cbn. now destruct q.
  - destruct t as [|y t]; [reflexivity|].
    destruct (N.eqb_spec x y) as [->|NE]; cbn [andb]; [|reflexivity].
    rewrite IH. cbn [rest prev from_option length drop].
    destruct (startswith s t); [|reflexivity].
    f_equal. f_equal. destruct q; cbn [from_option app]; [now rewrite last_cons_cons|reflexivity].
Qed.

Lemma match_at_Lit (s : list N) (c : cursor) :
  is_Some (match_at (Lit N.eqb s) c) <-> startswith s (rest c) = true.
Proof.
  unfold match_at. rewrite run_Lit. destruct (startswith s (rest c)); cbn.
  - split; eauto.
  - split; [intros [? ?]; discriminate|discriminate].
Qed.

Lemma match_at_Alt (r1 r2 : regex) (c : cursor) :
  is_Some (match_at (Alt r1 r2) c) <-> is_Some (match_at r1 c) \/ is_Some (match_at r2 c).
Proof.
  unfold match_at. cbn [run].
  destruct (run r1 accept c []) as [[c1 g1]|], (run r2 accept c []) as [[c2 g2]|]; cbn;
    split; intros; eauto; destruct H as [[? ?]|[? ?]]; discriminate.
Qed.

(** [needle in haystack] and the positions of the haystack *)
Lemma contains_spec (needle haystack : list N) :
  contains needle haystack = true
  <-> exists pre post, haystack = pre ++ post /\ startswith needle post = true.
Proof.
  induction haystack as [|x t IH]; cbn [contains].
  - rewrite orb_false_r. split.
    + intros Hs. now exists [], [].
    + intros (pre & post & E & Hs). symmetry in E. apply app_eq_nil in E as [-> ->]. exact Hs.
  - rewrite orb_true_iff, IH. split.
    + intros [Hs|(pre & post & -> & Hs)].
      * now exists [], (x :: t).
      * now exists (x :: pre), post.
    + intros ([|y pre] & post & E & Hs).
      * cbn in E. subst post. now left.
      * injection E as -> ->. right. now exists pre, post.
Qed.

Lemma startswith_spec (needle s : list N) :
  startswith needle s = true <-> exists post, s = needle ++ post.
Proof.
  revert s; induction needle as [|x needle IH]; intros s; cbn [startswith].
  - split; [now exists s|reflexivity].
  - destruct s as [|y s]; [split; [discriminate|intros [? ?]; discriminate]|].
    rewrite andb_true_iff, N.eqb_eq, IH. split.
    + intros [-> [post ->]]. now exists post.
    + intros [post E]. injection E as -> ->. split; [reflexivity|now exists post].
Qed.

Lemma contains_substring (needle haystack : list N) :
  contains needle haystack = true <-> substring needle haystack.
Proof.
  rewrite contains_spec. unfold substring. split.
  - intros (pre & post & -> & Hs). apply startswith_spec in Hs as [post' ->]. now exists pre, post'.
  - intros (pre & post & ->). exists pre, (needle ++ post). split; [reflexivity|].
    apply startswith_spec. now exists post.
Qed.

(** The search for a character of a class, and for a literal *)
Lemma search_Chr (p : N -> bool) (s : list N) :
  is_Some (search (Chr p) s) <-> Exists (fun x => p x = true) s.
Proof.
  rewrite search_Some. setoid_rewrite match_at_Chr. rewrite Exists_exists. split.
  - intros (pre & [|x t] & -> & Hp); [discriminate|]. cbn in Hp.
    exists x. split; [|exact Hp]. apply elem_of_app. right. apply elem_of_cons. now left.
  - intros (x & Hx & Hp). apply list_elem_of_split in Hx as (pre & post & ->).
    exists pre, (x :: post). split; [reflexivity|exact Hp].
Qed.

Lemma search_Lit (w s : list N) :
  is_Some (search (Lit N.eqb w) s) <-> contains w s = true.
Proof.
  rewrite search_Some, contains_spec. setoid_rewrite match_at_Lit. reflexivity.
Qed.

(** *** More on text cleaning *)

Lemma clean_text_fixed (t : list N) :
  spaced t = true -> Forall (fun c => glyph c = false) t -> trimmed t -> _clean_text t = t.
Proof.
  intros Hs Hg Ht. rewrite clean_text_eq.
  rewrite collapse_id by (assumption || lia). rewrite dash_id by assumption.
  now apply strip_id.
Qed.

Lemma clean_text_twice (t : list N) : _clean_text (_clean_text t) = _clean_text t.
Proof.
  apply clean_text_fixed;
    [apply clean_text_spaced|apply clean_text_no_glyph|apply clean_text_trimmed].
Qed.

(** X1: the texts that [_clean_text] leaves as they are are exactly the texts
    whose blanks are single space characters, none of them at either end, and
    that hold none of the five glyphs. *)
Theorem clean_text_fixed_points (t : list N) :
  _clean_text t = t
  <-> spaced t = true /\ Forall (fun c => glyph c = false) t /\ trimmed t.
Proof.
  split.
  - intros <-. split; [apply clean_text_spaced|].
    split; [apply clean_text_no_glyph|apply clean_text_trimmed].
  - intros (Hs & Hg & Ht). now apply clean_text_fixed.
Qed.

Lemma filter_lstrip (s : list N) :
  filter (fun c => isspace c = false) (lstrip s) = filter (fun c => isspace c = false) s.
Proof.
  induction s as [|x t IH]; [reflexivity|]. cbn [lstrip].
  destruct (isspace x) eqn:E; [|reflexivity].
  rewrite filter_cons_False by congruence. exact IH.
Qed.

Lemma filter_rev (P : N -> Prop) `{forall x, Decision (P x)} (s : list N) :
  filter P (rev s) = rev (filter P s).
Proof.
  induction s as [|x t IH]; [reflexivity|]. cbn [rev]. rewrite filter_app, IH.
  destruct (decide (P x)).
  - now rewrite !filter_cons_True by assumption.
  - rewrite !filter_cons_False by assumption. apply app_nil_r.
Qed.

Lemma filter_strip (s : list N) :
  filter (fun c => isspace c = false) (strip s) = filter (fun c => isspace c = false) s.
Proof.
  unfold strip. rewrite filter_rev, filter_lstrip, filter_rev, rev_involutive.
  apply filter_lstrip.
Qed.

Lemma filter_dash (s : list N) :
  filter (fun c => isspace c = false) (dash <$> s)
  = dash <$> filter (fun c => isspace c = false) s.
Proof.
  induction s as [|x t IH]; [reflexivity|]. rewrite fmap_cons.
  destruct (isspace x) eqn:E.
  - rewrite filter_cons_False by (rewrite dash_isspace; congruence).
    now rewrite (filter_cons_False _ x) by congruence.
  - rewrite filter_cons_True by (now rewrite dash_isspace).
    rewrite (filter_cons_True _ x) by assumption. rewrite fmap_cons. now rewrite IH.
Qed.

Lemma filter_collapse (fuel : nat) (s : list N) :
  (length s <= fuel)%nat ->
  filter (fun c => isspace c = false) (collapse fuel s)
  = filter (fun c => isspace c = false) s.
Proof.
  revert s. induction fuel as [|fuel IH]; intros s Hlen.
  - destruct s; [reflexivity|cbn in Hlen; lia].
  - destruct s as [|x t]; [reflexivity|]. cbn in Hlen. cbn [collapse].
    destruct (isspace x) eqn:E.
    + rewrite filter_cons_False by (now vm_compute).
      rewrite (filter_cons_False _ x) by congruence.
      rewrite IH by (pose proof (lstrip_length t); lia). apply filter_lstrip.
    + rewrite !filter_cons_True by assumption. now rewrite IH by lia.
Qed.

Lemma collapse_length (fuel : nat) (s : list N) : (length (collapse fuel s) <= length s)%nat.
Proof.
  revert s. induction fuel as [|fuel IH]; intros s; [cbn; lia|].
  destruct s as [|x t]; [cbn; lia|]. cbn [collapse]. destruct (isspace x); cbn [length].
  - specialize (IH (lstrip t)). pose proof (lstrip_length t). lia.
  - specialize (IH t). lia.
Qed.

Lemma strip_length (s : list N) : (length (strip s) <= length s)%nat.
Proof.
  destruct (strip_infix s) as (l1 & l2 & E). rewrite E at 2. rewrite !length_app. lia.
Qed.

(** X2: cleaning touches nothing but blanks and glyphs: the characters of the
    cleaned text that are not blanks are those of the text, in their order,
    each glyph turned into a hyphen; and the cleaned text is never longer
    than the text. *)
Theorem clean_text_keeps_characters (t : list N) :
  filter (fun c => isspace c = false) (_clean_text t)
  = dash <$> filter (fun c => isspace c = false) t
  /\ (length (_clean_text t) <= length t)%nat.
Proof.
  rewrite clean_text_eq. split.
  - rewrite filter_strip, filter_dash. now rewrite filter_collapse by lia.
  - etransitivity; [apply strip_length|]. rewrite length_fmap. apply collapse_length.
Qed.

(** *** Missing skills *)

Lemma sorted_strict {A} (R R' : A -> A -> Prop) (l : list A) :
  (forall a b, R a b -> a <> b -> R' a b) ->
  StronglySorted R l -> NoDup l -> StronglySorted R' l.
Proof.
  intros HR. induction 1 as [|x l Hl IH Hx]; intros Hn; [constructor|].
  apply NoDup_cons in Hn as [Hxl Hn]. constructor; [now apply IH|].
  apply Forall_forall. intros y Hy. apply HR.
  - rewrite Forall_forall in Hx. now apply Hx.
  - intros ->. contradiction.
Qed.

Lemma sorted_elem {A} (leb : A -> A -> bool) (l : list A) (x : A) : x ∈ sorted leb l <-> x ∈ l.
Proof. now rewrite (sorted_perm leb l). Qed.

Lemma str_leb_strict (a b : list N) : str_leb a b = true -> a <> b -> str_ltb a b = true.
Proof.
  unfold str_leb. rewrite negb_true_iff. intros Hba Hne.
  destruct (str_ltb_total a b) as [Hab|[->|Hba']]; [exact Hab|contradiction|congruence].
Qed.

Section MissingSkills.
Context `{Interpreter}.

Lemma find_missing_skills_elem (cv_skills required_skills : list (list N)) (x : list N) :
  x ∈ _find_missing_skills cv_skills required_skills
  <-> exists skill, skill ∈ required_skills /\ x = lower skill
        /\ (lower skill ∉ cv_skills) /\ (3 < length skill)%nat.
Proof.
  unfold _find_missing_skills, set_of.
  rewrite sorted_elem, elem_of_elements, elem_of_list_to_set, list_elem_of_fmap.
  split.
  - intros (skill & -> & Hs). apply list_elem_of_filter in Hs as [Hp Hs].
    apply andb_prop in Hp as [Hc Hl]. apply negb_true_iff in Hc. apply Nat.ltb_lt in Hl.
    exists skill. repeat split; [exact Hs| |exact Hl].
    rewrite <- str_in_elem. congruence.
  - intros (skill & Hs & -> & Hc & Hl). exists skill. split; [reflexivity|].
    apply list_elem_of_filter. split; [|exact Hs].
    apply andb_true_intro. split; [|now apply Nat.ltb_lt].
    apply negb_true_iff. destruct (str_in (lower skill) cv_skills) eqn:E; [|reflexivity].
    apply str_in_elem in E. contradiction.
Qed.

Lemma find_missing_skills_sorted (cv_skills required_skills : list (list N)) :
  StronglySorted (fun a b => str_ltb a b = true) (_find_missing_skills cv_skills required_skills).
Proof.
  unfold _find_missing_skills.
  set (l := elements _).
  assert (Hs : StronglySorted (fun a b => str_leb a b = true) (sorted str_leb l)).
  { apply (sorted_sorted str_leb); [tauto|apply str_leb_total|apply str_leb_trans]. }
  assert (Hn : NoDup (sorted str_leb l)).
  { rewrite (sorted_perm str_leb l). apply NoDup_elements. }
  apply (sorted_strict _ _ _ str_leb_strict Hs Hn).
Qed.

End MissingSkills.

(** X3: [_find_missing_skills] lists exactly the lower-cased forms of the
    required skills that are longer than three characters and whose
    lower-cased form is not among the candidate's skills, each of them once,
    in ascending order. *)
Theorem find_missing_skills_spec `{Interpreter} (cv_skills required_skills : list (list N)) :
  (forall x, x ∈ _find_missing_skills cv_skills required_skills
     <-> exists skill, skill ∈ required_skills /\ x = lower skill
           /\ (lower skill ∉ cv_skills) /\ (3 < length skill)%nat)
  /\ StronglySorted (fun a b => str_ltb a b = true)
       (_find_missing_skills cv_skills required_skills).
Proof.
  split; [intros x; apply find_missing_skills_elem|apply find_missing_skills_sorted].
Qed.

(** *** More on rounding *)

Section RoundingMore.
Local Open Scope Q_scope.

Lemma ilog2_unique (x : Q) (k : Z) : pow2 k <= x -> x < pow2 (k + 1) -> ilog2 x = k.
Proof.
  intros Hlo Hhi. assert (Hx : 0 < x) by (pose proof (pow2_pos k); lra).
  pose proof (ilog2_lt x (k + 1) Hx Hhi) as H1.
  destruct (ilog2_spec x Hx) as [_ H2].
  destruct (Z_lt_ge_dec (ilog2 x) k) as [Hlt|Hge]; [exfalso|lia].
  pose proof (pow2_le (ilog2 x + 1) k ltac:(lia)). lra.
Qed.

Lemma ilog2_proper (x y : Q) : 0 < x -> x == y -> ilog2 x = ilog2 y.
Proof.
  intros Hx E. destruct (ilog2_spec x Hx) as [Hlo Hhi].
  symmetry. apply ilog2_unique; lra.
Qed.

Lemma rneZ_proper (x y : Q) : x == y -> rneZ x = rneZ y.
Proof.
  intros E. unfold rneZ. rewrite (Qfloor_comp _ _ E).
  assert (C : Qcompare (x - inject_Z (Qfloor y)) (1 # 2)
              = Qcompare (y - inject_Z (Qfloor y)) (1 # 2)).
  { apply Qcompare_comp; [now rewrite E|reflexivity]. }
  now rewrite C.
Qed.

Lemma Qabs_pos_neq (x : Q) : ~ x == 0 -> 0 < Qabs x.
Proof.
  intros Hx. destruct (Qle_lt_or_eq _ _ (Qabs_nonneg x)) as [Hlt|E]; [exact Hlt|].
  exfalso. apply Hx. assert (H : Qabs x <= 0) by lra.
  apply Qabs_Qle_condition in H. lra.
Qed.

Lemma cexp_proper (x y : Q) : ~ x == 0 -> x == y -> cexp x = cexp y.
Proof.
  intros Hx E. unfold cexp. f_equal. f_equal. apply ilog2_proper.
  - now apply Qabs_pos_neq.
  - now rewrite E.
Qed.

(** Rounding depends on the value of the rational, not on the fraction that
    denotes it. *)
Lemma rne64_proper (x y : Q) : x == y -> rne64 x = rne64 y.
Proof.
  intros E. unfold rne64.
  destruct (Qeq_bool x 0) eqn:Ex, (Qeq_bool y 0) eqn:Ey; [reflexivity| | |].
  - apply Qeq_bool_iff in Ex. apply Qeq_bool_neq in Ey. exfalso. apply Ey. lra.
  - apply Qeq_bool_iff in Ey. apply Qeq_bool_neq in Ex. exfalso. apply Ex. lra.
  - apply Qeq_bool_neq in Ex. rewrite (cexp_proper x y Ex E).
    rewrite (rneZ_proper (x / pow2 (cexp y)) (y / pow2 (cexp y))) by now rewrite E.
    reflexivity.
Qed.

Lemma rne64_1 (x : Q) : x == 1 -> rne64 x = 1.
Proof. intros E. now rewrite (rne64_proper x 1 E). Qed.

(** Below one: the largest float below 1 is [1 - 2 ^ -53]. *)
Lemma rne64_below_1 (x : Q) :
  0 <= x -> x <= 9007199254740991 # 9007199254740992 -> rne64 x < 1.
Proof.
  intros H0 H1. destruct (Qeq_dec x 0) as [E|NE].
  - rewrite (rne64_proper x 0 E). reflexivity.
  - assert (Px : 0 < x) by lra.
    assert (L : (cexp x <= -53)%Z).
    { rewrite (cexp_pos x Px).
      assert (x < pow2 0) by (change (pow2 0) with 1; lra).
      pose proof (ilog2_lt x 0 Px ltac:(assumption)). lia. }
    pose proof (rne64_le_grid x 9007199254740991 (-53) Px L) as G.
    change (inject_Z 9007199254740991 * pow2 (-53))
      with ((9007199254740991 # 1) * (1 # 9007199254740992)) in G.
    assert (G' : rne64 x <= (9007199254740991 # 1) * (1 # 9007199254740992)) by (apply G; lra).
    lra.
Qed.

(** A quotient of two counts is 1.0 only when the counts are equal, as long
    as they are below [2 ^ 53]. *)
Lemma count_quotient_1 (a b : Z) :
  (0 <= a <= b)%Z -> (0 < b <= 2 ^ 53)%Z ->
  rne64 (inject_Z a / inject_Z b) = 1 <-> a = b.
Proof.
  intros Ha Hb. assert (Hb' : 0 < inject_Z b) by (rewrite <- (Zlt_Qlt 0); lia).
  split.
  - intros E. destruct (Z.eq_dec a b) as [|NE]; [assumption|exfalso].
    assert (Hq : 0 <= inject_Z a / inject_Z b).
    { apply Qle_shift_div_l; [exact Hb'|]. rewrite Qmult_0_l, <- (Zle_Qle 0). lia. }
    assert (Hu : inject_Z a / inject_Z b <= 9007199254740991 # 9007199254740992).
    { apply Qle_shift_div_r; [exact Hb'|]. unfold Qle. cbn.
      change (2 ^ 53)%Z with 9007199254740992%Z in Hb. lia. }
    pose proof (rne64_below_1 _ Hq Hu) as Hlt. rewrite E in Hlt. now apply Qlt_irrefl in Hlt.
  - intros ->. apply rne64_1. field. lra.
Qed.

End RoundingMore.

(** *** Full coverage *)

Lemma filter_all {A} (P : A -> Prop) `{forall x, Decision (P x)} (l : list A) :
  length (filter P l) = length l <-> Forall P l.
Proof.
  induction l as [|x l IH]; [split; [constructor|reflexivity]|].
  destruct (decide (P x)) as [Hx|Hx].
  - rewrite filter_cons_True by assumption. cbn [length]. rewrite Forall_cons.
    split; [intros E; split; [assumption|apply IH; lia]|intros [_ Hl]; apply IH in Hl; lia].
  - rewrite filter_cons_False by assumption. cbn [length]. rewrite Forall_cons.
    pose proof (length_filter P l). split; [lia|tauto].
Qed.

Section FullCoverage.
Context `{Interpreter}.

Lemma skill_score_one (cv_skills required_skills : list (list N)) :
  (Z.of_nat (length required_skills) <= 2 ^ 53)%Z ->
  _calculate_skill_score cv_skills required_skills = Ok (lit 1)
  <-> Forall (fun skill => lower skill ∈ cv_skills) required_skills.
Proof.
  intros Hlen. destruct required_skills as [|skill others]; [split; [constructor|reflexivity]|].
  set (required_skills := skill :: others) in *.
  unfold _calculate_skill_score, required_skills at 1. fold required_skills.
  rewrite covered_filter, sum_of_ones.
  assert (Hc : (0 <= Z.of_nat (length (covered cv_skills required_skills))
                <= Z.of_nat (length required_skills))%Z).
  { split; [lia|]. apply inj_le, length_filter. }
  assert (Hn : (0 < Z.of_nat (length required_skills))%Z) by (cbn [required_skills length]; lia).
  destruct (truediv_fraction _ _ Hc Hn) as [-> _].
  change (lit 1) with (Fin 1).
  rewrite <- (filter_all (fun skill => lower skill ∈ cv_skills)).
  fold (covered cv_skills required_skills).
  pose proof (count_quotient_1 _ _ Hc (conj Hn Hlen)) as Q. split.
  - intros [= E]. apply Q in E. lia.
  - intros E. do 2 f_equal. apply Q. lia.
Qed.

Lemma nothing_missing (cv_skills required_skills : list (list N)) :
  _find_missing_skills cv_skills required_skills = []
  <-> Forall (fun skill => (3 < length skill)%nat -> lower skill ∈ cv_skills) required_skills.
Proof.
  rewrite Forall_forall. split.
  - intros E skill Hs Hl. destruct (decide (lower skill ∈ cv_skills)) as [|Hn]; [assumption|].
    assert (Hm : lower skill ∈ _find_missing_skills cv_skills required_skills).
    { apply find_missing_skills_elem. now exists skill. }
    rewrite E in Hm. now apply elem_of_nil in Hm.
  - intros Hall. destruct (_find_missing_skills cv_skills required_skills) as [|x l] eqn:E;
      [reflexivity|exfalso].
    assert (Hx : x ∈ _find_missing_skills cv_skills required_skills).
    { rewrite E. apply elem_of_cons. now left. }
    apply find_missing_skills_elem in Hx as (skill & Hs & _ & Hn & Hl).
    apply Hn, Hall; assumption.
Qed.

End FullCoverage.

(** X4: for a list of required skills of fewer than 2^53 entries, the skill
    score is exactly 1.0 when and only when every required skill is covered,
    and then no skill is reported missing; no skill is reported missing
    exactly when every required skill of more than three characters is
    covered (a shorter one can lower the score without being reported). *)
Theorem full_skill_score_and_missing_skills `{Interpreter}
    (cv_skills required_skills : list (list N)) :
  (Z.of_nat (length required_skills) <= 2 ^ 53)%Z ->
  (_calculate_skill_score cv_skills required_skills = Ok (lit 1)
   <-> Forall (fun skill => lower skill ∈ cv_skills) required_skills)
  /\ (_calculate_skill_score cv_skills required_skills = Ok (lit 1)
      -> _find_missing_skills cv_skills required_skills = [])
  /\ (_find_missing_skills cv_skills required_skills = []
      <-> Forall (fun skill => (3 < length skill)%nat -> lower skill ∈ cv_skills)
            required_skills).
Proof.
  intros Hlen. split; [now apply skill_score_one|]. split; [|apply nothing_missing].
  intros E. apply skill_score_one in E; [|exact Hlen]. apply nothing_missing.
  eapply Forall_impl; [exact E|]. auto.
Qed.

Lemma full_skill_score_and_missing_skills_witness :
  (Z.of_nat (length [py "Python"; py "SQL"]) <= 2 ^ 53)%Z
  /\ (@_calculate_skill_score basic_interpreter [py "python"; py "sql"] [py "Python"; py "SQL"]
      = Ok (lit 1)
      <-> Forall (fun skill => basic_lower skill ∈ [py "python"; py "sql"])
            [py "Python"; py "SQL"])
  /\ (@_calculate_skill_score basic_interpreter [py "python"; py "sql"] [py "Python"; py "SQL"]
      = Ok (lit 1)
      -> @_find_missing_skills basic_interpreter [py "python"; py "sql"] [py "Python"; py "SQL"]
         = [])
  /\ (@_find_missing_skills basic_interpreter [py "python"; py "sql"] [py "Python"; py "SQL"]
      = []
      <-> Forall (fun skill => (3 < length skill)%nat -> basic_lower skill ∈ [py "python"; py "sql"])
            [py "Python"; py "SQL"]).
Proof.
  assert (Hlen : (Z.of_nat (length [py "Python"; py "SQL"]) <= 2 ^ 53)%Z) by (vm_compute; discriminate).
  split; [exact Hlen|].
  apply (@full_skill_score_and_missing_skills basic_interpreter
           [py "python"; py "sql"] [py "Python"; py "SQL"] Hlen).
Defined.

(** *** The experience score and the years it stands for *)

Section ExperienceBounds.
Local Open Scope Q_scope.

Lemma rne64_nonpos (x : Q) : x <= 0 -> rne64 x <= 0.
Proof.
  intros Hx. destruct (Qeq_dec x 0) as [E|NE].
  - rewrite (rne64_proper x 0 E). apply Qle_refl.
  - rewrite rne64_unfold by assumption.
    pose proof (pow2_pos (cexp x)) as Pc.
    assert (Hq : x / pow2 (cexp x) <= inject_Z 0).
    { apply Qle_shift_div_r; [exact Pc|]. change (inject_Z 0) with 0. lra. }
    apply rneZ_le_Z in Hq.
    assert (Hz : inject_Z (rneZ (x / pow2 (cexp x))) <= inject_Z 0)
      by (rewrite <- Zle_Qle; exact Hq).
    change (inject_Z 0) with 0 in Hz.
    assert (Hm : inject_Z (rneZ (x / pow2 (cexp x))) * pow2 (cexp x) <= 0 * pow2 (cexp x))
      by (apply Qmult_le_compat_r; lra).
    lra.
Qed.

(** Rounding keeps the order of two rationals when the larger is not
    negative. *)
Lemma rne64_mono_to_nonneg (x y : Q) : 0 <= y -> x <= y -> rne64 x <= rne64 y.
Proof.
  intros Hy Hxy. destruct (Qlt_le_dec x 0) as [Hx|Hx].
  - apply Qle_trans with 0; [apply rne64_nonpos; lra|now apply rne64_nonneg].
  - now apply rne64_mono.
Qed.

(** A negative quotient of integers rounds to a negative float. *)
Lemma rne64_negative (a b : Z) :
  (a < 0)%Z -> (0 < b <= 5)%Z -> rne64 (inject_Z a / inject_Z b) < 0.
Proof.
  intros Ha Hb. set (x := inject_Z a / inject_Z b).
  assert (Hb' : 0 < inject_Z b) by (rewrite <- (Zlt_Qlt 0); lia).
  assert (Hx : x <= - (1 # 5)).
  { unfold x. apply Qle_shift_div_r; [exact Hb'|].
    assert (Ha1 : inject_Z a <= inject_Z (-1)) by (rewrite <- Zle_Qle; lia).
    assert (Hb5 : inject_Z b <= inject_Z 5) by (rewrite <- Zle_Qle; lia).
    change (inject_Z (-1)) with (-1) in Ha1. change (inject_Z 5) with 5 in Hb5. lra. }
  assert (NE : ~ x == 0) by lra.
  rewrite rne64_unfold by assumption.
  pose proof (pow2_pos (cexp x)) as Pc.
  assert (Ha' : 0 < Qabs x) by now apply Qabs_pos_neq.
  assert (Hc : pow2 (cexp x) <= Qabs x).
  { unfold cexp. destruct (ilog2_spec (Qabs x) Ha') as [Hlo _].
    destruct (Z.max_spec (ilog2 (Qabs x) - 52) (-1074)) as [[_ ->]|[_ ->]].
    - rewrite Qabs_neg by lra. apply Qle_trans with (1 # 5); [qle_compute|lra].
    - apply Qle_trans with (pow2 (ilog2 (Qabs x))); [apply pow2_le; lia|exact Hlo]. }
  rewrite Qabs_neg in Hc by lra.
  assert (Hq : x / pow2 (cexp x) <= inject_Z (-1)).
  { apply Qle_shift_div_r; [exact Pc|]. change (inject_Z (-1)) with (-1). lra. }
  apply rneZ_le_Z in Hq.
  assert (Hz : inject_Z (rneZ (x / pow2 (cexp x))) <= inject_Z (-1))
    by (rewrite <- Zle_Qle; exact Hq).
  change (inject_Z (-1)) with (-1) in Hz.
  assert (Hm : inject_Z (rneZ (x / pow2 (cexp x))) * pow2 (cexp x) <= (-1) * pow2 (cexp x))
    by (apply Qmult_le_compat_r; lra).
  lra.
Qed.

Lemma truediv_Ok (a b : Z) (f : float) :
  truediv a b = Ok f -> f = Fin (rne64 (inject_Z a / inject_Z b)).
Proof.
  unfold truediv. destruct (b =? 0)%Z; [discriminate|].
  destruct (Qle_bool _ max_float); [|discriminate]. now intros [= <-].
Qed.

Lemma fmin_1 (r : Q) : fmin (Fin r) (lit 1) = Fin (if Qle_bool r 1 then r else 1).
Proof. change (lit 1) with (Fin 1). unfold fmin, flt. now destruct (Qle_bool r 1). Qed.

Lemma fge_Fin (a b : Q) : fge (Fin a) (Fin b) = Qle_bool b a.
Proof. unfold fge, flt. now rewrite negb_involutive. Qed.

Lemma lit_08 : lit 0.8 = Fin (rne64 0.8).
Proof. reflexivity. Qed.

(** The capped quotient reaches 0.8 exactly from a threshold number of
    years on. *)
Lemma capped_quotient_threshold (total required threshold : Z) :
  (0 < required)%Z -> (0 < threshold)%Z ->
  rne64 0.8 <= rne64 (inject_Z threshold / inject_Z required) ->
  rne64 (inject_Z (threshold - 1) / inject_Z required) < rne64 0.8 ->
  fge (fmin (Fin (rne64 (inject_Z total / inject_Z required))) (lit 1)) (lit 0.8) = true
  <-> (threshold <= total)%Z.
Proof.
  intros Hr Ht Hge Hlt.
  assert (Hr' : 0 < inject_Z required) by (rewrite <- (Zlt_Qlt 0); lia).
  assert (Mono : forall a b : Z, (0 <= b)%Z -> (a <= b)%Z ->
            rne64 (inject_Z a / inject_Z required) <= rne64 (inject_Z b / inject_Z required)).
  { intros a b H0 Hab. apply rne64_mono_to_nonneg.
    - apply Qle_shift_div_l; [exact Hr'|]. rewrite Qmult_0_l, <- (Zle_Qle 0). exact H0.
    - apply Qmult_le_compat_r; [now rewrite <- Zle_Qle|]. apply Qinv_le_0_compat. lra. }
  assert (H1 : rne64 0.8 <= 1) by qle_compute.
  rewrite fmin_1, lit_08, fge_Fin.
  set (r := rne64 (inject_Z total / inject_Z required)) in *.
  split.
  - intros Hf. apply Qle_bool_iff in Hf.
    destruct (Z_lt_ge_dec total threshold) as [Hlt'|]; [exfalso|lia].
    pose proof (Mono total (threshold - 1)%Z ltac:(lia) ltac:(lia)) as Hm. fold r in Hm.
    destruct (Qle_bool r 1) eqn:E; [lra|].
    apply not_true_iff_false in E. apply E. apply Qle_bool_iff. lra.
  - intros Hth. apply Qle_bool_iff.
    pose proof (Mono threshold total ltac:(lia) Hth) as Hm. fold r in Hm.
    destruct (Qle_bool r 1); lra.
Qed.

End ExperienceBounds.

Section ExperienceScore.
Context `{Interpreter}.
Variable self : ResumeAnalyzer.

Lemma experience_score_inv (text title : list N) (f : float) :
  _calculate_experience_score self text (PyStr title) = Ok f ->
  exists total,
    total_years self text = Ok total
    /\ f = fmin (Fin (rne64 (inject_Z total / inject_Z (required_years title)))) (lit 1).
Proof.
  rewrite experience_score_equals_formula. unfold experience_score_formula. intros E.
  bind_inv E years Et. bind_inv E quotient Equo. injection E as <-.
  exists years. split; [exact Et|]. now rewrite (truediv_Ok _ _ _ Equo).
Qed.

Lemma required_years_range (title : list N) : (0 < required_years title <= 5)%Z.
Proof. unfold required_years. repeat destruct (contains _ _); lia. Qed.

End ExperienceScore.

(** X5: whenever [_calculate_experience_score] returns, the score is a float
    that is at most 1.0, and it is negative exactly when the years found in
    the text sum to a negative total (a range written with its later year
    first counts as negative years); the score is not confined to [0, 1]. *)
Theorem experience_score_sign_and_cap `{Interpreter} (self : ResumeAnalyzer)
    (text title : list N) (f : float) :
  _calculate_experience_score self text (PyStr title) = Ok f ->
  exists (total : Z) (q : Q),
    total_years self text = Ok total /\ f = Fin q
    /\ (q <= 1)%Q /\ ((q < 0)%Q <-> (total < 0)%Z).
Proof.
  intros E. apply experience_score_inv in E as (total & Et & ->).
  rewrite fmin_1. set (r := rne64 _).
  exists total, (if Qle_bool r 1 then r else 1%Q). repeat split; try assumption.
  - destruct (Qle_bool r 1) eqn:E1; [now apply Qle_bool_iff|apply Qle_refl].
  - intros Hq. destruct (Z_lt_ge_dec total 0) as [|Hge]; [assumption|exfalso].
    assert (H0 : (0 <= r)%Q).
    { apply rne64_nonneg. pose proof (required_years_range title) as Hr.
      assert (Hp : (0 < inject_Z (required_years title))%Q)
        by (rewrite <- (Zlt_Qlt 0); lia).
      apply Qle_shift_div_l; [exact Hp|]. rewrite Qmult_0_l, <- (Zle_Qle 0). lia. }
    revert Hq. destruct (Qle_bool r 1); lra.
  - intros Ht.
    pose proof (rne64_negative total _ Ht (required_years_range title)) as Hn. fold r in Hn.
    destruct (Qle_bool r 1) eqn:E1; [exact Hn|].
    apply not_true_iff_false in E1. exfalso. apply E1. apply Qle_bool_iff. lra.
Qed.

Lemma experience_score_sign_and_cap_witness :
  exists f : float,
    @_calculate_experience_score basic_interpreter (analyzer_of_year 2026) (py "2022-2018")
      (PyStr (py "Engineer")) = Ok f
    /\ exists (total : Z) (q : Q),
         @total_years basic_interpreter (analyzer_of_year 2026) (py "2022-2018") = Ok total
         /\ f = Fin q /\ (q <= 1)%Q /\ ((q < 0)%Q <-> (total < 0)%Z).
Proof.
  eexists. split; [vm_compute; reflexivity|].
  apply (@experience_score_sign_and_cap basic_interpreter (analyzer_of_year 2026)
           (py "2022-2018") (py "Engineer")).
  vm_compute. reflexivity.
Defined.

Lemma experience_match_years `{Interpreter} (total : Z) (title : list N) :
  fge (fmin (Fin (rne64 (inject_Z total / inject_Z (required_years title)))) (lit 1)) (lit 0.8)
  = true <-> (years_to_match title <= total)%Z.
Proof.
  unfold required_years, years_to_match.
  destruct (contains (py "senior") (lower title)); [|destruct (contains (py "junior") (lower title))];
    apply capped_quotient_threshold; try lia; try qle_compute;
    apply Qlt_alt; vm_compute; reflexivity.
Qed.

(** X6: in every result of [analyze], [experience_match] is true exactly when
    the years found in the cleaned resume total at least 4 for a position
    whose lower-cased title contains "senior", at least 2 for one that
    contains "junior" (and not "senior"), and at least 3 for any other. *)
Theorem experience_match_in_years `{Interpreter} `{LanguageModel} `{FuzzyMatcher}
    (self : ResumeAnalyzer) (resume_text : list N) (job_data : gmap string pyobj)
    (r : AnalysisResult) :
  analyze self resume_text job_data = Ok r ->
  exists (title : list N) (total : Z),
    default (PyStr []) (job_data !! "position"%string) = PyStr title
    /\ total_years self (_clean_text resume_text) = Ok total
    /\ (experience_match r = true
        <-> ((if contains (py "senior") (lower title) then 4
              else if contains (py "junior") (lower title) then 2 else 3) <= total)%Z).
Proof.
  intros E. apply analyze_inv in E
    as (info & skills & required & similarity & skill_score & experience_score
        & education_score & _ & _ & _ & _ & _ & Ex & _ & ->).
  cbn [experience_match].
  destruct (default (PyStr []) (job_data !! "position"%string)) as [title|repr].
  - apply experience_score_inv in Ex as (total & Et & ->).
    exists title, total. repeat split; [exact Et| |]; apply experience_match_years.
  - exfalso. unfold _calculate_experience_score in Ex.
    destruct (_extract_experience self (_clean_text resume_text)); discriminate.
Qed.

Lemma experience_match_in_years_witness :
  exists r : AnalysisResult,
    @analyze basic_interpreter blank_model blank_matcher (analyzer_of_year 2026)
      sample_resume sample_job = Ok r
    /\ exists (title : list N) (total : Z),
         default (PyStr []) (sample_job !! "position"%string) = PyStr title
         /\ @total_years basic_interpreter (analyzer_of_year 2026) (_clean_text sample_resume)
            = Ok total
         /\ (experience_match r = true
             <-> ((if contains (py "senior") (basic_lower title) then 4
                   else if contains (py "junior") (basic_lower title) then 2 else 3)
                  <= total)%Z).
Proof.
  eexists. split; [vm_compute; reflexivity|].
  apply (@experience_match_in_years basic_interpreter blank_model blank_matcher
           (analyzer_of_year 2026) sample_resume sample_job).
  vm_compute. reflexivity.
Defined.

(** *** The similarity *)

Lemma np_clip_unit (x : float) :
  (np_clip x (lit 0) (lit 1) = NaN /\ x = NaN)
  \/ exists q, np_clip x (lit 0) (lit 1) = Fin q /\ (0 <= q <= 1)%Q.
Proof.
  change (lit 0) with (Fin 0). change (lit 1) with (Fin 1).
  destruct x as [q|[|]|]; [| | |left; now split]; right.
  - unfold np_clip, flt. destruct (Qle_bool 0 q) eqn:E0; cbn [negb].
    + apply Qle_bool_iff in E0. destruct (Qle_bool q 1) eqn:E1; cbn [negb].
      * apply Qle_bool_iff in E1. now exists q.
      * exists 1%Q. split; [reflexivity|]. split; discriminate.
    + exists 0%Q. split; [reflexivity|]. split; discriminate.
  - exists 0%Q. split; [reflexivity|]. split; discriminate.
  - exists 1%Q. split; [reflexivity|]. split; discriminate.
Qed.

(** What [numpy.clip] to [0, 1] does with a float. *)
Lemma np_clip_cases (x : float) :
  match x with
  | NaN => np_clip x (lit 0) (lit 1) = NaN
  | Inf negative => np_clip x (lit 0) (lit 1) = if negative then lit 0 else lit 1
  | Fin q =>
      ((q < 0)%Q -> np_clip x (lit 0) (lit 1) = lit 0)
      /\ ((0 <= q <= 1)%Q -> np_clip x (lit 0) (lit 1) = Fin q)
      /\ ((1 < q)%Q -> np_clip x (lit 0) (lit 1) = lit 1)
  end.
Proof.
  change (lit 0) with (Fin 0). change (lit 1) with (Fin 1).
  destruct x as [q|[|]|]; try reflexivity.
  unfold np_clip, flt.
  destruct (Qle_bool 0 q) eqn:E0; cbn [negb].
  - apply Qle_bool_iff in E0. destruct (Qle_bool q 1) eqn:E1; cbn [negb].
    + apply Qle_bool_iff in E1. repeat split; try reflexivity; intros; lra.
    + assert (H1 : ~ (q <= 1)%Q) by (rewrite <- Qle_bool_iff, E1; discriminate).
      repeat split; try reflexivity; intros; lra.
  - assert (H0 : ~ (0 <= q)%Q) by (rewrite <- Qle_bool_iff, E0; discriminate).
    repeat split; try reflexivity; intros; lra.
Qed.

(** X7: [_calculate_semantic_similarity] raises what the pipeline raises on
    one of the two texts and nothing else; when it returns, the value is 0.0
    if one of the two vectors has norm zero, and otherwise the cosine
    similarity of the two documents brought into [0, 1]: the cosine
    similarity itself when it is in [0, 1], 0.0 when it is below 0, 1.0 when
    it is above 1, and NaN when it is NaN. *)
Theorem semantic_similarity_range `{LanguageModel} (text1 text2 : list N) :
  match nlp text1, nlp text2 with
  | Ok doc1, Ok doc2 =>
      exists f, _calculate_semantic_similarity text1 text2 = Ok f
        /\ ((f = NaN /\ cosine_similarity doc1 doc2 = NaN)
            \/ exists q, f = Fin q /\ (0 <= q <= 1)%Q)
        /\ (is_zero (vector_norm doc1) || is_zero (vector_norm doc2) = true -> f = lit 0)
        /\ (is_zero (vector_norm doc1) || is_zero (vector_norm doc2) = false ->
            match cosine_similarity doc1 doc2 with
            | NaN => f = NaN
            | Inf negative => f = if negative then lit 0 else lit 1
            | Fin q =>
                ((q < 0)%Q -> f = lit 0)
                /\ ((0 <= q <= 1)%Q -> f = Fin q)
                /\ ((1 < q)%Q -> f = lit 1)
            end)
  | Raise e, _ => _calculate_semantic_similarity text1 text2 = Raise e
  | Ok _, Raise e => _calculate_semantic_similarity text1 text2 = Raise e
  end.
Proof.
  unfold _calculate_semantic_similarity.
  destruct (nlp text1) as [doc1|e1]; [|reflexivity].
  destruct (nlp text2) as [doc2|e2]; [|reflexivity].
  rewrite !bind_Ok.
  destruct (is_zero (vector_norm doc1) || is_zero (vector_norm doc2)) eqn:E.
  - exists (lit 0). split; [reflexivity|]. split; [|split; [reflexivity|discriminate]].
    right. exists 0%Q. split; [reflexivity|]. split; discriminate.
  - eexists. split; [reflexivity|]. split; [apply np_clip_unit|].
    split; [discriminate|]. intros _.
    pose proof (np_clip_cases (cosine_similarity doc1 doc2)) as Hc.
    destruct (cosine_similarity doc1 doc2) as [q|negative|]; exact Hc.
Qed.

(** *** The score grows with the sub-scores *)

Section ScoreOrder.
Local Open Scope Q_scope.

(** The score as a rational: every operation of the method, rounded. *)
Lemma compatibility_score_value (s k e d : Q) :
  0 <= s <= 1 -> 0 <= k <= 1 -> 0 <= e <= 1 -> 0 <= d <= 1 ->
  _calculate_compatibility_score (Fin s) (Fin k) (Fin e) (Fin d)
  = Fin (rne64 (inject_Z (rneZ (rne64 (rne64 (rne64 (rne64 (rne64
           (rne64 (rne64 0.4 * s) + rne64 (rne64 0.4 * k)) + rne64 (rne64 0.15 * e))
           + rne64 (rne64 0.05 * d)) * 100) * 100))) / 100)).
Proof.
  intros Hs Hk He Hd.
  unfold _calculate_compatibility_score.
  rewrite lit_04, lit_015, lit_005, lit_100.
  assert (C1 : 0.4 - (1 # 10000000000000000) <= rne64 0.4 <= 0.4 + (1 # 10000000000000000))
    by (split; qle_compute).
  assert (C2 : 0.15 - (1 # 10000000000000000) <= rne64 0.15 <= 0.15 + (1 # 10000000000000000))
    by (split; qle_compute).
  assert (C3 : 0.05 - (1 # 10000000000000000) <= rne64 0.05 <= 0.05 + (1 # 10000000000000000))
    by (split; qle_compute).
  set (c1 := rne64 0.4) in *. set (c2 := rne64 0.15) in *. set (c3 := rne64 0.05) in *.
  cbn [fmul fadd].
  assert (P1 : 0 <= c1 * s <= c1) by (apply Qmult_unit_bounds; [lra|assumption]).
  assert (P2 : 0 <= c1 * k <= c1) by (apply Qmult_unit_bounds; [lra|assumption]).
  assert (P3 : 0 <= c2 * e <= c2) by (apply Qmult_unit_bounds; [lra|assumption]).
  assert (P4 : 0 <= c3 * d <= c3) by (apply Qmult_unit_bounds; [lra|assumption]).
  fl_step (c1 * s) 1 (1 # 10000000000000000) 0%Z t1 E1.
  fl_step (c1 * k) 1 (1 # 10000000000000000) 0%Z t2 E2.
  fl_step (c2 * e) 1 (1 # 10000000000000000) 0%Z t3 E3.
  fl_step (c3 * d) 1 (1 # 10000000000000000) 0%Z t4 E4.
  cbn [fmul fadd].
  fl_step (t1 + t2) 2 (2 # 10000000000000000) 1%Z u1 E5. cbn [fmul fadd].
  fl_step (u1 + t3) 2 (2 # 10000000000000000) 1%Z u2 E6. cbn [fmul fadd].
  fl_step (u2 + t4) 2 (2 # 10000000000000000) 1%Z u3 E7. cbn [fmul fadd].
  fl_step (u3 * 100) 128 (1 # 100000000000000) 7%Z w E8.
  unfold np_round. change (lit (inject_Z (10 ^ Z.of_nat 2))) with (Fin 100).
  cbn [fmul fadd rint fdiv].
  fl_step (w * 100) 16384 (1 # 1000000000000) 14%Z v E9. cbn [fmul fadd rint fdiv].
  change (Qeq_bool 100 0) with false. cbv iota.
  pose proof (rneZ_near v) as Hn.
  pose proof (rneZ_ge_Z v 0 Nv) as Hn0.
  set (n := rneZ v) in *.
  assert (Hn1 : (n < 10001)%Z) by (rewrite Zlt_Qlt; change (inject_Z 10001) with 10001; lra).
  assert (Hq : 0 <= inject_Z n <= 10000).
  { change 0 with (inject_Z 0). change 10000 with (inject_Z 10000).
    rewrite <- !Zle_Qle. lia. }
  assert (Hd100 : inject_Z n / 100 == inject_Z n * (1 # 100)) by (field; lra).
  assert (Hq' : 0 <= inject_Z n / 100 <= 100) by (rewrite Hd100; lra).
  fl_step (inject_Z n / 100) 128 (1 # 100000000000000) 7%Z q E10.
  reflexivity.
Qed.

Lemma rne64_mul_mono (c x y : Q) : 0 <= c -> 0 <= x -> x <= y -> rne64 (c * x) <= rne64 (c * y).
Proof.
  intros Hc Hx Hxy. apply rne64_mono.
  - now apply Qmult_le_0_compat.
  - rewrite (Qmult_comm c x), (Qmult_comm c y). now apply Qmult_le_compat_r.
Qed.

Lemma rne64_add_mono (a a' b b' : Q) :
  0 <= a -> a <= a' -> 0 <= b -> b <= b' -> rne64 (a + b) <= rne64 (a' + b').
Proof. intros. apply rne64_mono; lra. Qed.

Lemma rne64_scale_mono (x y : Q) : 0 <= x -> x <= y -> rne64 (x * 100) <= rne64 (y * 100).
Proof. intros. apply rne64_mono; lra. Qed.

Lemma rne64_percent_mono (m n : Z) :
  (0 <= m)%Z -> (m <= n)%Z -> rne64 (inject_Z m / 100) <= rne64 (inject_Z n / 100).
Proof.
  intros H0 Hmn.
  assert (Hm : inject_Z 0 <= inject_Z m) by now rewrite <- Zle_Qle.
  assert (Hn : inject_Z m <= inject_Z n) by now rewrite <- Zle_Qle.
  change (inject_Z 0) with 0 in Hm.
  assert (E1 : inject_Z m / 100 == inject_Z m * (1 # 100)) by (field; lra).
  assert (E2 : inject_Z n / 100 == inject_Z n * (1 # 100)) by (field; lra).
  apply rne64_mono; rewrite ?E1, ?E2; lra.
Qed.

End ScoreOrder.

(** X8: the compatibility score grows with each sub-score: for sub-scores in
    [0, 1], raising any of the four never lowers the score. *)
Theorem compatibility_score_monotone (s k e d s' k' e' d' : Q) :
  (0 <= s)%Q -> (s <= s')%Q -> (s' <= 1)%Q ->
  (0 <= k)%Q -> (k <= k')%Q -> (k' <= 1)%Q ->
  (0 <= e)%Q -> (e <= e')%Q -> (e' <= 1)%Q ->
  (0 <= d)%Q -> (d <= d')%Q -> (d' <= 1)%Q ->
  exists q q' : Q,
    _calculate_compatibility_score (Fin s) (Fin k) (Fin e) (Fin d) = Fin q
    /\ _calculate_compatibility_score (Fin s') (Fin k') (Fin e') (Fin d') = Fin q'
    /\ (q <= q')%Q.
Proof.
  intros Hs Hss Hs' Hk Hkk Hk' He Hee He' Hd Hdd Hd'.
  rewrite (compatibility_score_value s k e d) by (split; lra).
  rewrite (compatibility_score_value s' k' e' d') by (split; lra).
  eexists _, _. split; [reflexivity|]. split; [reflexivity|].
  assert (C1 : (0 <= rne64 0.4)%Q) by qle_compute.
  assert (C2 : (0 <= rne64 0.15)%Q) by qle_compute.
  assert (C3 : (0 <= rne64 0.05)%Q) by qle_compute.
  set (c1 := rne64 0.4) in *. set (c2 := rne64 0.15) in *. set (c3 := rne64 0.05) in *.
  assert (M1 : (rne64 (c1 * s) <= rne64 (c1 * s'))%Q) by now apply rne64_mul_mono.
  assert (M2 : (rne64 (c1 * k) <= rne64 (c1 * k'))%Q) by now apply rne64_mul_mono.
  assert (M3 : (rne64 (c2 * e) <= rne64 (c2 * e'))%Q) by now apply rne64_mul_mono.
  assert (M4 : (rne64 (c3 * d) <= rne64 (c3 * d'))%Q) by now apply rne64_mul_mono.
  assert (N1 : (0 <= rne64 (c1 * s))%Q) by now apply rne64_nonneg, Qmult_le_0_compat.
  assert (N2 : (0 <= rne64 (c1 * k))%Q) by now apply rne64_nonneg, Qmult_le_0_compat.
  assert (N3 : (0 <= rne64 (c2 * e))%Q) by now apply rne64_nonneg, Qmult_le_0_compat.
  assert (N4 : (0 <= rne64 (c3 * d))%Q) by now apply rne64_nonneg, Qmult_le_0_compat.
  set (t1 := rne64 (c1 * s)) in *. set (t1' := rne64 (c1 * s')) in *.
  set (t2 := rne64 (c1 * k)) in *. set (t2' := rne64 (c1 * k')) in *.
  set (t3 := rne64 (c2 * e)) in *. set (t3' := rne64 (c2 * e')) in *.
  set (t4 := rne64 (c3 * d)) in *. set (t4' := rne64 (c3 * d')) in *.
  assert (M5 : (rne64 (t1 + t2) <= rne64 (t1' + t2'))%Q) by now apply rne64_add_mono.
  assert (N5 : (0 <= rne64 (t1 + t2))%Q) by (apply rne64_nonneg; lra).
  set (u1 := rne64 (t1 + t2)) in *. set (u1' := rne64 (t1' + t2')) in *.
  assert (M6 : (rne64 (u1 + t3) <= rne64 (u1' + t3'))%Q) by now apply rne64_add_mono.
  assert (N6 : (0 <= rne64 (u1 + t3))%Q) by (apply rne64_nonneg; lra).
  set (u2 := rne64 (u1 + t3)) in *. set (u2' := rne64 (u1' + t3')) in *.
  assert (M7 : (rne64 (u2 + t4) <= rne64 (u2' + t4'))%Q) by now apply rne64_add_mono.
  assert (N7 : (0 <= rne64 (u2 + t4))%Q) by (apply rne64_nonneg; lra).
  set (u3 := rne64 (u2 + t4)) in *. set (u3' := rne64 (u2' + t4')) in *.
  assert (M8 : (rne64 (u3 * 100) <= rne64 (u3' * 100))%Q) by now apply rne64_scale_mono.
  assert (N8 : (0 <= rne64 (u3 * 100))%Q) by (apply rne64_nonneg; lra).
  set (w := rne64 (u3 * 100)) in *. set (w' := rne64 (u3' * 100)) in *.
  assert (M9 : (rne64 (w * 100) <= rne64 (w' * 100))%Q) by now apply rne64_scale_mono.
  assert (N9 : (0 <= rne64 (w * 100))%Q) by (apply rne64_nonneg; lra).
  set (v := rne64 (w * 100)) in *. set (v' := rne64 (w' * 100)) in *.
  apply rne64_percent_mono; [now apply rneZ_ge_Z|now apply rneZ_mono].
Qed.

Lemma compatibility_score_monotone_witness :
  exists q q' : Q,
    _calculate_compatibility_score (Fin (1 # 2)) (Fin (1 # 3)) (Fin 0) (Fin (1 # 3)) = Fin q
    /\ _calculate_compatibility_score (Fin (1 # 2)) (Fin 1) (Fin (4 # 5)) (Fin (1 # 3)) = Fin q'
    /\ (q <= q')%Q.
Proof.
  apply (compatibility_score_monotone (1 # 2) (1 # 3) 0 (1 # 3) (1 # 2) 1 (4 # 5) (1 # 3));
    vm_compute; discriminate.
Defined.

(** *** The text of a match *)

Lemma derives_lang (r : regex) (c c' : cursor) :
  derives r c c' -> exists w, rest c = w ++ rest c' /\ lang r w.
Proof.
  induction 1 as [p q x t Hp|c|r1 r2 c c1 c2 _ IH1 _ IH2|r1 r2 c c' _ IH|r1 r2 c c' _ IH
                 |greedy r c|greedy r c c1 c2 _ IH1 _ IH2|i r c c' _ IH|a c Ha|r c c1 _ _];
    cbn [rest lang].
  - exists [x]. split; [reflexivity|]. now exists x.
  - now exists [].
  - destruct IH1 as (w1 & E1 & L1), IH2 as (w2 & E2 & L2).
    exists (w1 ++ w2). split; [now rewrite E1, E2, app_assoc|]. now exists w1, w2.
  - destruct IH as (w & E & L). exists w. auto.
  - destruct IH as (w & E & L). exists w. auto.
  - exists []. split; [reflexivity|]. now exists [].
  - destruct IH1 as (w1 & E1 & L1), IH2 as (w2 & E2 & ws & -> & L2).
    exists (w1 ++ mjoin ws). split; [now rewrite E1, E2, app_assoc|].
    exists (w1 :: ws). split; [reflexivity|]. now constructor.
  - exact IH.
  - now exists [].
  - now exists [].
Qed.

(** Every match of [finditer] covers a part of the text that the pattern
    can match. *)
Lemma finditer_lang (r : regex) (s : list N) (m : rmatch) :
  m ∈ finditer r s -> substring (group0 m) s /\ lang r (group0 m).
Proof.
  intros Hm. apply finditer_derives in Hm as (pre & post & E & D).
  split; [now exists pre, post|].
  apply derives_lang in D as (w & Ew & L). cbn [rest position] in Ew.
  apply app_inv_tail in Ew. now subst w.
Qed.

Lemma lang_Lit (s w : list N) : lang (Lit N.eqb s) w -> w = s.
Proof.
  revert w. induction s as [|x s IH]; intros w; cbn [Lit lang]; [easy|].
  intros (w1 & w2 & -> & (y & -> & E) & L). apply N.eqb_eq in E. subst y.
  cbn. f_equal. now apply IH.
Qed.

Lemma lang_Star_Chr (greedy : bool) (p : N -> bool) (w : list N) :
  lang (Star greedy (Chr p)) w -> Forall (fun x => p x = true) w.
Proof.
  cbn [lang]. intros (ws & -> & Hws). induction Hws as [|w ws (x & -> & Hx) _ IH]; [constructor|].
  cbn. now constructor.
Qed.

Lemma lang_Plus_Chr (p : N -> bool) (w : list N) :
  lang (Plus (Chr p)) w -> w <> [] /\ Forall (fun x => p x = true) w.
Proof.
  unfold Plus. intros (w1 & w2 & -> & (x & -> & Hx) & L). apply lang_Star_Chr in L.
  split; [discriminate|]. now constructor.
Qed.

Lemma lang_Times_Chr (n : nat) (p : N -> bool) (w : list N) :
  lang (Times n (Chr p)) w -> length w = n /\ Forall (fun x => p x = true) w.
Proof.
  revert w. induction n as [|n IH]; intros w; cbn [Times lang].
  - intros ->. split; [reflexivity|constructor].
  - intros (w1 & w2 & -> & (x & -> & Hx) & L). apply IH in L as [<- L].
    split; [reflexivity|]. now constructor.
Qed.

Lemma lang_AtLeast_Chr (n : nat) (p : N -> bool) (w : list N) :
  lang (AtLeast n (Chr p)) w -> (n <= length w)%nat /\ Forall (fun x => p x = true) w.
Proof.
  unfold AtLeast. intros (w1 & w2 & -> & L1 & L2).
  apply lang_Times_Chr in L1 as [<- L1]. apply lang_Star_Chr in L2.
  rewrite length_app. split; [lia|]. now apply Forall_app.
Qed.

Lemma lang_Opt_Chr (p : N -> bool) (w : list N) :
  lang (Opt (Chr p)) w -> w = [] \/ exists x, w = [x] /\ p x = true.
Proof. unfold Opt. cbn [lang]. tauto. Qed.

(** *** Links *)

Lemma findall_lang (r : regex) (s w : list N) :
  w ∈ findall r s -> substring w s /\ lang r w.
Proof.
  unfold findall. intros Hw. apply list_elem_of_fmap in Hw as (m & -> & Hm).
  now apply finditer_lang.
Qed.

(** X9: the links that [_extract_links] returns are distinct parts of the
    text; each is "http://" or "https://", then a character that is neither
    a blank nor one of [/$.?#], then any character but a newline (a blank is
    accepted there), then characters that are not blanks. *)
Theorem extract_links_shape (text : list N) :
  NoDup (_extract_links text)
  /\ Forall (fun link =>
       substring link text
       /\ exists (scheme : list N) (x y : N) (tail : list N),
            link = scheme ++ x :: y :: tail
            /\ (scheme = py "http://" \/ scheme = py "https://")
            /\ isspace x = false /\ existsb (N.eqb x) (py "/$.?#") = false
            /\ y <> newline
            /\ Forall (fun c => isspace c = false) tail)
     (_extract_links text).
Proof.
  unfold _extract_links, set_of. split; [apply NoDup_elements|].
  apply Forall_forall. intros link Hl.
  apply elem_of_elements, elem_of_list_to_set, findall_lang in Hl as [Hsub L].
  split; [exact Hsub|]. cbn [Cats] in L.
  destruct L as (w1 & r1 & -> & L1 & w2 & r2 & -> & L2 & w3 & r3 & -> & L3
                 & w4 & r4 & -> & (x & -> & Hx) & w5 & r5 & -> & (y & -> & Hy)
                 & w6 & r6 & -> & L6 & Hr6).
  cbn [lang] in Hr6. subst r6.
  apply lang_Lit in L1, L3. subst w1 w3. apply lang_Star_Chr in L6.
  apply negb_true_iff, orb_false_iff in Hx as [Hx1 Hx2].
  exists (py "http" ++ w2 ++ py "://"), x, y, w6. rewrite app_nil_r. repeat split.
  - now rewrite <- !app_assoc.
  - apply lang_Opt_Chr in L2 as [->|(c & -> & Hc)]; [now left|right].
    apply N.eqb_eq in Hc. now subst c.
  - exact Hx1.
  - exact Hx2.
  - intros ->. discriminate.
  - eapply Forall_impl; [exact L6|]. intros c Hc. now apply negb_true_iff in Hc.
Qed.

(** *** Personal information *)

Lemma scan_class_drop (q : N -> bool) (fuel : nat) (p : option N) (s : list N) :
  (length s < fuel)%nat ->
  replaced [] (scan fuel (Chr q) {| prev := p; rest := s |})
  = filter (fun c => q c = false) s.
Proof.
  revert p s. induction fuel as [|fuel IH]; intros p s Hlen; [lia|].
  destruct s as [|x t]; [reflexivity|].
  cbn [scan]. unfold match_at. cbn [run rest]. unfold accept.
  cbn in Hlen.
  destruct (q x) eqn:E.
  - unfold between. cbn [rest]. replace (length (x :: t) - length t)%nat with 1%nat by (cbn; lia).
    cbn [take]. rewrite filter_cons_False by congruence.
    unfold replaced. cbn [fmap list_fmap mjoin list_join app].
    rewrite <- (IH (Some x) t) by lia. reflexivity.
  - rewrite filter_cons_True by assumption. unfold replaced. cbn. f_equal. apply IH. lia.
Qed.

Lemma sub_drop (q : N -> bool) (s : list N) :
  sub (Chr q) [] s = filter (fun c => q c = false) s.
Proof. apply scan_class_drop. lia. Qed.

Lemma search_lang (r : regex) (s : list N) (m : rmatch) :
  search r s = Some m -> substring (group0 m) s /\ lang r (group0 m).
Proof. intros E. now apply finditer_lang, search_elem. Qed.

(** X10: [_extract_personal_info] raises what the pipeline raises on the text
    and nothing else.  The phone it reports holds decimal digits only: the
    digits of a part of the text of at least 11 characters, or nothing.  The
    email is empty or a part of the text of the form local@domain.tld, the
    local part and the domain not empty and made of word characters, dots
    and hyphens, the last label of two word characters or more.  The links
    are those of [_extract_links]. *)
Theorem personal_info_shape `{Interpreter} `{LanguageModel} (text : list N) :
  match nlp text with
  | Ok doc =>
      exists info,
        _extract_personal_info text = Ok info
        /\ Forall (fun c => isdigit c = true) (phone info)
        /\ (exists w, (w = [] \/ (substring w text /\ (11 <= length w)%nat))
                      /\ phone info = filter (fun c => isdigit c = true) w)
        /\ (email info = []
            \/ (substring (email info) text
                /\ exists local domain tld,
                     email info = local ++ py "@" ++ domain ++ py "." ++ tld
                     /\ local <> [] /\ domain <> [] /\ (2 <= length tld)%nat
                     /\ Forall (fun c => isword c = true) tld
                     /\ Forall (fun c => isword c || (c =? chr ".")%N || (c =? chr "-")%N = true)
                          (local ++ domain)))
        /\ links info = _extract_links text
  | Raise e => _extract_personal_info text = Raise e
  end.
Proof.
  unfold _extract_personal_info. destruct (nlp text) as [doc|e]; [|reflexivity].
  rewrite bind_Ok. eexists. split; [reflexivity|]. cbn [phone email links].
  assert (Hf : forall w, sub (Chr (fun c => negb (isdigit c))) [] w
                         = filter (fun c => isdigit c = true) w).
  { intros w. rewrite sub_drop. apply list_filter_iff. intros c.
    now rewrite negb_false_iff. }
  split; [|split; [|split; [|reflexivity]]].
  - destruct (search _ text) as [m|] in |- *; cbn [from_option]; [|constructor].
    rewrite Hf. apply Forall_forall. intros c Hc. now apply list_elem_of_filter in Hc as [Hc _].
  - match goal with |- context [from_option _ [] ?s] => destruct s as [m|] eqn:E end;
      cbn [from_option].
    + exists (group0 m). split; [right|apply Hf].
      apply search_lang in E as [Hsub L]. split; [exact Hsub|].
      cbn [Cats lang] in L.
      destruct L as (w1 & r1 & Hw & -> & w2 & r2 & -> & L2 & w3 & r3 & -> & L3
                     & w4 & r4 & -> & (d & -> & Hd) & w5 & r5 & -> & -> & ->).
      rewrite Hw. apply lang_AtLeast_Chr in L3 as [L3 _].
      rewrite !length_app. cbn [length]. lia.
    + exists []. split; [now left|reflexivity].
  - match goal with |- context [from_option group0 [] ?s] => destruct s as [m|] eqn:E end;
      cbn [from_option]; [right|now left].
    apply search_lang in E as [Hsub L]. split; [exact Hsub|].
    cbn [Cats lang] in L.
    destruct L as (w1 & r1 & Hw & -> & w2 & r2 & -> & L2 & w3 & r3 & -> & (a & -> & Ha)
                   & w4 & r4 & -> & L4 & w5 & r5 & -> & (b & -> & Hb)
                   & w6 & r6 & -> & L6 & w7 & r7 & -> & -> & ->).
    apply N.eqb_eq in Ha, Hb. subst a b.
    apply lang_Plus_Chr in L2 as [N2 F2], L4 as [N4 F4].
    apply lang_AtLeast_Chr in L6 as [N6 F6].
    exists w2, w4, w6. rewrite Hw. cbn [app]. rewrite !app_nil_r.
    repeat split; try assumption. now apply Forall_app.
Qed.

(** *** Valid skills *)

Lemma search_Alt (r1 r2 : regex) (s : list N) :
  is_Some (search (Alt r1 r2) s) <-> is_Some (search r1 s) \/ is_Some (search r2 s).
Proof.
  rewrite !search_Some. setoid_rewrite match_at_Alt. split.
  - intros (pre & post & E & [M|M]); [left|right]; now exists pre, post.
  - intros [(pre & post & E & M)|(pre & post & E & M)]; exists pre, post; auto.
Qed.

Lemma search_ELit (w : string) (s : list N) :
  is_Some (search (ELit w) s) <-> substring (py w) s.
Proof. unfold ELit. now rewrite search_Lit, contains_substring. Qed.

Lemma not_contains (w s : list N) : contains w s = false <-> ~ substring w s.
Proof. rewrite <- contains_substring. now destruct (contains w s). Qed.

(** X11: a skill is valid exactly when it holds a letter from a to z, its
    lower-cased form holds no word of the blacklist, and it holds no "@", no
    decimal digit and none of ".com", "year", "month", "http" (these four in
    lower case only). *)
Theorem is_valid_skill_spec `{Interpreter} (self : ResumeAnalyzer) (skill : list N) :
  _is_valid_skill self skill = true
  <-> Exists (fun c => (chr "a" <= c)%N /\ (c <= chr "z")%N) skill
      /\ Forall (fun blacklisted => ~ substring blacklisted (lower skill)) (skill_blacklist self)
      /\ Forall (fun c => c <> chr "@" /\ isdigit c = false) skill
      /\ ~ substring (py ".com") skill /\ ~ substring (py "year") skill
      /\ ~ substring (py "month") skill /\ ~ substring (py "http") skill.
Proof.
  unfold _is_valid_skill. rewrite !andb_true_iff, !negb_true_iff.
  rewrite bool_decide_eq_true, bool_decide_eq_false.
  cbn [Alts]. rewrite !search_Alt, !search_ELit. unfold range, one, digit. rewrite !search_Chr.
  assert (Hb : existsb (fun blacklisted => contains blacklisted (lower skill)) (skill_blacklist self)
               = false
               <-> Forall (fun blacklisted => ~ substring blacklisted (lower skill))
                     (skill_blacklist self)).
  { induction (skill_blacklist self) as [|b l IH]; cbn [existsb]; [split; [constructor|reflexivity]|].
    rewrite orb_false_iff, Forall_cons, IH, not_contains. reflexivity. }
  rewrite Hb. clear Hb.
  assert (Hx : Exists (fun x => (chr "a" <=? x)%N && (x <=? chr "z")%N = true) skill
               <-> Exists (fun c => (chr "a" <= c)%N /\ (c <= chr "z")%N) skill).
  { apply Exists_proper; [|reflexivity]. intros c. now rewrite andb_true_iff, !N.leb_le. }
  rewrite Hx. clear Hx.
  assert (Hn : ~ (Exists (fun x => (chr "@" =? x)%N = true) skill
                  \/ substring (py ".com") skill
                  \/ Exists (fun x => isdigit x = true) skill
                  \/ substring (py "year") skill \/ substring (py "month") skill
                  \/ substring (py "http") skill)
               <-> Forall (fun c => c <> chr "@" /\ isdigit c = false) skill
                   /\ ~ substring (py ".com") skill /\ ~ substring (py "year") skill
                   /\ ~ substring (py "month") skill /\ ~ substring (py "http") skill).
  { rewrite Forall_forall, !Exists_exists. split.
    - intros Hn. repeat split; try tauto.
      + intros ->. apply Hn. left. exists (chr "@"). split; [assumption|apply N.eqb_refl].
      + destruct (isdigit x) eqn:E; [|reflexivity]. exfalso. apply Hn. right. right. left.
        now exists x.
    - intros (Hall & H1 & H2 & H3 & H4) [(c & Hc & E)|[?|[(c & Hc & E)|[?|[?|?]]]]]; try tauto.
      + apply N.eqb_eq in E. subst c. now destruct (Hall _ Hc).
      + destruct (Hall _ Hc) as [_ Hd]. congruence. }
  rewrite Hn. tauto.
Qed.

(** *** Education entries *)

Lemma strip_substring (s : list N) : substring (strip s) s.
Proof. destruct (strip_infix s) as (l1 & l2 & E). now exists l1, l2. Qed.

Lemma substring_trans (a b c : list N) : substring a b -> substring b c -> substring a c.
Proof.
  intros (p1 & q1 & ->) (p2 & q2 & ->). exists (p2 ++ p1), (q1 ++ q2).
  now rewrite <- !app_assoc.
Qed.

Lemma substring_elem (x : N) (s : list N) : substring [x] s <-> x ∈ s.
Proof.
  split.
  - intros (pre & post & ->). apply elem_of_app. right. apply elem_of_cons. now left.
  - intros Hx. apply list_elem_of_split in Hx as (pre & post & ->). now exists pre, post.
Qed.

(** X12: every entry that [_extract_education] returns is a part of the text
    without blanks at its ends, longer than five characters, and holds
    neither "http" nor "@". *)
Theorem extract_education_entries `{Interpreter} (text : list N) :
  Forall (fun edu =>
            substring edu text /\ trimmed edu /\ (5 < length edu)%nat
            /\ ~ substring (py "http") edu /\ ~ substring (py "@") edu)
    (_extract_education text).
Proof.
  unfold _extract_education. apply Forall_forall. intros edu He.
  apply list_elem_of_omap in He as (m & Hm & E).
  cbv zeta in E.
  destruct ((5 <? length (strip (group0 m)))%nat
            && negb (bool_decide (is_Some (search (Alt (ELit "http") (one "@"))
                                             (strip (group0 m)))))) eqn:C; [|discriminate].
  injection E as <-. apply andb_prop in C as [Hl Hs].
  apply Nat.ltb_lt in Hl. apply negb_true_iff, bool_decide_eq_false in Hs.
  rewrite search_Alt, search_ELit in Hs. unfold one in Hs. rewrite search_Chr in Hs.
  split; [|split; [apply strip_trimmed|split; [exact Hl|split]]].
  - apply substring_trans with (group0 m); [apply strip_substring|].
    now apply finditer_lang in Hm as [Hsub _].
  - tauto.
  - intros Hat. apply Hs. right. change (py "@") with [chr "@"] in Hat.
    apply substring_elem in Hat. apply Exists_exists. exists (chr "@").
    split; [exact Hat|apply N.eqb_refl].
Qed.

(** *** Splitting a text at the matches of a pattern *)

(** The pieces of a scan cover the text, in order. *)
Lemma scan_text (r : regex) (fuel : nat) :
  forall pre post, (length post < fuel)%nat ->
    mjoin (text_of <$> scan fuel r (position pre post)) = post.
Proof.
  induction fuel as [|fuel IH]; intros pre post Hf; [lia|].
  rewrite scan_S.
  assert (Step : mjoin (text_of <$> match post with
                                    | x :: t => Text x :: scan fuel r {| prev := Some x; rest := t |}
                                    | [] => []
                                    end) = post).
  { destruct post as [|x t]; [reflexivity|]. rewrite (position_next pre).
    cbn [fmap list_fmap text_of mjoin list_join app]. f_equal. cbn in Hf.
    fold (fmap text_of (scan fuel r (position (pre ++ [x]) t))).
    fold (mjoin (text_of <$> scan fuel r (position (pre ++ [x]) t))).
    apply IH. lia. }
  destruct (match_at r (position pre post)) as [[c' [w0 g0]]|] eqn:E.
  - pose proof (match_at_sound _ _ _ _ _ E) as (w & post' & -> & -> & Hw & _).
    cbn [group0] in Hw. subst w0. destruct w as [|x t].
    + cbn [from_option snd rest position app] in *. rewrite fmap_cons.
      cbn [text_of group0]. change (mjoin ([] :: ?l)) with ([] ++ mjoin l).
      exact Step.
    + rewrite fmap_cons. cbn [text_of group0].
      change (mjoin ((x :: t) :: ?l)) with ((x :: t) ++ mjoin l). f_equal.
      apply IH. rewrite length_app in Hf. cbn in Hf. lia.
  - cbn [from_option app rest position]. exact Step.
Qed.

Lemma split_at_hits_substring (ps : list piece) :
  forall current,
    Forall (fun x => substring x (current ++ mjoin (text_of <$> ps))) (split_at_hits ps current).
Proof.
  induction ps as [|[c|m] ps IH]; intros current; cbn [split_at_hits].
  - constructor; [|constructor]. exists [], []. cbn. now rewrite !app_nil_r.
  - specialize (IH (current ++ [c])). eapply Forall_impl; [exact IH|].
    intros x. cbn. now rewrite <- app_assoc.
  - constructor.
    + exists [], (mjoin (text_of <$> Hit m :: ps)). reflexivity.
    + specialize (IH []). eapply Forall_impl; [exact IH|].
      intros x (pre & post & E). cbn [app] in E.
      exists (current ++ group0 m ++ pre), post. rewrite fmap_cons. cbn [text_of].
      change (mjoin (group0 m :: ?l)) with (group0 m ++ mjoin l). rewrite E.
      now rewrite <- !app_assoc.
Qed.

(** The strings that [re.split] returns are parts of the text. *)
Lemma resplit_substring (r : regex) (s : list N) :
  Forall (fun x => substring x s) (resplit r s).
Proof.
  unfold resplit, pieces. pose proof (split_at_hits_substring
    (scan (S (length s)) r {| prev := None; rest := s |}) []) as Hs.
  change {| prev := None; rest := s |} with (position [] s) in Hs.
  rewrite (scan_text r (S (length s)) [] s ltac:(lia)) in Hs. exact Hs.
Qed.

(** *** The best match in the vocabulary *)

Section Vocabulary.
Context `{FuzzyMatcher}.
Local Open Scope Q_scope.

Lemma extractOne_spec (query : list N) (choices : list (list N)) (cutoff : Q) :
  match extractOne query choices cutoff with
  | Some best =>
      best ∈ choices /\ cutoff <= token_sort_ratio query best
      /\ Forall (fun choice => token_sort_ratio query choice <= token_sort_ratio query best) choices
  | None => Forall (fun choice => token_sort_ratio query choice < cutoff) choices
  end.
Proof.
  unfold extractOne.
  set (step := fun (best : option (list N * Q)) choice =>
         let score := token_sort_ratio query choice in
         if Qle_bool cutoff score
            && match best with
               | Some (_, top) => negb (Qle_bool score top)
               | None => true
               end
         then Some (choice, score) else best).
  assert (G : forall seen best,
             match best with
             | Some (b, top) =>
                 b ∈ seen /\ top = token_sort_ratio query b /\ cutoff <= top
                 /\ Forall (fun choice => token_sort_ratio query choice <= top) seen
             | None => Forall (fun choice => token_sort_ratio query choice < cutoff) seen
             end ->
             match fst <$> fold_left step choices best with
             | Some b =>
                 b ∈ seen ++ choices /\ cutoff <= token_sort_ratio query b
                 /\ Forall (fun choice => token_sort_ratio query choice <= token_sort_ratio query b)
                      (seen ++ choices)
             | None => Forall (fun choice => token_sort_ratio query choice < cutoff) (seen ++ choices)
             end).
  { induction choices as [|c l IH]; intros seen best Hb; cbn [fold_left].
    - rewrite app_nil_r. destruct best as [[b top]|]; cbn [fmap option_fmap option_map fst].
      + destruct Hb as (Hin & -> & Hc & Hall). auto.
      + exact Hb.
    - replace (seen ++ c :: l) with ((seen ++ [c]) ++ l) by now rewrite <- app_assoc.
      apply IH. unfold step at 1. cbv zeta.
      destruct (Qle_bool cutoff (token_sort_ratio query c)) eqn:Ec; cbn [andb].
      + apply Qle_bool_iff in Ec. destruct best as [[b top]|].
        * destruct Hb as (Hin & -> & Hc & Hall).
          destruct (Qle_bool (token_sort_ratio query c) (token_sort_ratio query b)) eqn:Et;
            cbn [negb].
          -- apply Qle_bool_iff in Et. repeat split; try assumption.
             ++ apply elem_of_app. now left.
             ++ apply Forall_app. split; [exact Hall|]. now repeat constructor.
          -- assert (Hlt : token_sort_ratio query b < token_sort_ratio query c).
             { apply Qnot_le_lt. intros Hle. apply Qle_bool_iff in Hle. congruence. }
             repeat split; try assumption.
             ++ apply elem_of_app. right. apply list_elem_of_singleton. reflexivity.
             ++ apply Forall_app. split; [|repeat constructor; apply Qle_refl].
                eapply Forall_impl; [exact Hall|]. intros x Hx. cbn in Hx. lra.
        * repeat split; try assumption.
          -- apply elem_of_app. right. apply list_elem_of_singleton. reflexivity.
          -- apply Forall_app. split; [|repeat constructor; apply Qle_refl].
             eapply Forall_impl; [exact Hb|]. intros x Hx. cbn in Hx. lra.
      + assert (Hlt : token_sort_ratio query c < cutoff).
        { apply Qnot_le_lt. intros Hle. apply Qle_bool_iff in Hle. congruence. }
        destruct best as [[b top]|].
        * destruct Hb as (Hin & -> & Hc & Hall). repeat split; try assumption.
          -- apply elem_of_app. now left.
          -- apply Forall_app. split; [exact Hall|]. repeat constructor. lra.
        * apply Forall_app. split; [exact Hb|]. now repeat constructor. }
  apply (G [] None). constructor.
Qed.

End Vocabulary.

(** *** The skills of a line *)

(** X13: every skill that [_process_skill_line] returns for a line comes
    from a fragment of the line without blanks at its ends, of 3 to 40
    characters.  Without a vocabulary the skill is that fragment; with one
    it is the entry of the vocabulary whose [token_sort_ratio] with the
    fragment is the highest, and that ratio is at least 85.  No skill is the
    empty string. *)
Theorem process_skill_line_skills `{Interpreter} `{FuzzyMatcher} (self : ResumeAnalyzer)
    (line : list N) :
  Forall (fun skill =>
            skill <> []
            /\ exists fragment,
                 substring fragment line /\ trimmed fragment
                 /\ (3 <= length fragment <= 40)%nat
                 /\ match known_skills self with
                    | [] => skill = fragment
                    | _ =>
                        skill ∈ known_skills self
                        /\ (85 <= token_sort_ratio fragment skill)%Q
                        /\ Forall (fun other => (token_sort_ratio fragment other
                                                 <= token_sort_ratio fragment skill)%Q)
                             (known_skills self)
                    end)
    (_process_skill_line self line).
Proof.
  unfold _process_skill_line. apply Forall_forall. intros skill Hs.
  apply list_elem_of_omap in Hs as (piece & Hp & E). cbv zeta in E.
  match type of Hp with _ ∈ resplit ?r _ =>
    pose proof (resplit_substring r line) as Hsub end.
  rewrite Forall_forall in Hsub. apply Hsub in Hp. clear Hsub.
  destruct ((3 <=? length (strip piece))%nat && (length (strip piece) <=? 40)%nat) eqn:Hl;
    [|discriminate].
  apply andb_prop in Hl as [H3 H40]. apply Nat.leb_le in H3, H40.
  destruct (_match_known_skill self (strip piece)) as [[|c m]|] eqn:Em; try discriminate.
  injection E as <-. split; [discriminate|].
  exists (strip piece). split; [|split; [apply strip_trimmed|split; [lia|]]].
  - apply substring_trans with piece; [apply strip_substring|exact Hp].
  - unfold _match_known_skill in Em. destruct (known_skills self) as [|k ks] eqn:Ek.
    + now injection Em as <-.
    + pose proof (extractOne_spec (strip piece) (k :: ks) 85) as Hx.
      rewrite Em in Hx. exact Hx.
Qed.

(** *** The skills of a text *)

(** X14: [_extract_skills] returns what [_extract_noun_phrases] returns when
    the text has no skills section, and whenever the section yields no
    fragment at all; otherwise it returns,
    without the noun phrases, a list free of duplicates and sorted by
    descending length and then lexicographically, whose entries are the
    stripped lower-cased forms of valid skills (an empty list when no
    fragment of the section is valid). *)
Theorem extract_skills_invariants `{Interpreter} `{LanguageModel} `{FuzzyMatcher}
    (self : ResumeAnalyzer) (text : list N) :
  (_extract_section text (Alts [ILit "skills"; ILit "technical skills"; ILit "competencies"]) = []
   -> _extract_skills self text = _extract_noun_phrases text)
  /\ (_extract_skills self text = _extract_noun_phrases text
      \/ exists skills,
           _extract_skills self text = Ok skills
           /\ NoDup skills
           /\ StronglySorted vocabulary_order skills
           /\ Forall (fun x => exists skill, _is_valid_skill self skill = true
                                             /\ x = strip (lower skill)) skills).
Proof.
  split; [intros E; unfold _extract_skills; rewrite E; reflexivity|].
  unfold _extract_skills. cbv zeta.
  match goal with |- context [match ?l with [] => _ | _ :: _ => _ end] =>
    destruct l as [|s0 found] end; [now left|right].
  eexists. split; [reflexivity|]. split; [|split].
  - rewrite (sorted_perm by_length_then_text). apply NoDup_elements.
  - apply (sorted_sorted by_length_then_text vocabulary_order).
    + apply by_length_then_text_order.
    + apply vocabulary_order_total.
    + apply vocabulary_order_trans.
  - apply Forall_forall. intros x Hx.
    rewrite (sorted_perm by_length_then_text) in Hx. unfold set_of in Hx.
    apply elem_of_elements, elem_of_list_to_set, list_elem_of_fmap in Hx as (skill & -> & Hs).
    apply list_elem_of_filter in Hs as [Hv _]. now exists skill.
Qed.

(** *** Sections *)

Lemma split_no_sep (sep : N) (s : list N) : Forall (fun line => sep ∉ line) (split sep s).
Proof.
  induction s as [|x t IH]; cbn [split].
  - constructor; [apply not_elem_of_nil|constructor].
  - destruct (N.eqb_spec x sep) as [->|NE].
    + constructor; [apply not_elem_of_nil|exact IH].
    + destruct (split sep t) as [|h r]; [repeat constructor; now apply not_elem_of_cons|].
      apply Forall_cons in IH as [Hh Hr]. constructor; [|exact Hr].
      apply not_elem_of_cons. now split.
Qed.

Lemma substring_not_elem (x : N) (w s : list N) : substring w s -> x ∉ s -> x ∉ w.
Proof.
  intros (pre & post & ->) Hn Hx. apply Hn. apply elem_of_app. right.
  apply elem_of_app. now left.
Qed.

Lemma join_not_elem (x : N) (sep : list N) (parts : list (list N)) :
  x ∉ sep -> Forall (fun part => x ∉ part) parts -> x ∉ join sep parts.
Proof.
  intros Hsep. induction 1 as [|p parts Hp _ IH]; [apply not_elem_of_nil|].
  cbn [join]. destruct parts as [|q parts]; [exact Hp|].
  rewrite !not_elem_of_app. auto.
Qed.

Lemma section_loop_not_elem (x : N) (section_pattern : regex) (lines_in : list (list N)) :
  Forall (fun line => x ∉ line) lines_in ->
  forall capture lines,
    Forall (fun line => x ∉ line) lines ->
    Forall (fun line => x ∉ line) (section_loop section_pattern lines_in capture lines).
Proof.
  induction 1 as [|line lines_in Hl _ IH]; intros capture lines Hlines; cbn [section_loop].
  - exact Hlines.
  - destruct (bool_decide _); [now apply IH|].
    destruct capture; [|now apply IH].
    destruct (_ || _); [exact Hlines|]. apply IH. apply Forall_app. split; [exact Hlines|].
    repeat constructor. eapply substring_not_elem; [apply strip_substring|exact Hl].
Qed.

Lemma section_loop_no_heading (section_name : regex) (lines_in : list (list N)) :
  Forall (fun line => is_heading section_name line = false) lines_in ->
  section_loop (Cats [Bol true; Star true space; Group 1 section_name; Star true space;
                      Star true (one ":"); Star true space; Eol true]) lines_in false []
  = [].
Proof.
  induction 1 as [|line lines_in Hl _ IH]; [reflexivity|]. cbn [section_loop].
  unfold is_heading in Hl. now rewrite Hl.
Qed.

(** X15: [_extract_section] returns the empty string for a text none of
    whose lines is a heading of the section, and what it returns never
    holds a newline. *)
Theorem extract_section_edges (text : list N) (section_name : regex) :
  (Forall (fun line => is_heading section_name line = false) (split newline text)
   -> _extract_section text section_name = [])
  /\ Forall (fun c => c <> newline) (_extract_section text section_name).
Proof.
  unfold _extract_section. cbv zeta. split.
  - intros Hn. now rewrite section_loop_no_heading.
  - apply Forall_forall. intros c Hc ->. revert Hc. apply join_not_elem.
    + intros Hx. apply list_elem_of_singleton in Hx. discriminate.
    + apply section_loop_not_elem; [apply split_no_sep|constructor].
Qed.

(** *** Reading a PDF *)

(** X16: [extract_text] turns every failure of the PDF library into
    [RuntimeError]; otherwise it returns the cleaned text of the pages, a
    page without text counting as empty.  That text is as [_clean_text]
    leaves it, so [analyze], which cleans its input again, gives for it what
    it gives for the raw text of the pages. *)
Theorem extract_text_then_analyze `{Interpreter} `{LanguageModel} `{FuzzyMatcher}
    (pdf : result (list (option (list N)))) :
  match pdf with
  | Ok pages =>
      exists text,
        extract_text pdf = Ok text
        /\ text = _clean_text (join [newline] (default [] <$> pages))
        /\ _clean_text text = text
        /\ forall (self : ResumeAnalyzer) (job_data : gmap string pyobj),
             analyze self text job_data
             = analyze self (join [newline] (default [] <$> pages)) job_data
  | Raise _ => extract_text pdf = Raise RuntimeError
  end.
Proof.
  destruct pdf as [pages|e]; [|reflexivity].
  eexists. split; [reflexivity|]. split; [reflexivity|]. split; [apply clean_text_twice|].
  intros self job_data. unfold analyze. now rewrite clean_text_twice.
Qed.

(** *** The experience lines *)

Lemma mapM_length {A B} (f : A -> result B) (l : list A) (bs : list B) :
  mapM f l = Ok bs -> length bs = length l.
Proof.
  revert bs. induction l as [|x l IH]; intros bs E; cbn [mapM] in E.
  - now injection E as <-.
  - destruct (f x) as [y|e]; [|discriminate]. rewrite bind_Ok in E.
    destruct (mapM f l) as [ys|e]; [|discriminate]. rewrite bind_Ok in E.
    injection E as <-. cbn [length]. f_equal. now apply IH.
Qed.

(** X17: the lines that [_format_experience] writes for the experiences
    found in a text are one line per mention, after a first line
    "Total: N years" that is there exactly when the total N is positive; N
    is the total of years that the experience score is computed from. *)
Theorem format_experience_total `{Interpreter} (self : ResumeAnalyzer) (text : list N)
    (experiences : list experience) (lines : list (list N)) :
  _extract_experience self text = Ok experiences ->
  _format_experience experiences = Ok lines ->
  exists total : Z,
    total_years self text = Ok total
    /\ ((total <= 0)%Z /\ length lines = length experiences
        \/ (0 < total)%Z
           /\ exists digits rest,
                str_of_int total = Ok digits
                /\ lines = (py "Total: " ++ digits ++ py " years") :: rest
                /\ length rest = length experiences).
Proof.
  intros Ee Ef.
  pose proof (extract_experience_total self text) as Et. rewrite Ee, bind_Ok in Et.
  exists (foldr Z.add 0%Z (years_of <$> experiences)). split; [now symmetry|].
  unfold _format_experience in Ef. bind_inv Ef formatted Em.
  apply mapM_length in Em.
  change (fun exp => match exp with duration value => value | range_years years => years end)
    with years_of in Ef.
  destruct (0 <? foldr Z.add 0%Z (years_of <$> experiences))%Z eqn:Ep.
  - apply Z.ltb_lt in Ep. right. split; [exact Ep|]. bind_inv Ef digits Ed.
    injection Ef as <-. now exists digits, formatted.
  - apply Z.ltb_ge in Ep. left. injection Ef as <-. auto.
Qed.

Lemma format_experience_total_witness :
  exists (experiences : list experience) (lines : list (list N)),
    @_extract_experience basic_interpreter (analyzer_of_year 2026)
      (py "5+ years and 2015-present") = Ok experiences
    /\ @_format_experience basic_interpreter experiences = Ok lines
    /\ exists total : Z,
         @total_years basic_interpreter (analyzer_of_year 2026) (py "5+ years and 2015-present")
         = Ok total
         /\ ((total <= 0)%Z /\ length lines = length experiences
             \/ (0 < total)%Z
                /\ exists digits rest,
                     @str_of_int basic_interpreter total = Ok digits
                     /\ lines = (py "Total: " ++ digits ++ py " years") :: rest
                     /\ length rest = length experiences).
Proof.
  eexists _, _. split; [vm_compute; reflexivity|]. split; [vm_compute; reflexivity|].
  apply (@format_experience_total basic_interpreter (analyzer_of_year 2026)
           (py "5+ years and 2015-present")); vm_compute; reflexivity.
Defined.

(** *** The job API client *)

Lemma required_fields_present (fields : gmap string json) :
  filter (fun field => fields !! field = None) required_fields = []
  <-> Forall (fun field => is_Some (fields !! field)) required_fields.
Proof.
  induction required_fields as [|f l IH]; [split; [constructor|reflexivity]|].
  rewrite Forall_cons. destruct (fields !! f) as [v|] eqn:E.
  - rewrite filter_cons_False by (rewrite E; discriminate). rewrite IH.
    split; [intros Hl; split; [eauto|exact Hl]|tauto].
  - rewrite filter_cons_True by exact E. split; [discriminate|].
    intros [[v Hv] _]. discriminate.
Qed.

(** X18: the body of [get_job_details] accepts a parsed response exactly when
    it is an object whose "status" is the string "200" (the number 200 is
    refused) and whose "data" is an object whose "job" is an object that has
    the nine required fields, "requirement" among them; what it returns is
    that job object. *)
Theorem checked_job_spec (json_data : json) (job_data : gmap string json) :
  checked_job json_data = Ok job_data
  <-> exists envelope data : gmap string json,
        json_data = JObject envelope
        /\ envelope !! "status"%string = Some (JString (py "200"))
        /\ envelope !! "data"%string = Some (JObject data)
        /\ data !! "job"%string = Some (JObject job_data)
        /\ Forall (fun field => is_Some (job_data !! field)) required_fields.
Proof.
  unfold checked_job. split.
  - destruct json_data as [| | | | |envelope]; try discriminate. cbn [get]. rewrite bind_Ok.
    destruct (envelope !! "status"%string) as [[| | |s| |]|] eqn:Es; cbn [default from_option id negb];
      try discriminate.
    destruct (bool_decide (s = py "200")) eqn:E200; cbn [negb]; [|discriminate].
    apply bool_decide_eq_true in E200. subst s.
    assert (Job : forall data : gmap string json,
              (job ← Ok (default (JObject ∅) (data !! "job"%string));
               if negb (truthy job) then Raise ValueError
               else match job with
                    | JObject fields =>
                        match filter (fun field => fields !! field = None) required_fields with
                        | [] => Ok fields
                        | _ => Raise ValueError
                        end
                    | _ => Raise AttributeError
                    end) = Ok job_data ->
              data !! "job"%string = Some (JObject job_data)
              /\ Forall (fun field => is_Some (job_data !! field)) required_fields).
    { intros data. rewrite bind_Ok.
      destruct (data !! "job"%string) as [[|b|q|s|items|fields]|] eqn:Ej;
        cbn [default from_option id truthy].
      - discriminate.
      - now destruct b.
      - now destruct (Qeq_bool q 0).
      - now destruct (bool_decide (s = [])).
      - now destruct (bool_decide (items = [])).
      - destruct (bool_decide (fields = ∅)); [discriminate|]. cbn [negb].
        destruct (filter _ required_fields) eqn:Ef; [|discriminate].
        intros [= <-]. split; [reflexivity|]. now apply required_fields_present.
      - rewrite bool_decide_eq_true_2 by reflexivity. discriminate. }
    destruct (envelope !! "data"%string) as [[| | | | |data]|] eqn:Ed;
      cbn [default from_option id]; rewrite ?bind_Ok; cbn [get]; rewrite ?bind_Raise;
      try discriminate.
    intros E. apply Job in E as [Ej Hf]. now exists envelope, data.
  - intros (envelope & data & -> & Es & Ed & Ej & Hf). cbn [get].
    rewrite Es, Ed. cbn [default from_option id]. rewrite !bind_Ok.
    rewrite bool_decide_eq_true_2 by reflexivity. cbn [negb get]. rewrite Ej.
    cbn [default from_option id]. rewrite bind_Ok. cbn [truthy].
    assert (Hne : job_data <> ∅).
    { intros ->. apply Forall_cons in Hf as [[v Hv] _]. now rewrite lookup_empty in Hv. }
    rewrite bool_decide_eq_false_2 by exact Hne. cbn [negb].
    apply required_fields_present in Hf. now rewrite Hf.
Qed.

(** X19: [get_job_details] sends at least one request and at most three; it
    returns the job data of the first request that the body accepts, after
    requests that all failed, and gives up (tenacity's [RetryError]) when
    three requests have failed, which [_get_job_data] turns into
    [RuntimeError]. *)
Theorem get_job_details_retries
    (outcomes : nat -> http_outcome) :
  let sent := snd (get_job_details outcomes) in
  (1 <= sent <= 3)%nat
  /\ match fst (get_job_details outcomes) with
     | Some job_data =>
         attempt (outcomes (sent - 1)%nat) = Some job_data
         /\ Forall (fun n => attempt (outcomes n) = None) (seq 0 (sent - 1))
         /\ _get_job_data outcomes = Ok job_data
     | None =>
         sent = 3%nat
         /\ Forall (fun n => attempt (outcomes n) = None) (seq 0 3)
         /\ _get_job_data outcomes = Raise RuntimeError
     end.
Proof.
  cbv zeta. unfold _get_job_data, get_job_details. cbn [retry].
  destruct (attempt (outcomes 0%nat)) as [j0|] eqn:E0; cbn [fst snd Nat.sub seq].
  - repeat split; try lia; [exact E0|constructor].
  - destruct (attempt (outcomes 1%nat)) as [j1|] eqn:E1; cbn [fst snd Nat.sub seq].
    + repeat split; try lia; [exact E1|now repeat constructor].
    + destruct (attempt (outcomes 2%nat)) as [j2|] eqn:E2; cbn [fst snd Nat.sub seq].
      * repeat split; try lia; [exact E2|now repeat constructor].
      * repeat split; try lia. now repeat constructor.
Qed.

(** *** The view *)

Section ViewFacts.
Context `{Interpreter} `{LanguageModel} `{FuzzyMatcher} `{Deployment}.

Lemma applicant_empty (analysis : AnalysisResult) : applicant analysis = Ok ([], []).
Proof. reflexivity. Qed.

(** What [_process_resume] does to the world. *)
Lemma process_resume_effects (file_path : list N) (job_data : gmap string json)
    (file_hash : list N) (w w' : World) (outcome : result ResumeAnalysis) :
  _process_resume file_path job_data file_hash w = (w', outcome) ->
  match outcome with
  | Raise _ => w' = w
  | Ok record =>
      exists analyzer content text,
        __init__ spacy_load (Some read_skills_csv) now_year = Ok analyzer
        /\ temp_files w !! file_path = Some content
        /\ extract_text (open_pdf content) = Ok text
        /\ ((first_analysis file_hash job_data (rows w) = Some record /\ w' = w)
            \/ (first_analysis file_hash job_data (rows w) = None
                /\ analyze analyzer text (to_pyobj <$> job_data) = Ok (row_analysis_result record)
                /\ record = {| row_id := next_id w;
                               row_resume := available_name (dom (media w))
                                               (py "resumes/" ++ file_hash ++ py ".pdf");
                               row_job_data := job_data;
                               row_analysis_result := row_analysis_result record;
                               row_applicant_name := [];
                               row_applicant_email := [];
                               row_file_hash := file_hash |}
                /\ w' = {| rows := record :: rows w;
                           next_id := (next_id w + 1)%Z;
                           media := <[row_resume record := content]> (media w);
                           temp_files := temp_files w |}))
  end.
Proof.
  unfold _process_resume.
  destruct (__init__ spacy_load (Some read_skills_csv) now_year) as [analyzer|e] eqn:Ei;
    [|now intros [= <- <-]].
  destruct (temp_files w !! file_path) as [content|] eqn:Et.
  - destruct (extract_text (open_pdf content)) as [text|e] eqn:Ex;
      rewrite ?bind_Ok, ?bind_Raise; [|now intros [= <- <-]].
    destruct (analyze analyzer text (to_pyobj <$> job_data)) as [analysis|e] eqn:Ea;
      rewrite ?bind_Ok, ?bind_Raise; [|now intros [= <- <-]].
    rewrite applicant_empty, bind_Ok.
    destruct (first_analysis file_hash job_data (rows w)) as [existing|] eqn:Ef.
    + intros [= <- <-]. exists analyzer, content, text. repeat split; try assumption. now left.
    + intros [= <- <-]. exists analyzer, content, text. repeat split; try assumption.
      right. now repeat split.
  - cbn [extract_text]. rewrite bind_Raise. now intros [= <- <-].
Qed.

Lemma world_eta (w : World) :
  {| rows := rows w; next_id := next_id w; media := media w; temp_files := temp_files w |} = w.
Proof. now destruct w. Qed.

(** What the [try] block of [post] does to the world. *)
Lemma post_body_effects (resume_file : UploadedFile) (outcomes : nat -> http_outcome)
    (w w' : World) (outcome : result Response) :
  temp_files w !! temp_name (dom (temp_files w)) = None ->
  post_body resume_file outcomes w = (w', outcome) ->
  match outcome with
  | Raise _ => w' = w
  | Ok response =>
      (status response = 200%Z /\ w' = w
       /\ exists job_data existing,
            _validate_file resume_file = Ok tt
            /\ _get_job_data outcomes = Ok job_data
            /\ first_analysis (md5_hexdigest (file_content resume_file)) job_data (rows w)
               = Some existing
            /\ data response = CachedAnalysis (row_id existing) (row_job_data existing)
                                 (row_analysis_result existing))
      \/ (status response = 201%Z
          /\ exists job_data analyzer text record,
               _validate_file resume_file = Ok tt
               /\ _get_job_data outcomes = Ok job_data
               /\ first_analysis (md5_hexdigest (file_content resume_file)) job_data (rows w)
                  = None
               /\ __init__ spacy_load (Some read_skills_csv) now_year = Ok analyzer
               /\ extract_text (open_pdf (file_content resume_file)) = Ok text
               /\ analyze analyzer text (to_pyobj <$> job_data) = Ok (row_analysis_result record)
               /\ record = {| row_id := next_id w;
                              row_resume :=
                                available_name (dom (media w))
                                  (py "resumes/" ++ md5_hexdigest (file_content resume_file)
                                   ++ py ".pdf");
                              row_job_data := job_data;
                              row_analysis_result := row_analysis_result record;
                              row_applicant_name := [];
                              row_applicant_email := [];
                              row_file_hash := md5_hexdigest (file_content resume_file) |}
               /\ w' = {| rows := record :: rows w;
                          next_id := (next_id w + 1)%Z;
                          media := <[row_resume record := file_content resume_file]> (media w);
                          temp_files := temp_files w |}
               /\ data response = NewAnalysis (row_id record) (row_job_data record)
                                    (row_analysis_result record))
  end.
Proof.
  intros Hfresh. unfold post_body.
  destruct (_validate_file resume_file) as [[]|e] eqn:Ev; rewrite ?bind_Ok, ?bind_Raise;
    [|now intros [= <- <-]].
  destruct (_get_job_data outcomes) as [job_data|e] eqn:Eg; [|now intros [= <- <-]].
  destruct (first_analysis _ job_data (rows w)) as [existing|] eqn:Ef.
  - intros [= <- <-]. left. cbn [status data]. repeat split. now exists job_data, existing.
  - set (tmp_path := temp_name (dom (temp_files w))) in *.
    set (w1 := {| rows := rows w; next_id := next_id w; media := media w;
                  temp_files := <[tmp_path := file_content resume_file]> (temp_files w) |}).
    destruct (_process_resume tmp_path job_data _ w1) as [w2 r] eqn:Ep.
    apply process_resume_effects in Ep.
    assert (Hdel : delete tmp_path (<[tmp_path := file_content resume_file]> (temp_files w))
                   = temp_files w) by now apply delete_insert_id.
    destruct r as [record|e].
    + destruct Ep as (analyzer & content & text & Ei & Ec & Ex & [[Efirst ->]|(_ & Ea & Er & ->)]).
      * cbn [w1 rows] in Efirst. congruence.
      * subst w1. cbn [temp_files rows next_id media] in *. rewrite lookup_insert_eq in Ec.
        injection Ec as <-. rewrite Hdel. intros [= <- <-]. right. cbn [status data].
        split; [reflexivity|].
        exists job_data, analyzer, text, record. repeat split; auto.
    + subst w2 w1. cbn [temp_files rows next_id media]. rewrite Hdel.
      intros [= <- <-]. apply world_eta.
Qed.

End ViewFacts.

Section PostFacts.
Context `{Interpreter} `{LanguageModel} `{FuzzyMatcher} `{Deployment}.

(** The answers of [post], case by case. *)
Lemma post_cases (r : request) (outcomes : nat -> http_outcome) (w w' : World)
    (response : Response) :
  temp_files w !! temp_name (dom (temp_files w)) = None ->
  post r outcomes w = (w', response) ->
  (w' = w /\ (status response = 400 \/ status response = 500 \/ status response = 502)%Z
   /\ match data response with
      | SerializerErrors | ErrorOf _ | InternalServerError => True
      | _ => False
      end)
  \/ exists resume_file job_id,
       r = Valid resume_file job_id
       /\ post_body resume_file outcomes w = (w', Ok response).
Proof.
  intros Hfresh. destruct r as [|resume_file job_id]; cbn [post].
  - intros [= <- <-]. left. cbn. auto.
  - destruct (post_body resume_file outcomes w) as [w1 [resp|e]] eqn:Eb.
    + intros [= <- <-]. right. now exists resume_file, job_id.
    + apply (post_body_effects _ _ _ _ _ Hfresh) in Eb. cbv beta iota in Eb. subst w1.
      destruct e; intros [= <- <-]; left; cbn; auto.
Qed.

End PostFacts.

(** X20: [post] leaves no temporary file behind and changes the table and
    the stored media only when it answers 201: then it has added one row,
    with the next id, the MD5 digest of the upload and the job data of the
    API, and stored the upload under the name of the row; with every other
    answer (200, 400, 500 or 502) the rows, the media and the temporary
    files are as before.  The hypothesis is that the temporary file is a new
    file. *)
Theorem post_effects `{Interpreter} `{LanguageModel} `{FuzzyMatcher} `{Deployment}
    (r : request) (outcomes : nat -> http_outcome) (w w' : World) (response : Response) :
  temp_files w !! temp_name (dom (temp_files w)) = None ->
  post r outcomes w = (w', response) ->
  temp_files w' = temp_files w
  /\ ((status response = 201%Z
       /\ exists resume_file job_id record,
            r = Valid resume_file job_id
            /\ rows w' = record :: rows w
            /\ row_id record = next_id w /\ next_id w' = (next_id w + 1)%Z
            /\ row_file_hash record = md5_hexdigest (file_content resume_file)
            /\ _get_job_data outcomes = Ok (row_job_data record)
            /\ media w' = <[row_resume record := file_content resume_file]> (media w)
            /\ data response = NewAnalysis (row_id record) (row_job_data record)
                                 (row_analysis_result record))
      \/ ((status response = 200 \/ status response = 400 \/ status response = 500
           \/ status response = 502)%Z
          /\ w' = w)).
Proof.
  intros Hfresh Ep. destruct (post_cases _ _ _ _ _ Hfresh Ep)
    as [(-> & Hs & _)|(resume_file & job_id & -> & Eb)].
  - split; [reflexivity|]. right. split; [tauto|reflexivity].
  - apply (post_body_effects _ _ _ _ _ Hfresh) in Eb. cbv beta iota in Eb.
    destruct Eb as [(Hs & -> & _)|(Hs & job_data & analyzer & text & record & _ & Ej & _ & _ & _ & _
                                   & Er & -> & Hd)].
    + split; [reflexivity|]. right. split; [tauto|reflexivity].
    + split; [reflexivity|]. left. split; [exact Hs|].
      exists resume_file, job_id, record. cbn [rows next_id media].
      pose proof (f_equal row_id Er) as Hid. pose proof (f_equal row_file_hash Er) as Hh.
      pose proof (f_equal row_job_data Er) as Hj. cbn [row_id row_file_hash row_job_data] in *.
      repeat split; try reflexivity; try assumption. now rewrite Hj.
Qed.

Lemma post_effects_witness :
  let out := @post basic_interpreter blank_model blank_matcher (sample_deployment sample_resume)
               (Valid sample_upload 7) sample_outcomes empty_world in
  status (snd out) = 201%Z
  /\ temp_files (fst out) = temp_files empty_world
  /\ ((status (snd out) = 201%Z
       /\ exists resume_file job_id record,
            Valid sample_upload 7 = Valid resume_file job_id
            /\ rows (fst out) = record :: rows empty_world
            /\ row_id record = next_id empty_world
            /\ next_id (fst out) = (next_id empty_world + 1)%Z
            /\ row_file_hash record
               = @md5_hexdigest (sample_deployment sample_resume) (file_content resume_file)
            /\ _get_job_data sample_outcomes = Ok (row_job_data record)
            /\ media (fst out)
               = <[row_resume record := file_content resume_file]> (media empty_world)
            /\ data (snd out) = NewAnalysis (row_id record) (row_job_data record)
                                  (row_analysis_result record))
      \/ ((status (snd out) = 200 \/ status (snd out) = 400 \/ status (snd out) = 500
           \/ status (snd out) = 502)%Z
          /\ fst out = empty_world)).
Proof.
  intros out. split; [vm_compute; reflexivity|].
  apply (@post_effects basic_interpreter blank_model blank_matcher
           (sample_deployment sample_resume) (Valid sample_upload 7) sample_outcomes empty_world).
  - vm_compute. reflexivity.
  - apply surjective_pairing.
Defined.

(** X21: the applicant's name and email that [_process_resume] stores with a
    row are always empty strings, whatever name and email the analysis
    stored in the same row holds: every row of the table after [post] was
    there before, or has both fields empty. *)
Theorem stored_applicant_is_empty `{Interpreter} `{LanguageModel} `{FuzzyMatcher} `{Deployment}
    (r : request) (outcomes : nat -> http_outcome) (w w' : World) (response : Response) :
  temp_files w !! temp_name (dom (temp_files w)) = None ->
  post r outcomes w = (w', response) ->
  Forall (fun record =>
            record ∈ rows w
            \/ (row_applicant_name record = [] /\ row_applicant_email record = []))
    (rows w').
Proof.
  intros Hfresh Ep. destruct (post_cases _ _ _ _ _ Hfresh Ep)
    as [(-> & _)|(resume_file & job_id & -> & Eb)].
  - apply Forall_forall. auto.
  - apply (post_body_effects _ _ _ _ _ Hfresh) in Eb. cbv beta iota in Eb.
    destruct Eb as [(_ & -> & _)|(_ & job_data & analyzer & text & record & _ & _ & _ & _ & _ & _
                                  & Er & -> & _)].
    + apply Forall_forall. auto.
    + cbn [rows]. constructor.
      * right. pose proof (f_equal row_applicant_name Er) as Hn.
        pose proof (f_equal row_applicant_email Er) as He. now split.
      * apply Forall_forall. auto.
Qed.

Lemma stored_applicant_is_empty_witness :
  let out := @post basic_interpreter blank_model blank_matcher (sample_deployment sample_resume)
               (Valid sample_upload 7) sample_outcomes empty_world in
  email <$> (cv_data <$> (row_analysis_result <$> head (rows (fst out))))
  = Some (py "john@example.com")
  /\ Forall (fun record =>
               record ∈ rows empty_world
               \/ (row_applicant_name record = [] /\ row_applicant_email record = []))
       (rows (fst out)).
Proof.
  intros out. split; [vm_compute; reflexivity|].
  apply (@stored_applicant_is_empty basic_interpreter blank_model blank_matcher
           (sample_deployment sample_resume) (Valid sample_upload 7) sample_outcomes
           empty_world (fst out) (snd out)).
  - vm_compute. reflexivity.
  - apply surjective_pairing.
Defined.

(** X22: a second identical upload is answered from the table: when [post]
    has answered 201, the same request, with the job API giving the same job
    data, is answered 200 with the id, the job data and the analysis of the
    row that the first call stored, and changes nothing.  The hypotheses are
    that the temporary file is a new file and that the lookup of the
    database on the JSON column finds a value equal to the one stored. *)
Theorem post_twice `{Interpreter} `{LanguageModel} `{FuzzyMatcher} `{Deployment}
    (r : request) (outcomes outcomes' : nat -> http_outcome) (w w1 : World)
    (response : Response) :
  temp_files w !! temp_name (dom (temp_files w)) = None ->
  (forall job_data, same_json job_data job_data = true) ->
  post r outcomes w = (w1, response) ->
  status response = 201%Z ->
  _get_job_data outcomes' = _get_job_data outcomes ->
  exists analysis_id job_data analysis,
    data response = NewAnalysis analysis_id job_data analysis
    /\ post r outcomes' w1
       = (w1, {| data := CachedAnalysis analysis_id job_data analysis; status := 200 |}).
Proof.
  intros Hfresh Hsame Ep Hs Eg.
  destruct (post_cases _ _ _ _ _ Hfresh Ep) as [(_ & Hs' & _)|(resume_file & job_id & -> & Eb)];
    [lia|].
  apply (post_body_effects _ _ _ _ _ Hfresh) in Eb. cbv beta iota in Eb.
  destruct Eb as [(Hs' & _)|(_ & job_data & analyzer & text & record & Ev & Ej & _ & _ & _ & _
                            & Er & -> & Hd)]; [lia|].
  exists (row_id record), (row_job_data record), (row_analysis_result record).
  split; [exact Hd|]. cbn [post]. unfold post_body. rewrite Ev, bind_Ok, Eg, Ej. cbn [rows].
  assert (Ef : first_analysis (md5_hexdigest (file_content resume_file)) job_data
                 (record :: rows w) = Some record).
  { unfold first_analysis. rewrite filter_cons_True; [reflexivity|].
    pose proof (f_equal row_file_hash Er) as Hh. pose proof (f_equal row_job_data Er) as Hj.
    cbn [row_file_hash row_job_data] in Hh, Hj. rewrite Hh, Hj, Hsame.
    unfold str_eqb. now rewrite bool_decide_eq_true_2. }
  now rewrite Ef.
Qed.

Lemma post_twice_witness :
  let out := @post basic_interpreter blank_model blank_matcher (strict_deployment sample_resume)
               (Valid sample_upload 7) sample_outcomes empty_world in
  exists analysis_id job_data analysis,
    data (snd out) = NewAnalysis analysis_id job_data analysis
    /\ @post basic_interpreter blank_model blank_matcher (strict_deployment sample_resume)
         (Valid sample_upload 7) sample_outcomes (fst out)
       = (fst out, {| data := CachedAnalysis analysis_id job_data analysis; status := 200 |}).
Proof.
  intros out.
  apply (@post_twice basic_interpreter blank_model blank_matcher (strict_deployment sample_resume)
           (Valid sample_upload 7) sample_outcomes sample_outcomes empty_world).
  - vm_compute. reflexivity.
  - reflexivity.
  - apply surjective_pairing.
  - vm_compute. reflexivity.
  - reflexivity.
Defined.

(** X23: how a failure of the analysis is answered.  When the upload is
    valid, the job API has answered and the table holds no analysis of this
    upload for this job, an exception raised while the analyzer is built,
    the PDF is read or the text is analysed decides the answer, and nothing
    is stored: [ValueError] (from [int] on a matched text) gives 400,
    [RuntimeError] (no spaCy model, no skills file, an unreadable PDF) gives
    502, every other exception ([OverflowError] from the division,
    [AttributeError] from a position that is not a string) gives 500. *)
Theorem analysis_failure_answer `{Interpreter} `{LanguageModel} `{FuzzyMatcher} `{Deployment}
    (resume_file : UploadedFile) (job_id : Z) (outcomes : nat -> http_outcome) (w : World)
    (job_data : gmap string json) (e : exn) :
  temp_files w !! temp_name (dom (temp_files w)) = None ->
  _validate_file resume_file = Ok tt ->
  _get_job_data outcomes = Ok job_data ->
  first_analysis (md5_hexdigest (file_content resume_file)) job_data (rows w) = None ->
  (analyzer ← __init__ spacy_load (Some read_skills_csv) now_year;
   text ← extract_text (open_pdf (file_content resume_file));
   analyze analyzer text (to_pyobj <$> job_data)) = Raise e ->
  post (Valid resume_file job_id) outcomes w = (w, error_response e)
  /\ status (error_response e)
     = match e with ValueError => 400 | RuntimeError => 502 | _ => 500 end%Z.
Proof.
  intros Hfresh Ev Eg Ef Ea. split; [|now destruct e].
  cbn [post]. unfold post_body. rewrite Ev, bind_Ok, Eg, Ef.
  set (tmp_path := temp_name (dom (temp_files w))) in *.
  assert (Hdel : delete tmp_path (<[tmp_path := file_content resume_file]> (temp_files w))
                 = temp_files w) by now apply delete_insert_id.
  unfold _process_resume. cbn [temp_files rows].
  destruct (__init__ spacy_load (Some read_skills_csv) now_year) as [analyzer|e0];
    rewrite ?bind_Ok, ?bind_Raise in Ea.
  - rewrite lookup_insert_eq.
    destruct (extract_text (open_pdf (file_content resume_file))) as [text|e1];
      rewrite ?bind_Ok, ?bind_Raise in *.
    + rewrite Ea, bind_Raise. cbn [rows next_id media temp_files].
      now rewrite Hdel, world_eta.
    + injection Ea as ->. cbn [rows next_id media temp_files]. now rewrite Hdel, world_eta.
  - injection Ea as ->. cbn [rows next_id media temp_files]. now rewrite Hdel, world_eta.
Qed.

Lemma analysis_failure_answer_witness :
  @post basic_interpreter blank_model blank_matcher (sample_deployment long_duration)
    (Valid sample_upload 7) sample_outcomes empty_world
  = (empty_world, error_response OverflowError)
  /\ status (error_response OverflowError) = 500%Z.
Proof.
  refine (@analysis_failure_answer basic_interpreter blank_model blank_matcher
            (sample_deployment long_duration) sample_upload 7 sample_outcomes empty_world
            sample_job_data OverflowError _ _ _ _ _).
  - vm_compute. reflexivity.
  - vm_compute. reflexivity.
  - reflexivity.
  - vm_compute. reflexivity.
  - vm_compute. reflexivity.
Defined.

(** *** The fields of the job that the analysis reads *)

Lemma lstrip_snoc_blank (s : list N) (c : N) :
  isspace c = true ->
  (lstrip (s ++ [c]) = [] /\ lstrip s = []) \/ lstrip (s ++ [c]) = lstrip s ++ [c].
Proof.
  intros Hc. induction s as [|x t IH]; cbn [app lstrip].
  - rewrite Hc. now left.
  - destruct (isspace x); [exact IH|now right].
Qed.

Lemma strip_snoc_blank (s : list N) (c : N) : isspace c = true -> strip (s ++ [c]) = strip s.
Proof.
  intros Hc. unfold strip. destruct (lstrip_snoc_blank s c Hc) as [[-> ->]| ->]; [reflexivity|].
  rewrite rev_app_distr. cbn [rev app lstrip]. now rewrite Hc.
Qed.

Lemma collapse_fuel (fuel fuel' : nat) (s : list N) :
  (length s <= fuel)%nat -> (length s <= fuel')%nat -> collapse fuel s = collapse fuel' s.
Proof.
  revert fuel' s. induction fuel as [|fuel IH]; intros fuel' s Hf Hf'.
  - destruct s; [|cbn in Hf; lia]. now destruct fuel'.
  - destruct s as [|x t]; [now destruct fuel'|]. cbn in Hf, Hf'.
    destruct fuel' as [|fuel']; [lia|]. cbn [collapse].
    pose proof (lstrip_length t).
    destruct (isspace x); f_equal; apply IH; lia.
Qed.

Lemma collapse_snoc_blank (fuel : nat) (s : list N) :
  (length s < fuel)%nat ->
  collapse fuel (s ++ [32%N]) = collapse fuel s
  \/ collapse fuel (s ++ [32%N]) = collapse fuel s ++ [32%N].
Proof.
  revert s. induction fuel as [|fuel IH]; intros s Hf; [lia|].
  destruct s as [|x t]; cbn [app collapse].
  - change (isspace 32) with true. cbn [lstrip]. destruct fuel; now right.
  - cbn in Hf. destruct (isspace x).
    + destruct (lstrip_snoc_blank t 32%N eq_refl) as [[-> ->]| ->]; [now left|].
      pose proof (lstrip_length t).
      destruct (IH (lstrip t) ltac:(lia)) as [->| ->]; [now left|now right].
    + destruct (IH t ltac:(lia)) as [->| ->]; [now left|now right].
Qed.

(** A blank at the end of a text is cleaned away. *)
Lemma clean_text_snoc_blank (s : list N) : _clean_text (s ++ [32%N]) = _clean_text s.
Proof.
  rewrite !clean_text_eq. rewrite length_app. cbn [length].
  rewrite (collapse_fuel (S (length s)) (S (length s + 1)) s) by lia.
  destruct (collapse_snoc_blank (S (length s + 1)) s ltac:(lia)) as [->| ->]; [reflexivity|].
  rewrite fmap_app. cbn [fmap list_fmap]. change (dash 32) with 32%N.
  now apply strip_snoc_blank.
Qed.

(** X24: [analyze] reads three fields of the job data, "description",
    "requirements" and "position": a change of any other field, such as the
    "requirement" that the API client asks for, does not change its result;
    and when the job data has no "requirements", the job description that is
    analysed is the cleaned "description" alone. *)
Theorem analyze_reads_three_fields `{Interpreter} `{LanguageModel} `{FuzzyMatcher}
    (self : ResumeAnalyzer) (resume_text : list N) (job_data : gmap string pyobj)
    (key : string) (value : pyobj) :
  key <> "description"%string -> key <> "requirements"%string -> key <> "position"%string ->
  analyze self resume_text (<[key := value]> job_data) = analyze self resume_text job_data
  /\ (job_data !! "requirements"%string = None ->
      job_desc_of (<[key := value]> job_data)
      = _clean_text (format (default (PyStr []) (job_data !! "description"%string)))).
Proof.
  intros Hd Hr Hp. split.
  - unfold analyze. now rewrite !lookup_insert_ne by congruence.
  - intros Hn. unfold job_desc_of. rewrite !lookup_insert_ne by congruence. rewrite Hn.
    cbn [default from_option id format]. rewrite app_nil_r. apply clean_text_snoc_blank.
Qed.

Lemma analyze_reads_three_fields_witness :
  @analyze basic_interpreter blank_model blank_matcher (analyzer_of_year 2026) sample_resume
    (<["requirement"%string := PyStr (py "Rust")]> sample_job)
  = @analyze basic_interpreter blank_model blank_matcher (analyzer_of_year 2026) sample_resume
      sample_job
  /\ (sample_job !! "requirements"%string = None ->
      job_desc_of (<["requirement"%string := PyStr (py "Rust")]> sample_job)
      = _clean_text (format (default (PyStr []) (sample_job !! "description"%string)))).
Proof.
  apply (@analyze_reads_three_fields basic_interpreter blank_model blank_matcher
           (analyzer_of_year 2026) sample_resume sample_job "requirement"%string
           (PyStr (py "Rust"))); discriminate.
Defined.

(** *** The validation of the upload *)

Lemma endswith_spec (suffix s : list N) :
  endswith suffix s = true <-> exists stem, s = stem ++ suffix.
Proof.
  unfold endswith. rewrite startswith_spec. split.
  - intros [post E]. exists (rev post).
    rewrite <- (rev_involutive s), E, rev_app_distr. now rewrite rev_involutive.
  - intros [stem ->]. exists (rev stem). apply rev_app_distr.
Qed.

(** X25: [_validate_file] accepts an upload exactly when its lower-cased
    name ends with ".pdf" and its size is at most 5 MiB (5242880 bytes, the
    bound included); [post] answers every other upload with 400, whatever
    the job API would say, and changes nothing. *)
Theorem upload_validation `{Interpreter} `{LanguageModel} `{FuzzyMatcher} `{Deployment}
    (file : UploadedFile) (job_id : Z) (outcomes : nat -> http_outcome) (w : World) :
  (_validate_file file = Ok tt
   <-> (exists stem, lower (file_name file) = stem ++ py ".pdf")
       /\ (file_size file <= 5242880)%Z)
  /\ (_validate_file file <> Ok tt
      -> post (Valid file job_id) outcomes w
         = (w, {| data := ErrorOf ValueError; status := 400 |})).
Proof.
  unfold _validate_file. rewrite <- endswith_spec.
  destruct (endswith (py ".pdf") (lower (file_name file))) eqn:Ee; cbn [negb].
  - destruct (Z.ltb_spec (5 * 1024 * 1024) (file_size file)) as [Hs|Hs].
    + split; [split; [discriminate|intros [_ Hle]; lia]|].
      intros _. cbn [post]. unfold post_body, _validate_file. rewrite Ee. cbn [negb].
      destruct (Z.ltb_spec (5 * 1024 * 1024) (file_size file)); [reflexivity|lia].
    + split; [split; [intros _; split; [reflexivity|lia]|reflexivity]|]. congruence.
  - split; [split; [discriminate|intros [Hf _]; discriminate]|].
    intros _. cbn [post]. unfold post_body, _validate_file. now rewrite Ee.
Qed.

(** *** The range of the scores of an analysis *)

Section ScoreRange.
Context `{Interpreter} `{LanguageModel} `{FuzzyMatcher}.

Lemma semantic_similarity_unit (text1 text2 : list N) (f : float) :
  (forall doc1 doc2, cosine_similarity doc1 doc2 <> NaN) ->
  _calculate_semantic_similarity text1 text2 = Ok f ->
  exists q, f = Fin q /\ (0 <= q <= 1)%Q.
Proof.
  intros Hcos. unfold _calculate_semantic_similarity. intros E.
  bind_inv E doc1 E1. bind_inv E doc2 E2.
  destruct (is_zero (vector_norm doc1) || is_zero (vector_norm doc2)).
  - injection E as <-. exists 0%Q. split; [reflexivity|]. split; discriminate.
  - injection E as <-.
    destruct (np_clip_unit (cosine_similarity doc1 doc2)) as [[_ Hn]|Hq]; [|exact Hq].
    now apply Hcos in Hn.
Qed.

Lemma skill_score_unit (cv_skills required_skills : list (list N)) (f : float) :
  _calculate_skill_score cv_skills required_skills = Ok f ->
  exists q, f = Fin q /\ (0 <= q <= 1)%Q.
Proof.
  destruct required_skills as [|skill others].
  - intros [= <-]. exists 1%Q. split; [reflexivity|]. split; discriminate.
  - set (required_skills := skill :: others).
    unfold _calculate_skill_score, required_skills at 1. fold required_skills.
    rewrite covered_filter, sum_of_ones.
    assert (Hc : (0 <= Z.of_nat (length (covered cv_skills required_skills))
                  <= Z.of_nat (length required_skills))%Z).
    { split; [lia|]. apply inj_le, length_filter. }
    assert (Hn : (0 < Z.of_nat (length required_skills))%Z)
      by (cbn [required_skills length]; lia).
    destruct (truediv_fraction _ _ Hc Hn) as [-> Hr]. intros [= <-]. eauto.
Qed.

Lemma education_score_unit (resume_text job_desc : list N) (f : float) :
  _calculate_education_score resume_text job_desc = Ok f ->
  exists q, f = Fin q /\ (0 <= q <= 1)%Q.
Proof.
  rewrite education_score_eq. intros [= <-]. eexists. split; [reflexivity|].
  destruct (mentions_bachelor resume_text), (mentions_master resume_text),
    (mentions_phd resume_text); split; qle_compute.
Qed.

Lemma experience_score_unit (self : ResumeAnalyzer) (text title : list N) (f : float)
    (total : Z) :
  _calculate_experience_score self text (PyStr title) = Ok f ->
  total_years self text = Ok total -> (0 <= total)%Z ->
  exists q, f = Fin q /\ (0 <= q <= 1)%Q.
Proof.
  intros E Et Ht. apply experience_score_inv in E as (total' & Et' & ->).
  rewrite Et in Et'. injection Et' as <-. rewrite fmin_1.
  set (r := rne64 _).
  assert (Hr0 : (0 <= r)%Q).
  { apply rne64_nonneg. pose proof (required_years_range title) as Hr.
    assert (Hp : (0 < inject_Z (required_years title))%Q) by (rewrite <- (Zlt_Qlt 0); lia).
    apply Qle_shift_div_l; [exact Hp|]. rewrite Qmult_0_l, <- (Zle_Qle 0). exact Ht. }
  eexists. split; [reflexivity|].
  destruct (Qle_bool r 1) eqn:E1; [|split; discriminate].
  apply Qle_bool_iff in E1. now split.
Qed.

End ScoreRange.

(** X26: when the cosine similarity of the pipeline is never NaN and the
    years found in the cleaned resume do not sum to a negative total, every
    result of [analyze] has a compatibility score between 0 and 100 and a
    score breakdown whose four values are between 0 and 100. *)
Theorem analysis_scores_in_range `{Interpreter} `{LanguageModel} `{FuzzyMatcher}
    (self : ResumeAnalyzer) (resume_text : list N) (job_data : gmap string pyobj)
    (r : AnalysisResult) (total : Z) :
  (forall doc1 doc2, cosine_similarity doc1 doc2 <> NaN) ->
  analyze self resume_text job_data = Ok r ->
  total_years self (_clean_text resume_text) = Ok total -> (0 <= total)%Z ->
  exists score p1 p2 p3 p4 : Q,
    compatibility_score r = Fin score /\ (0 <= score <= 100)%Q
    /\ score_breakdown r
       = {| semantic_similarity := Fin p1; skill_coverage := Fin p2;
            breakdown_experience_match := Fin p3; breakdown_education_match := Fin p4 |}
    /\ (0 <= p1 <= 100)%Q /\ (0 <= p2 <= 100)%Q /\ (0 <= p3 <= 100)%Q /\ (0 <= p4 <= 100)%Q.
Proof.
  intros Hcos E Et Ht. apply analyze_inv in E
    as (info & skills & required & similarity & skill_score & experience_score
        & education_score & _ & _ & _ & Es & Ek & Ex & Ed & ->).
  cbn [compatibility_score score_breakdown].
  apply (semantic_similarity_unit _ _ _ Hcos) in Es as (s & -> & Hs).
  apply skill_score_unit in Ek as (k & -> & Hk).
  apply education_score_unit in Ed as (d & -> & Hd).
  destruct (default (PyStr []) (job_data !! "position"%string)) as [title|repr].
  - apply (experience_score_unit _ _ _ _ _ Ex Et) in Ht as (e & -> & He).
    destruct (compatibility_score_bounds s k e d Hs Hk He Hd) as (q & n & -> & Hq & _).
    unfold _format_score_breakdown.
    destruct (percent_of_score s Hs) as (p1 & -> & Hp1 & _).
    destruct (percent_of_score k Hk) as (p2 & -> & Hp2 & _).
    destruct (percent_of_score e He) as (p3 & -> & Hp3 & _).
    destruct (percent_of_score d Hd) as (p4 & -> & Hp4 & _).
    exists q, p1, p2, p3, p4. repeat split; tauto.
  - exfalso. unfold _calculate_experience_score in Ex.
    destruct (_extract_experience self (_clean_text resume_text)); discriminate.
Qed.

Lemma analysis_scores_in_range_witness :
  exists (r : AnalysisResult) (score p1 p2 p3 p4 : Q),
    @analyze basic_interpreter blank_model blank_matcher (analyzer_of_year 2026)
      sample_resume sample_job = Ok r
    /\ compatibility_score r = Fin score /\ (0 <= score <= 100)%Q
    /\ score_breakdown r
       = {| semantic_similarity := Fin p1; skill_coverage := Fin p2;
            breakdown_experience_match := Fin p3; breakdown_education_match := Fin p4 |}
    /\ (0 <= p1 <= 100)%Q /\ (0 <= p2 <= 100)%Q /\ (0 <= p3 <= 100)%Q /\ (0 <= p4 <= 100)%Q.
Proof.
  assert (Ea : exists r, @analyze basic_interpreter blank_model blank_matcher
                           (analyzer_of_year 2026) sample_resume sample_job = Ok r)
    by (eexists; vm_compute; reflexivity).
  destruct Ea as [r Ea]. exists r.
  destruct (@analysis_scores_in_range basic_interpreter blank_model blank_matcher
              (analyzer_of_year 2026) sample_resume sample_job r 4)
    as (score & p1 & p2 & p3 & p4 & Hr); [discriminate|exact Ea|vm_compute; reflexivity|lia|].
  exists score, p1, p2, p3, p4. split; [exact Ea|exact Hr].
Defined.

(** *** The groups of a match *)

Lemma star_loop_captures (r : regex) (greedy : bool) (k : continuation) (fuel : nat) :
  (forall k c g m, run r k c g = Some m ->
     exists c' g', captures_of r c g c' g' /\ k c' g' = Some m) ->
  forall c g m, star_loop (run r) greedy k fuel c g = Some m ->
    exists c' g', captures_of (Star greedy r) c g c' g' /\ k c' g' = Some m.
Proof.
  intros IHr. induction fuel as [|fuel IH]; intros c g m Hm.
  - exists c, g. split; [constructor|exact Hm].
  - rewrite star_loop_S in Hm. cbv zeta in Hm.
    set (again := fun c' g' =>
        if (length (rest c') <? length (rest c))%nat
        then star_loop (run r) greedy k fuel c' g' else None) in Hm.
    assert (Round : forall m, run r again c g = Some m ->
              exists c' g', captures_of (Star greedy r) c g c' g' /\ k c' g' = Some m).
    { intros m' Hr. apply IHr in Hr as (c1 & g1 & D1 & Ha). unfold again in Ha.
      destruct (length (rest c1) <? length (rest c))%nat; [|discriminate].
      apply IH in Ha as (c2 & g2 & D2 & Hk).
      exists c2, g2. split; [|exact Hk]. econstructor 7; eassumption. }
    destruct greedy.
    + destruct (run r again c g) as [m'|] eqn:E.
      * injection Hm as <-. apply Round. reflexivity.
      * exists c, g. split; [constructor|exact Hm].
    + destruct (k c g) as [m'|] eqn:E.
      * injection Hm as <-. exists c, g. split; [constructor|exact E].
      * apply Round, Hm.
Qed.

Lemma run_captures (r : regex) :
  forall k c g m, run r k c g = Some m ->
    exists c' g', captures_of r c g c' g' /\ k c' g' = Some m.
Proof.
  induction r as [p| |r1 IH1 r2 IH2|r1 IH1 r2 IH2|greedy r IH|i r IH|a|r IH];
    intros k c g m Hm; cbn in Hm.
  - destruct c as [q [|x t]]; cbn in Hm; [discriminate|].
    destruct (p x) eqn:E; [|discriminate].
    eexists _, g. split; [constructor; exact E|exact Hm].
  - exists c, g. split; [constructor|exact Hm].
  - apply IH1 in Hm as (c1 & g1 & D1 & Hm). apply IH2 in Hm as (c2 & g2 & D2 & Hm).
    exists c2, g2. split; [econstructor; eassumption|exact Hm].
  - destruct (run r1 k c g) as [m'|] eqn:E.
    + injection Hm as <-. apply IH1 in E as (c' & g' & D & Hk).
      exists c', g'. split; [apply captures_Alt_l, D|exact Hk].
    + apply IH2 in Hm as (c' & g' & D & Hk).
      exists c', g'. split; [apply captures_Alt_r, D|exact Hk].
  - eapply star_loop_captures; eassumption.
  - apply IH in Hm as (c' & g' & D & Hk).
    exists c', ((i, between c c') :: g'). split; [constructor; exact D|exact Hk].
  - destruct (a (prev c) (rest c)) eqn:E; [|discriminate].
    exists c, g. split; [constructor; exact E|exact Hm].
  - destruct (run r accept c g) as [[c1 g1]|] eqn:E; [|discriminate].
    apply IH in E as (c' & g' & D & Ha). injection Ha as -> ->.
    exists c, g1. split; [econstructor; exact D|exact Hm].
Qed.

Lemma captures_derives (r : regex) (c c' : cursor) (g g' : captures) :
  captures_of r c g c' g' -> derives r c c'.
Proof. induction 1; econstructor; eassumption. Qed.

Lemma captures_groupless (r : regex) (c c' : cursor) (g g' : captures) :
  captures_of r c g c' g' -> groupless r = true -> g' = g.
Proof.
  induction 1 as [| |r1 r2 c c1 c2 g g1 g2 _ IH1 _ IH2|r1 r2 c c' g g' _ IH|r1 r2 c c' g g' _ IH
                 | |greedy r c c1 c2 g g1 g2 _ IH1 _ IH2| | |r c c1 g g1 _ IH];
    cbn [groupless]; intros Hg; try reflexivity; try discriminate.
  - apply andb_prop in Hg as [Hg1 Hg2]. rewrite (IH2 Hg2). now apply IH1.
  - apply andb_prop in Hg as [Hg1 _]. now apply IH.
  - apply andb_prop in Hg as [_ Hg2]. now apply IH.
  - rewrite (IH2 Hg). now apply IH1.
  - now apply IH.
Qed.

(** The groups of a match found by [finditer] *)
Lemma finditer_captures (r : regex) (s : list N) (m : rmatch) :
  m ∈ finditer r s ->
  exists pre post c',
    s = pre ++ post /\ captures_of r (position pre post) [] c' (groups m).
Proof.
  intros Hm. apply finditer_sound in Hm as (pre & w & post & c' & -> & _ & Hat).
  exists pre, (w ++ post), c'. split; [reflexivity|].
  unfold match_at in Hat.
  destruct (run r accept (position pre (w ++ post)) []) as [[c1 g1]|] eqn:E; [|discriminate].
  injection Hat as <- <-. apply run_captures in E as (c2 & g2 & D & Ha).
  injection Ha as -> ->. exact D.
Qed.

Lemma captures_lang (r : regex) (c c' : cursor) (g g' : captures) :
  captures_of r c g c' g' -> rest c = between c c' ++ rest c' /\ lang r (between c c').
Proof.
  intros D. apply captures_derives, derives_lang in D as (w & E & L).
  assert (Hb : between c c' = w).
  { unfold between. rewrite E, length_app.
    replace (length w + length (rest c') - length (rest c'))%nat with (length w) by lia.
    apply take_app_length. }
  rewrite Hb. now split.
Qed.

Lemma captures_Cat_inv (r1 r2 : regex) (c c2 : cursor) (g g2 : captures) :
  captures_of (Cat r1 r2) c g c2 g2 ->
  exists c1 g1, captures_of r1 c g c1 g1 /\ captures_of r2 c1 g1 c2 g2.
Proof. inversion 1; subst. eauto. Qed.

Lemma captures_Group_inv (i : nat) (r : regex) (c c' : cursor) (g g' : captures) :
  captures_of (Group i r) c g c' g' ->
  exists g1, captures_of r c g c' g1 /\ g' = (i, between c c') :: g1.
Proof. inversion 1; subst. eauto. Qed.

(** A part of the pattern without groups leaves the groups as they are and
    moves on in the text. *)
Lemma captures_skip (r1 r2 : regex) (c c2 : cursor) (g g2 : captures) :
  groupless r1 = true -> captures_of (Cat r1 r2) c g c2 g2 ->
  exists u c1, rest c = u ++ rest c1 /\ captures_of r2 c1 g c2 g2.
Proof.
  intros Hg D. apply captures_Cat_inv in D as (c1 & g1 & D1 & D2).
  pose proof (captures_groupless _ _ _ _ _ D1 Hg) as ->.
  apply captures_lang in D1 as [E _]. eauto.
Qed.

(** A group at the head of the pattern: what it holds. *)
Lemma captures_head_group (i : nat) (r1 r2 : regex) (c c2 : cursor) (g g2 : captures) :
  groupless r1 = true -> captures_of (Cat (Group i r1) r2) c g c2 g2 ->
  exists w c1, rest c = w ++ rest c1 /\ lang r1 w /\ captures_of r2 c1 ((i, w) :: g) c2 g2.
Proof.
  intros Hg D. apply captures_Cat_inv in D as (c1 & g1 & D1 & D2).
  apply captures_Group_inv in D1 as (g0 & D1 & ->).
  pose proof (captures_groupless _ _ _ _ _ D1 Hg) as ->.
  apply captures_lang in D1 as [E L]. eauto.
Qed.

Section ExperienceGroups.
Context `{Interpreter}.

(** A duration mention holds its digits, a part of the text, in group 1. *)
Lemma duration_groups (s : list N) (m : rmatch) :
  m ∈ finditer duration_mention s ->
  exists w, groups m = [(1%nat, w)] /\ w <> [] /\ Forall (fun c => isdigit c = true) w
    /\ substring w s.
Proof.
  intros Hm. apply finditer_captures in Hm as (pre & post & c' & -> & D).
  unfold duration_mention in D. cbn [Cats] in D.
  apply captures_head_group in D as (w & c1 & E & L & D); [|reflexivity].
  apply captures_groupless in D; [|reflexivity].
  cbn [rest position] in E. apply lang_Plus_Chr in L as [Hw Hd].
  exists w. repeat split; try assumption. exists pre, (rest c1). now rewrite E.
Qed.

(** A range mention holds the four digits of its first year in group 1 and
    its end, four digits or the word, in group 2. *)
Lemma range_groups (s : list N) (m : rmatch) :
  m ∈ finditer range_mention s ->
  exists w1 w2, groups m = [(2%nat, w2); (1%nat, w1)]
    /\ length w1 = 4%nat /\ Forall (fun c => isdigit c = true) w1
    /\ (length w2 = 4%nat /\ Forall (fun c => isdigit c = true) w2
        \/ lang (ILit "present") w2)
    /\ substring w1 s /\ substring w2 s.
Proof.
  intros Hm. apply finditer_captures in Hm as (pre & post & c' & -> & D).
  unfold range_mention in D. cbn [Cats] in D.
  apply captures_head_group in D as (w1 & c1 & E1 & L1 & D); [|reflexivity].
  apply captures_skip in D as (u1 & c2 & E2 & D); [|reflexivity].
  apply captures_skip in D as (u2 & c3 & E3 & D); [|reflexivity].
  apply captures_skip in D as (u3 & c4 & E4 & D); [|reflexivity].
  apply captures_head_group in D as (w2 & c5 & E5 & L2 & D); [|reflexivity].
  inversion D; subst. cbn [rest position] in E1.
  apply lang_Times_Chr in L1 as [Hn1 Hd1].
  exists w1, w2. repeat split; try assumption.
  - destruct L2 as [L2|L2]; [left; now apply lang_Times_Chr in L2|now right].
  - exists pre, (rest c1). now rewrite E1.
  - exists (pre ++ w1 ++ u1 ++ u2 ++ u3), (rest c').
    rewrite E1, E2, E3, E4, E5. now rewrite <- !app_assoc.
Qed.

End ExperienceGroups.

(** *** Reading the numbers of the experience, on the ASCII tables *)

Lemma isspace_range (c : N) : isspace c = true -> (c <= 32 \/ 133 <= c)%N.
Proof.
  unfold isspace. intros Hc.
  repeat match goal with
         | H : (_ || _) = true |- _ => apply orb_prop in H as [H|H]
         | H : (_ && _) = true |- _ => apply andb_prop in H as [? ?]
         | H : (_ =? _)%N = true |- _ => apply N.eqb_eq in H
         | H : (_ <=? _)%N = true |- _ => apply N.leb_le in H
         end; lia.
Qed.

Lemma basic_isdigit (c : N) :
  @isdigit basic_interpreter c = true <-> (48 <= c <= 57)%N.
Proof.
  unfold isdigit. cbn [decimal basic_interpreter]. unfold basic_decimal.
  destruct (N.leb_spec 48 c), (N.leb_spec c 57); cbn; split; intros; try lia; easy.
Qed.

Lemma basic_decimal_digit (c : N) :
  (48 <= c <= 57)%N -> basic_decimal c = Some (Z.of_N c - 48)%Z.
Proof.
  intros Hc. unfold basic_decimal.
  destruct (N.leb_spec 48 c), (N.leb_spec c 57); cbn; try lia; reflexivity.
Qed.

Lemma sign_of_digits (c : N) (t : list N) :
  (48 <= c <= 57)%N ->
  match c :: t with
  | 45%N :: r => (true, r)
  | 43%N :: r => (false, r)
  | _ => (false, c :: t)
  end = (false, c :: t).
Proof.
  intros Hc. destruct c as [|p]; [reflexivity|].
  do 6 (destruct p as [p|p|]; try reflexivity); lia.
Qed.

Lemma digits_value_digits (w : list N) :
  Forall (fun c => (48 <= c <= 57)%N) w ->
  forall (acc : Z) (after_digit : bool), w <> [] \/ after_digit = true ->
    exists v, @digits_value basic_interpreter acc after_digit w
              = Some (acc * 10 ^ Z.of_nat (length w) + v)%Z
      /\ (0 <= v < 10 ^ Z.of_nat (length w))%Z.
Proof.
  induction 1 as [|c t Hc _ IH]; intros acc after_digit Hw.
  - destruct Hw as [Hw| ->]; [contradiction|]. exists 0%Z. cbn. split; [f_equal; lia|lia].
  - cbn [digits_value decimal basic_interpreter]. rewrite (basic_decimal_digit c Hc).
    destruct (IH (10 * acc + (Z.of_N c - 48))%Z true (or_intror eq_refl)) as (v & -> & Hv).
    cbn [length]. rewrite Nat2Z.inj_succ, Z.pow_succ_r by lia.
    set (p := (10 ^ Z.of_nat (length t))%Z) in *.
    exists ((Z.of_N c - 48) * p + v)%Z. split; [f_equal; lia|nia].
Qed.

Lemma filter_Forall {A} (P : A -> Prop) `{forall x, Decision (P x)} (l : list A) :
  Forall P l -> filter P l = l.
Proof.
  induction 1 as [|x l Hx _ IH]; [reflexivity|]. rewrite filter_cons_True by assumption.
  now rewrite IH.
Qed.

(** [int] of a string of ASCII digits within the limit of the conversion *)
Lemma int_digits (w : list N) :
  w <> [] -> Forall (fun c => @isdigit basic_interpreter c = true) w ->
  (length w <= 4300)%nat ->
  exists v, @int basic_interpreter w = Ok v /\ (0 <= v < 10 ^ Z.of_nat (length w))%Z.
Proof.
  intros Hw Hd Hl.
  assert (Hr : Forall (fun c => (48 <= c <= 57)%N) w).
  { eapply Forall_impl; [exact Hd|]. intros c Hc. now apply basic_isdigit. }
  assert (Hs : forall c, (48 <= c <= 57)%N -> isspace c = false).
  { intros c Hc. destruct (isspace c) eqn:E; [|reflexivity]. apply isspace_range in E. lia. }
  assert (Ht : trimmed w).
  { split.
    - destruct w as [|c t]; [contradiction|]. cbn. apply Hs. now inversion Hr.
    - destruct (last w) as [c|] eqn:E; [|reflexivity]. cbn. apply Hs.
      apply last_Some in E as (l & ->). apply Forall_app in Hr as [_ Hr]. now inversion Hr. }
  unfold int. rewrite (strip_id w Ht).
  destruct w as [|c t]; [contradiction|].
  rewrite sign_of_digits by now inversion Hr.
  destruct (digits_value_digits _ Hr 0%Z false (or_introl Hw)) as (v & -> & Hv).
  rewrite (filter_Forall _ _ Hd). unfold over_digit_limit. cbn [int_max_str_digits basic_interpreter].
  destruct (Nat.ltb_spec 4300 (length (c :: t))) as [Hlt|_]; [lia|].
  exists (0 * 10 ^ Z.of_nat (length (c :: t)) + v)%Z. split; [reflexivity|lia].
Qed.

(** A word matched without regard to case, and without the long s, is the
    word once lower-cased. *)
Lemma lower_of_ieq (s w : list N) :
  Forall (fun p => (97 <= p <= 122)%N /\ p <> 107%N) s ->
  lang (Lit basic_ieq s) w -> 383%N ∉ w -> basic_lower w = s.
Proof.
  intros Hs. revert w. induction Hs as [|p s [Hp Hk] _ IH]; intros w; cbn [Lit lang].
  - now intros ->.
  - intros (w1 & w2 & -> & (x & -> & Hx) & L) Hn. cbn [app] in *.
    apply not_elem_of_cons in Hn as [Hx3 Hn].
    unfold basic_lower. cbn [map]. fold (basic_lower w2). rewrite (IH w2 L Hn). f_equal.
    assert (Hlp : ascii_lower p = p).
    { unfold ascii_lower. destruct (N.leb_spec 65 p), (N.leb_spec p 90); cbn; try lia;
        reflexivity. }
    unfold basic_ieq in Hx. rewrite Hlp in Hx.
    apply orb_prop in Hx as [Hx|Hx]; [apply orb_prop in Hx as [Hx|Hx]|].
    + apply N.eqb_eq in Hx. destruct (N.eqb_spec x 8490) as [->|_]; [|exact Hx].
      vm_compute in Hx. subst p. lia.
    + apply andb_prop in Hx as [Hx _]. apply N.eqb_eq in Hx. congruence.
    + apply andb_prop in Hx as [_ Hx]. apply N.eqb_eq in Hx. contradiction.
Qed.

(** *** What cleaning keeps of the text *)

Lemma substring_app_l (w l s : list N) : substring w s -> substring w (l ++ s).
Proof. intros (pre & post & ->). exists (l ++ pre), post. now rewrite <- app_assoc. Qed.

Lemma substring_app_r (w s l : list N) : substring w s -> substring w (s ++ l).
Proof. intros (pre & post & ->). exists pre, (post ++ l). now rewrite <- !app_assoc. Qed.

Lemma substring_Forall (P : N -> Prop) (w s : list N) :
  substring w s -> Forall P s -> Forall P w.
Proof.
  intros (pre & post & ->) Hs. apply Forall_app in Hs as [_ Hs]. now apply Forall_app in Hs.
Qed.

Lemma substring_length (w s : list N) : substring w s -> (length w <= length s)%nat.
Proof. intros (pre & post & ->). rewrite !length_app. lia. Qed.

Lemma collapse_Forall (P : N -> Prop) (fuel : nat) (s : list N) :
  P 32%N -> Forall P s -> Forall P (collapse fuel s).
Proof.
  intros Hb. revert s. induction fuel as [|fuel IH]; intros s Hs; [constructor|].
  destruct s as [|x t]; [constructor|]. cbn [collapse]. inversion Hs; subst.
  destruct (isspace x).
  - constructor; [exact Hb|]. apply IH. destruct (lstrip_suffix t) as (l & E).
    rewrite E in H2. now apply Forall_app in H2 as [_ H2].
  - constructor; [assumption|]. now apply IH.
Qed.

(** A property of the characters of the text that the space and the hyphen
    have holds of the cleaned text. *)
Lemma clean_text_Forall (P : N -> Prop) (t : list N) :
  P 32%N -> P 45%N -> Forall P t -> Forall P (_clean_text t).
Proof.
  intros Hb Hh Ht. rewrite clean_text_eq.
  destruct (strip_infix (dash <$> collapse (S (length t)) t)) as (l1 & l2 & E).
  assert (Hd : Forall P (dash <$> collapse (S (length t)) t)).
  { apply Forall_fmap. eapply Forall_impl; [apply (collapse_Forall P); eassumption|].
    intros c Hc. cbn. unfold dash. now destruct (glyph c). }
  rewrite E in Hd. apply Forall_app in Hd as [_ Hd]. now apply Forall_app in Hd as [Hd _].
Qed.

(** A run of characters that are not blanks stands in the collapsed text
    only where it stands in the text. *)
Lemma collapse_prefix (w : list N) :
  Forall (fun c => isspace c = false) w ->
  forall fuel s l, collapse fuel s = w ++ l -> exists l', s = w ++ l'.
Proof.
  induction 1 as [|c w Hc _ IH]; intros fuel s l E; [now exists s|].
  destruct fuel as [|fuel]; [discriminate|]. destruct s as [|x t]; [discriminate|].
  cbn [collapse] in E. destruct (isspace x) eqn:Ex.
  - injection E as <- _. discriminate.
  - injection E as <- E. apply IH in E as (l' & ->). now exists l'.
Qed.

Lemma collapse_run (w : list N) :
  Forall (fun c => isspace c = false) w ->
  forall fuel s, substring w (collapse fuel s) -> substring w s.
Proof.
  intros Hw. induction fuel as [|fuel IH]; intros s (pre & post & E).
  - cbn [collapse] in E. symmetry in E. apply app_eq_nil in E as [_ E].
    apply app_eq_nil in E as [-> _]. now exists [], s.
  - destruct pre as [|c pre'].
    + destruct (collapse_prefix w Hw _ _ _ E) as (l' & ->). now exists [], l'.
    + destruct s as [|x t]; [discriminate|]. cbn [collapse] in E.
      destruct (isspace x).
      * injection E as _ E.
        assert (Hs : substring w (lstrip t)) by (apply IH; now exists pre', post).
        destruct (lstrip_suffix t) as (l & El). rewrite El.
        apply (substring_app_l w (x :: l)), Hs.
      * injection E as _ E.
        assert (Hs : substring w t) by (apply IH; now exists pre', post).
        apply (substring_app_l w [x]), Hs.
Qed.

Lemma dash_run (w s : list N) :
  Forall (fun c => c <> 45%N) w -> substring w (dash <$> s) -> substring w s.
Proof.
  intros Hw (pre & post & E).
  apply fmap_app_inv in E as (pre' & r & -> & Hr & ->).
  symmetry in Hr. apply fmap_app_inv in Hr as (w' & post' & -> & -> & ->).
  enough (E : dash <$> w' = w') by (rewrite E; now exists pre', post').
  induction w' as [|x w' IH]; [reflexivity|]. cbn [fmap list_fmap] in *.
  inversion Hw; subst. f_equal; [|now apply IH].
  unfold dash in *. destruct (glyph x); [congruence|reflexivity].
Qed.

(** A run of ASCII digits of the cleaned text is a run of the text. *)
Lemma clean_text_run (w t : list N) :
  Forall (fun c => isspace c = false /\ c <> 45%N) w ->
  substring w (_clean_text t) -> substring w t.
Proof.
  intros Hw Hs. rewrite clean_text_eq in Hs.
  destruct (strip_infix (dash <$> collapse (S (length t)) t)) as (l1 & l2 & E).
  assert (Hd : substring w (dash <$> collapse (S (length t)) t)).
  { rewrite E. apply substring_app_l, substring_app_r, Hs. }
  apply dash_run in Hd; [|eapply Forall_impl; [exact Hw|]; now intros c [_ Hc]].
  apply collapse_run in Hd; [exact Hd|]. eapply Forall_impl; [exact Hw|]. now intros c [Hc _].
Qed.

(** *** When the experience is read without an error *)

Lemma hits_scan_length (r : regex) (fuel : nat) (c : cursor) :
  (length (hits (scan fuel r c)) <= fuel)%nat.
Proof.
  revert c. induction fuel as [|fuel IH]; intros c; [reflexivity|].
  rewrite scan_S.
  assert (Step : (length (hits (match rest c with
                                | x :: t => Text x :: scan fuel r {| prev := Some x; rest := t |}
                                | [] => []
                                end)) <= fuel)%nat).
  { destruct (rest c) as [|x t]; [cbn; lia|]. cbn [hits omap list_omap]. apply IH. }
  destruct (match_at r c) as [[c' [[|x t] g]]|].
  - unfold hits in *. rewrite omap_app, length_app. cbn [from_option snd omap list_omap length].
    lia.
  - cbn [hits omap list_omap length]. specialize (IH c'). unfold hits in IH. lia.
  - cbn [from_option app]. lia.
Qed.

(** [finditer] finds at most one match at each position of the text. *)
Lemma finditer_length (r : regex) (s : list N) : (length (finditer r s) <= S (length s))%nat.
Proof. rewrite finditer_hits. apply hits_scan_length. Qed.

Lemma mapM_Forall {A B} (f : A -> result B) (P : B -> Prop) (l : list A) :
  (forall x, x ∈ l -> exists y, f x = Ok y /\ P y) ->
  exists ys, mapM f l = Ok ys /\ Forall P ys /\ length ys = length l.
Proof.
  induction l as [|x l IH]; intros Hf.
  - exists []. repeat split. constructor.
  - destruct (Hf x) as (y & Ey & Py); [apply elem_of_cons; now left|].
    destruct IH as (ys & Eys & Pys & Hl); [intros z Hz; apply Hf, elem_of_cons; now right|].
    exists (y :: ys). cbn [mapM]. rewrite Ey, Eys. repeat split; [now constructor|].
    cbn. now rewrite Hl.
Qed.

Lemma sum_abs_bound (l : list Z) (b : Z) :
  Forall (fun v => (Z.abs v <= b)%Z) l ->
  (Z.abs (foldr Z.add 0 l) <= Z.of_nat (length l) * b)%Z.
Proof.
  induction 1 as [|v l Hv _ IH]; [cbn; lia|]. cbn [foldr length]. lia.
Qed.

Section ExperienceCompletes.
#[local] Existing Instance basic_interpreter.
Variable self : ResumeAnalyzer.

Lemma group_1_of_1 (m : rmatch) (w : list N) : groups m = [(1%nat, w)] -> group m 1 = w.
Proof. unfold group. now intros ->. Qed.

Lemma extract_experience_completes (s : list N) :
  383%N ∉ s ->
  (forall w, substring w s -> Forall (fun c => isdigit c = true) w -> (length w <= 300)%nat) ->
  (0 <= current_year self <= 9999)%Z ->
  exists experiences,
    _extract_experience self s = Ok experiences
    /\ Forall within experiences /\ (length experiences <= 2 * S (length s))%nat.
Proof.
  intros Hs Hruns Hyear. unfold _extract_experience.
  destruct (mapM_Forall
              (fun m => value ← int (group m 1); (Ok (duration value) : result experience))
              within (finditer duration_mention s)) as (ds & -> & Hds & Lds).
  { intros m Hm. apply duration_groups in Hm as (w & Hg & Hw & Hd & Hsub).
    rewrite (group_1_of_1 m w Hg).
    pose proof (Hruns w Hsub Hd) as Hl.
    destruct (int_digits w Hw Hd ltac:(lia)) as (v & -> & Hv).
    exists (duration v). split; [reflexivity|]. cbn [within].
    assert (Hp : (10 ^ Z.of_nat (length w) <= 10 ^ 300)%Z) by (apply Z.pow_le_mono_r; lia).
    lia. }
  destruct (mapM_Forall
              (fun m =>
                 start ← int (group m 1);
                 end_ ← (if str_eqb (lower (group m 2)) (py "present")
                         then Ok (current_year self) else int (group m 2));
                 (Ok (range_years (end_ - start)%Z) : result experience))
              within (finditer range_mention s)) as (rs & -> & Hrs & Lrs).
  { intros m Hm. apply range_groups in Hm as (w1 & w2 & Hg & L1 & D1 & H2 & S1 & S2).
    assert (G1 : group m 1 = w1) by (unfold group; now rewrite Hg).
    assert (G2 : group m 2 = w2) by (unfold group; now rewrite Hg).
    rewrite G1, G2.
    assert (Hw1 : w1 <> []) by (intros ->; discriminate).
    destruct (int_digits w1 Hw1 D1 ltac:(lia)) as (v1 & -> & Hv1).
    rewrite L1 in Hv1. change (10 ^ Z.of_nat 4)%Z with 10000%Z in Hv1.
    rewrite bind_Ok.
    assert (Hend : exists v2,
               (if str_eqb (lower w2) (py "present")
                then Ok (current_year self) else int w2) = Ok v2
               /\ (0 <= v2 <= 9999)%Z).
    { destruct H2 as [[L2 D2]|L2].
      - assert (Hne : str_eqb (lower w2) (py "present") = false).
        { apply bool_decide_eq_false. intros E. apply (f_equal length) in E.
          cbn [lower basic_interpreter] in E. unfold basic_lower in E.
          rewrite length_map, L2 in E. discriminate. }
        rewrite Hne.
        assert (Hw2 : w2 <> []) by (intros ->; discriminate).
        destruct (int_digits w2 Hw2 D2 ltac:(lia)) as (v2 & -> & Hv2).
        rewrite L2 in Hv2. change (10 ^ Z.of_nat 4)%Z with 10000%Z in Hv2.
        exists v2. split; [reflexivity|lia].
      - assert (Hl : lower w2 = py "present").
        { apply lower_of_ieq; [|exact L2|].
          - repeat constructor; try discriminate; apply N.leb_le; reflexivity.
          - intros Hin. apply Hs. destruct S2 as (pre & post & ->).
            apply elem_of_app. right. apply elem_of_app. now left. }
        rewrite Hl. exists (current_year self). split; [reflexivity|lia]. }
    destruct Hend as (v2 & -> & Hv2). rewrite bind_Ok.
    exists (range_years (v2 - v1)). split; [reflexivity|]. cbn [within]. lia. }
  rewrite !bind_Ok. exists (ds ++ rs). split; [reflexivity|]. split; [now apply Forall_app|].
  rewrite length_app, Lds, Lrs.
  pose proof (finditer_length duration_mention s).
  pose proof (finditer_length range_mention s). lia.
Qed.

End ExperienceCompletes.

(** *** When the analysis completes *)

Section DivisionCompletes.
Local Open Scope Q_scope.

(** Rounding at most doubles the size of a number, up to the smallest
    float. *)
Lemma rne64_abs_bound (x : Q) : Qabs (rne64 x) <= 2 * Qabs x + 1.
Proof.
  pose proof (Qabs_nonneg x) as Ha.
  destruct (Qeq_dec x 0) as [E|NE].
  - rewrite (rne64_proper x 0 E). change (Qabs (rne64 0)) with 0. lra.
  - pose proof (pow2_pos (cexp x)) as Pc.
    assert (Hc : pow2 (cexp x) <= Qabs x + 1).
    { unfold cexp. pose proof (Qabs_pos_neq x NE) as Hp.
      destruct (ilog2_spec (Qabs x) Hp) as [Hlo _].
      destruct (Z.max_spec (ilog2 (Qabs x) - 52) (-1074)) as [[_ ->]|[_ ->]].
      - apply Qle_trans with 1; [qle_compute|lra].
      - apply Qle_trans with (pow2 (ilog2 (Qabs x))); [apply pow2_le; lia|lra]. }
    pose proof (rneZ_near (x / pow2 (cexp x))) as [Lo Hi].
    set (c := pow2 (cexp x)) in *.
    assert (Hq : x == (x / c) * c) by (field; lra).
    assert (Hr : rne64 x == inject_Z (rneZ (x / c)) * c) by now apply rne64_unfold.
    set (q := x / c) in *. set (r := inject_Z (rneZ q)) in *.
    assert (H1 : (- (1 # 2)) * c <= (r - q) * c) by (apply Qmult_le_compat_r; lra).
    assert (H2 : (r - q) * c <= (1 # 2) * c) by (apply Qmult_le_compat_r; lra).
    assert (Hx : - Qabs x <= x <= Qabs x).
    { split; [|apply Qle_Qabs]. pose proof (Qle_Qabs (- x)). rewrite Qabs_opp in H. lra. }
    apply Qabs_Qle_condition. split; lra.
Qed.

(** A quotient of integers of this size is within the floats. *)
Lemma truediv_completes (a b : Z) :
  (0 < b)%Z -> (Z.abs a <= 2 ^ 1020)%Z -> exists f, truediv a b = Ok f.
Proof.
  intros Hb Ha. unfold truediv.
  destruct (Z.eqb_spec b 0) as [->|_]; [lia|].
  set (x := inject_Z a / inject_Z b).
  assert (Hb' : 0 < inject_Z b) by (rewrite <- (Zlt_Qlt 0); exact Hb).
  assert (Hx : Qabs x <= inject_Z (Z.abs a)).
  { apply Qabs_Qle_condition. split.
    - apply Qle_shift_div_l; [exact Hb'|]. rewrite <- inject_Z_opp, <- inject_Z_mult.
      rewrite <- Zle_Qle. nia.
    - apply Qle_shift_div_r; [exact Hb'|]. rewrite <- inject_Z_mult, <- Zle_Qle. nia. }
  assert (Hm : Qabs (rne64 x) <= max_float).
  { apply Qle_trans with (2 * Qabs x + 1); [apply rne64_abs_bound|].
    apply Qle_trans with (2 * inject_Z (2 ^ 1020) + 1); [|qle_compute].
    assert (Hz : inject_Z (Z.abs a) <= inject_Z (2 ^ 1020)) by (rewrite <- Zle_Qle; exact Ha).
    lra. }
  apply Qle_bool_iff in Hm. rewrite Hm. eauto.
Qed.

End DivisionCompletes.

Lemma decimal_digits_length (fuel : nat) (n : N) (acc : list N) :
  (length (decimal_digits fuel n acc) <= fuel + length acc)%nat.
Proof.
  revert n acc. induction fuel as [|fuel IH]; intros n acc; [reflexivity|].
  cbn [decimal_digits]. destruct (n <? 10)%N; [cbn; lia|].
  etransitivity; [apply IH|]. cbn [length]. lia.
Qed.

Section AnalysisCompletes.
#[local] Existing Instance basic_interpreter.
Context `{LanguageModel} `{FuzzyMatcher}.
Variable self : ResumeAnalyzer.

(** [str] of an integer of this size is within the limit of the
    conversion. *)
Lemma str_of_int_completes (n : Z) :
  (Z.abs n < 2 ^ 4000)%Z -> exists s, str_of_int n = Ok s.
Proof.
  intros Hn. unfold str_of_int.
  set (digits := decimal_digits _ _ _).
  assert (Hl : (length digits <= 4300)%nat).
  { unfold digits. etransitivity; [apply decimal_digits_length|]. cbn [length].
    assert (Hlog : (N.log2 (Z.abs_N n) < 4000)%N).
    { destruct (N.eq_dec (Z.abs_N n) 0%N) as [->|Hz]; [reflexivity|].
      apply N.log2_lt_pow2; [lia|]. apply N2Z.inj_lt.
      rewrite N2Z.inj_abs_N, N2Z.inj_pow. exact Hn. }
    lia. }
  unfold over_digit_limit. cbn [int_max_str_digits basic_interpreter].
  destruct (Nat.ltb_spec 4300 (length digits)) as [Hlt|_]; [lia|]. eauto.
Qed.

Lemma within_abs (e : experience) : within e -> (Z.abs (years_of e) <= 10 ^ 300)%Z.
Proof. destruct e as [v|y]; cbn [within years_of]; lia. Qed.

Lemma format_experience_completes (experiences : list experience) :
  Forall within experiences -> (Z.of_nat (length experiences) <= 2000002)%Z ->
  exists lines, _format_experience experiences = Ok lines.
Proof.
  intros Hw Hl. unfold _format_experience.
  assert (Hsmall : (10 ^ 300 < 2 ^ 4000)%Z) by reflexivity.
  destruct (mapM_Forall
              (fun exp => match exp with
                          | duration value =>
                              v ← str_of_int value; Ok (v ++ py "+ years experience")
                          | range_years years =>
                              y ← str_of_int years; Ok (y ++ py " years experience")
                          end)
              (fun _ => True) experiences) as (formatted & -> & _ & _).
  { intros e He. pose proof (within_abs e (proj1 (Forall_forall _ _) Hw e He)) as Ha.
    destruct e as [v|y]; cbn [years_of] in Ha.
    - destruct (str_of_int_completes v) as (s & ->); [lia|eauto].
    - destruct (str_of_int_completes y) as (s & ->); [lia|eauto]. }
  rewrite bind_Ok. cbv zeta. fold years_of.
  set (total := foldr Z.add 0%Z (years_of <$> experiences)).
  destruct (0 <? total)%Z; [|eauto].
  assert (Ht : (Z.abs total <= Z.of_nat (length (years_of <$> experiences)) * 10 ^ 300)%Z).
  { apply sum_abs_bound, Forall_fmap. eapply Forall_impl; [exact Hw|]. apply within_abs. }
  rewrite length_fmap in Ht.
  assert (Hb : (2000002 * 10 ^ 300 < 2 ^ 4000)%Z) by reflexivity.
  destruct (str_of_int_completes total) as (s & ->); [|eauto]. nia.
Qed.

Lemma experience_score_completes (s title : list N) (experiences : list experience) :
  _extract_experience self s = Ok experiences ->
  Forall within experiences -> (Z.of_nat (length experiences) <= 2000002)%Z ->
  exists f, _calculate_experience_score self s (PyStr title) = Ok f.
Proof.
  intros E Hw Hl. rewrite experience_score_equals_formula. unfold experience_score_formula.
  rewrite <- extract_experience_total, E, !bind_Ok.
  set (total := foldr Z.add 0%Z (years_of <$> experiences)).
  assert (Ht : (Z.abs total <= Z.of_nat (length (years_of <$> experiences)) * 10 ^ 300)%Z).
  { apply sum_abs_bound, Forall_fmap. eapply Forall_impl; [exact Hw|]. apply within_abs. }
  rewrite length_fmap in Ht.
  assert (Hb : (2000002 * 10 ^ 300 <= 2 ^ 1020)%Z) by (apply Z.leb_le; reflexivity).
  destruct (truediv_completes total (required_years title)) as (q & ->).
  - pose proof (required_years_range title). lia.
  - nia.
  - eauto.
Qed.

Lemma skill_score_completes (cv_skills required_skills : list (list N)) :
  exists f, _calculate_skill_score cv_skills required_skills = Ok f.
Proof.
  destruct required_skills as [|skill others]; [now exists (lit 1)|].
  set (required_skills := skill :: others).
  unfold _calculate_skill_score, required_skills at 1. fold required_skills.
  rewrite covered_filter, sum_of_ones.
  assert (Hc : (0 <= Z.of_nat (length (covered cv_skills required_skills))
                <= Z.of_nat (length required_skills))%Z).
  { split; [lia|]. apply inj_le, length_filter. }
  assert (Hn : (0 < Z.of_nat (length required_skills))%Z)
    by (cbn [required_skills length]; lia).
  destruct (truediv_fraction _ _ Hc Hn) as [-> _]. eauto.
Qed.

End AnalysisCompletes.

Section Completion.
#[local] Existing Instance basic_interpreter.

(** X27: on ASCII text the analysis returns a result whenever the language
    model processes the cleaned resume text and the job text, the position
    is a string (or missing), the resume text has at most 1,000,000
    characters, none of its runs of digits is longer than 300, and the
    current year is between 0 and 9999: under these conditions no number is
    refused by [int] or [str], and no quotient overflows. *)
Theorem analyze_completes `{LanguageModel} `{FuzzyMatcher} (self : ResumeAnalyzer)
    (resume_text title : list N) (job_data : gmap string pyobj) (doc1 doc2 : Doc) :
  nlp (_clean_text resume_text) = Ok doc1 ->
  nlp (job_desc_of job_data) = Ok doc2 ->
  default (PyStr []) (job_data !! "position"%string) = PyStr title ->
  Forall (fun c => (c < 128)%N) resume_text ->
  (Z.of_nat (length resume_text) <= 1000000)%Z ->
  (forall w, substring w resume_text -> Forall (fun c => (48 <= c <= 57)%N) w ->
             (length w <= 300)%nat) ->
  (0 <= current_year self <= 9999)%Z ->
  exists r, analyze self resume_text job_data = Ok r.
Proof.
  intros Hdoc1 Hdoc2 Hpos Hascii Hlen Hruns Hyear.
  pose proof (proj2 (clean_text_keeps_characters resume_text)) as Hcl.
  destruct (extract_experience_completes self (_clean_text resume_text))
    as (experiences & Ee & Hw & Hl).
  - intros Hin.
    pose proof (clean_text_Forall (fun c => (c < 128)%N) resume_text
                  ltac:(reflexivity) ltac:(reflexivity) Hascii) as Hc.
    rewrite Forall_forall in Hc. apply Hc in Hin. discriminate Hin.
  - intros w Hs Hd.
    assert (Hr : Forall (fun c => (48 <= c <= 57)%N) w).
    { eapply Forall_impl; [exact Hd|]. intros c Hc. now apply basic_isdigit. }
    apply Hruns; [|exact Hr]. apply clean_text_run; [|exact Hs].
    eapply Forall_impl; [exact Hr|]. intros c Hc. cbn beta in *. split; [|lia].
    destruct (isspace c) eqn:E; [|reflexivity]. apply isspace_range in E. lia.
  - exact Hyear.
  - assert (Hl' : (Z.of_nat (length experiences) <= 2000002)%Z) by lia.
    destruct (format_experience_completes experiences Hw Hl') as (lines & El).
    destruct (experience_score_completes self _ title _ Ee Hw Hl') as (fe & Ef).
    unfold analyze. fold (job_desc_of job_data).
    unfold _extract_personal_info. rewrite Hdoc1, bind_Ok. cbv zeta. rewrite bind_Ok.
    rewrite extract_skills_clean. unfold _extract_noun_phrases at 1. rewrite Hdoc1, !bind_Ok.
    rewrite Ee, bind_Ok, El, bind_Ok.
    assert (Ej : _extract_skills self (job_desc_of job_data)
                 = _extract_noun_phrases (job_desc_of job_data))
      by (unfold job_desc_of; apply extract_skills_clean).
    rewrite Ej. unfold _extract_noun_phrases. rewrite Hdoc2, !bind_Ok.
    unfold _calculate_semantic_similarity. rewrite Hdoc1, Hdoc2, !bind_Ok.
    cbn [cv_skills].
    match goal with
    | |- context [_calculate_skill_score ?a ?b] =>
        destruct (skill_score_completes a b) as (fs & ->)
    end.
    rewrite Hpos, Ef, education_score_eq.
    destruct (is_zero (vector_norm doc1) || is_zero (vector_norm doc2));
      rewrite !bind_Ok; eauto.
Qed.

End Completion.

Lemma analyze_completes_witness :
  exists r, @analyze basic_interpreter blank_model blank_matcher (analyzer_of_year 2026)
              sample_resume sample_job = Ok r.
Proof.
  apply (@analyze_completes blank_model blank_matcher (analyzer_of_year 2026) sample_resume
           (py "Senior Engineer") sample_job tt tt).
  - reflexivity.
  - reflexivity.
  - reflexivity.
  - repeat (constructor; [reflexivity|]). constructor.
  - vm_compute. discriminate.
  - intros w Hs _. apply substring_length in Hs. change (length sample_resume) with 49%nat in Hs.
    lia.
  - cbn. lia.
Defined.

(** On a cleaned text the skills are the same for every analyzer and every
    fuzzy matcher: they are the noun phrases. *)
Lemma extract_skills_any `{Interpreter} `{LanguageModel} (matcher1 matcher2 : FuzzyMatcher)
    (self1 self2 : ResumeAnalyzer) (t : list N) :
  @_extract_skills _ _ matcher1 self1 (_clean_text t)
  = @_extract_skills _ _ matcher2 self2 (_clean_text t).
Proof.
  now rewrite (@extract_skills_clean _ _ matcher1), (@extract_skills_clean _ _ matcher2).
Qed.

(** [analyze] uses the current year of the analyzer and nothing else of
    it, and no fuzzy matcher. *)
Lemma analyze_same_year `{Interpreter} `{LanguageModel} (matcher1 matcher2 : FuzzyMatcher)
    (self1 self2 : ResumeAnalyzer) (resume_text : list N) (job_data : gmap string pyobj) :
  current_year self1 = current_year self2 ->
  @analyze _ _ matcher1 self1 resume_text job_data
  = @analyze _ _ matcher2 self2 resume_text job_data.
Proof.
  intros Hy. unfold analyze.
  rewrite !(extract_skills_any matcher1 matcher2 self1 self2).
  unfold _calculate_experience_score, _extract_experience. now rewrite Hy.
Qed.

(** X28: the vocabulary of known skills, the blacklist and the fuzzy matcher
    have no part in an analysis: whatever they are, [analyze] returns the
    same result or raises the same exception.  It cleans its texts first, a
    cleaned text is one line and so has no skills section, and the skills
    are then the noun phrases; of the analyzer it uses the current year
    only. *)
Theorem analyze_ignores_vocabulary `{Interpreter} `{LanguageModel}
    (matcher1 matcher2 : FuzzyMatcher) (self : ResumeAnalyzer)
    (vocabulary blacklist : list (list N)) (resume_text : list N)
    (job_data : gmap string pyobj) :
  @analyze _ _ matcher1 self resume_text job_data
  = @analyze _ _ matcher2
      {| known_skills := vocabulary; current_year := current_year self;
         skill_blacklist := blacklist |} resume_text job_data.
Proof.
  set (other := {| known_skills := vocabulary; current_year := current_year self;
                   skill_blacklist := blacklist |}).
  unfold analyze.
  rewrite (extract_skills_any matcher1 matcher2 self other resume_text).
  set (job_text := format (default (PyStr []) (job_data !! "description"%string)) ++ py " "
                   ++ format (default (PyStr []) (job_data !! "requirements"%string))).
  rewrite (extract_skills_any matcher1 matcher2 self other job_text).
  unfold _calculate_experience_score, _extract_experience.
  change (current_year other) with (current_year self).
  reflexivity.
Qed.

Lemma process_resume_same_year `{Interpreter} `{LanguageModel} (matcher1 matcher2 : FuzzyMatcher)
    (deployment : Deployment) (frame1 frame2 : DataFrame) (file_path : list N)
    (job_data : gmap string json) (file_hash : list N) (w : World) :
  @_process_resume _ _ matcher1 (with_skills_csv deployment (Ok frame1)) file_path job_data
    file_hash w
  = @_process_resume _ _ matcher2 (with_skills_csv deployment (Ok frame2)) file_path job_data
      file_hash w.
Proof.
  destruct deployment as [load csv year md5 pdf same temp avail strj].
  unfold _process_resume, with_skills_csv, __init__, _load_skills.
  cbn [spacy_load read_skills_csv now_year].
  destruct load as [u|e]; [|now destruct e]. rewrite !bind_Ok.
  match goal with
  | |- context [@analyze _ _ matcher1 ?a1 _ _] =>
      match goal with
      | |- context [@analyze _ _ matcher2 ?a2 _ _] =>
          assert (Ea : forall t j, @analyze _ _ matcher1 a1 t j = @analyze _ _ matcher2 a2 t j)
            by (intros t j; now apply analyze_same_year)
      end
  end.
  cbn [temp_files open_pdf str_of_json].
  destruct (extract_text _) as [raw_text|e]; [|reflexivity].
  rewrite !bind_Ok, Ea. reflexivity.
Qed.

(** X29: the view loads the skills file of the settings at every request,
    but what the file holds has no effect: with any two skills files that
    load, and any two fuzzy matchers, [post] gives the same answer and
    leaves the same state. *)
Theorem post_ignores_skills_csv `{Interpreter} `{LanguageModel}
    (matcher1 matcher2 : FuzzyMatcher) (deployment : Deployment) (frame1 frame2 : DataFrame)
    (r : request) (outcomes : nat -> http_outcome) (w : World) :
  @post _ _ matcher1 (with_skills_csv deployment (Ok frame1)) r outcomes w
  = @post _ _ matcher2 (with_skills_csv deployment (Ok frame2)) r outcomes w.
Proof.
  destruct r as [|resume_file job_id]; [reflexivity|].
  unfold post, post_body.
  destruct (_ ← _validate_file resume_file; _get_job_data outcomes) as [job_data|e];
    [|reflexivity].
  cbv zeta.
  change (@first_analysis (with_skills_csv deployment (Ok frame2)))
    with (@first_analysis (with_skills_csv deployment (Ok frame1))).
  change (@md5_hexdigest (with_skills_csv deployment (Ok frame2)))
    with (@md5_hexdigest (with_skills_csv deployment (Ok frame1))).
  change (@temp_name (with_skills_csv deployment (Ok frame2)))
    with (@temp_name (with_skills_csv deployment (Ok frame1))).
  destruct (first_analysis _ _ _); [reflexivity|].
  now rewrite (process_resume_same_year matcher1 matcher2 deployment frame1 frame2).
Qed.
